(** * Gato (tic-tac-toe) with a traced minimax search: src/minimaxgato.py

    A shallow embedding of the search core of the program (the functions
    [print_board_state], [available_moves], [check_winner], [minimax] and
    [best_move]) and the properties its specification states about them;
    then of the methods of the class [TicTacToeGame] that decide the course
    of a game, with further properties of the search and of the game.

    The Python code works on one shared list object, the board, which it
    mutates in place, and writes a trace with [print].  Both are kept in an
    explicit world that every computation threads; Python exceptions are a
    second kind of result.  The interpreter's bound on the depth of the call
    stack is the [fuel] of [minimax]: it bounds the nesting of the calls of
    [minimax], the only recursion of the program.  The frames the deepest
    call still needs for [check_winner], [available_moves] and its
    comprehension are taken to be there, so that here [RecursionError] comes
    up only where [minimax] is entered, while the interpreter can raise it in
    those calls too, before the first trial move of a level. *)

From Stdlib Require Import ZArith Lia.
From stdpp Require Import base list sorting strings pretty.

Open Scope string_scope.
Open Scope list_scope.

(** ** Results, exceptions and the world *)

(** The exceptions the embedded code can raise: an index outside a list, the
    addition [None + 1], and the exhaustion of the call stack. *)
Inductive exn : Set := IndexError | TypeError | RecursionError.

Inductive result (A : Type) : Type :=
| Ok (a : A)
| Raise (e : exn).
Arguments Ok {A} a.
Arguments Raise {A} e.

Definition rbind {A B : Type} (r : result A) (k : A -> result B) : result B :=
  match r with
  | Ok a => k a
  | Raise e => Raise e
  end.

(** The board is a Python list of one-character strings; [" "] is the empty
    cell. *)
Abbreviation board := (list string).

Record world : Type := World { cells : board; stdout : list string }.

Definition M (A : Type) : Type := world -> result A * world.

Definition ret {A : Type} (a : A) : M A := fun w => (Ok a, w).

Definition bind {A B : Type} (m : M A) (k : A -> M B) : M B :=
  fun w =>
    match m w with
    | (Ok a, w') => k a w'
    | (Raise e, w') => (Raise e, w')
    end.

Definition raise {A : Type} (e : exn) : M A := fun w => (Raise e, w).

Declare Scope py_scope.
Delimit Scope py_scope with py.
Notation "x <- m ;; k" := (bind m (fun x => k))
  (at level 100, m at next level, right associativity) : py_scope.
Notation "m ;; k" := (bind m (fun _ => k))
  (at level 100, right associativity) : py_scope.

(** [print(s)]: one more line on the standard output. *)
Definition print (s : string) : M unit :=
  fun w => (Ok tt, World (cells w) (stdout w ++ [s])).

(** [if flag: print(s)] *)
Definition print_if (flag : bool) (s : string) : M unit :=
  if flag then print s else ret tt.

(** Reading the shared board. *)
Definition get_board : M board := fun w => (Ok (cells w), w).

Definition lift {A : Type} (f : board -> result A) : M A :=
  fun w => (f (cells w), w).

(** [board[i] = v]; Python raises [IndexError] outside the list. *)
Definition setitem (i : nat) (v : string) : M unit :=
  fun w =>
    if Nat.ltb i (length (cells w))
    then (Ok tt, World (<[i:=v]> (cells w)) (stdout w))
    else (Raise IndexError, w).

(** [board[i]] *)
Definition getitem (b : board) (i : nat) : result string :=
  match b !! i with
  | Some c => Ok c
  | None => Raise IndexError
  end.

(** ** Scores: Python integers together with [math.inf] and [-math.inf] *)

Inductive score : Set := NegInf | Fin (z : Z) | PosInf.

(** [a > b] *)
Definition score_gt (a b : score) : bool :=
  match a, b with
  | NegInf, _ => false
  | Fin _, NegInf => true
  | Fin x, Fin y => Z.ltb y x
  | Fin _, PosInf => false
  | PosInf, PosInf => false
  | PosInf, _ => true
  end.

(** [a < b] *)
Definition score_lt (a b : score) : bool := score_gt b a.

(** ** Formatting *)

(** [s * n] on strings; a negative count gives the empty string. *)
Definition str_mul (s : string) (n : Z) : string :=
  String.concat "" (replicate (Z.to_nat n) s).

Definition str_of_score (s : score) : string :=
  match s with
  | NegInf => "-inf"
  | Fin z => pretty z
  | PosInf => "inf"
  end.

Definition str_of_nat (n : nat) : string := pretty n.

Definition newline : string := String (Ascii.ascii_of_nat 10) "".

(** The global switch of the trace. *)
Section Trace_switch.

Variable PRINT_TREE : bool.

(** [board[lo:hi]] for [0 <= lo <= hi] *)
Definition slice (b : board) (lo hi : nat) : board := take (hi - lo) (drop lo b).

Definition show_cell (c : string) : string := if String.eqb c " " then "·" else c.

Definition print_board_state (depth : Z) (prefix : string) : M unit :=
  (if negb PRINT_TREE then ret tt
   else
     b <- get_board ;;
     print (prefix +:+ "Tablero (depth=" +:+ pretty depth +:+ "):") ;;
     (fix rows (range : list nat) : M unit :=
        match range with
        | [] => ret tt
        | i :: rest =>
            let row := slice b (i * 3) ((i + 1) * 3) in
            print (prefix +:+ "  " +:+ String.concat " | " (map show_cell row)) ;;
            rows rest
        end) (seq 0 3))%py.

End Trace_switch.

(** ** The evaluator *)

Definition WIN_COMBINATIONS : list (nat * nat * nat) :=
  [ (0, 1, 2); (3, 4, 5); (6, 7, 8);
    (0, 3, 6); (1, 4, 7); (2, 5, 8);
    (0, 4, 8); (2, 4, 6) ].

Fixpoint enumerate_from {A : Type} (i : nat) (l : list A) : list (nat * A) :=
  match l with
  | [] => []
  | x :: l' => (i, x) :: enumerate_from (S i) l'
  end.

Definition enumerate {A : Type} (l : list A) : list (nat * A) := enumerate_from 0 l.

(** [[i for i, c in enumerate(board) if c == ' ']] *)
Definition available_moves (b : board) : list nat :=
  map fst (List.filter (fun ic => String.eqb (snd ic) " ") (enumerate b)).

(** [' ' not in board] *)
Definition no_blank (b : board) : bool := forallb (fun c => negb (String.eqb c " ")) b.

(** The loop of [check_winner] over the triples.  The chained comparison
    [board[a] == board[b] == board[c]] reads [board[c]] only when the first
    two cells are equal, and [board[a] != ' '] is read only when all three
    are. *)
Fixpoint winning_line (b : board) (combos : list (nat * nat * nat)) : result (option string) :=
  match combos with
  | [] => Ok None
  | (i, j, k) :: rest =>
      rbind (getitem b i) (fun x =>
      rbind (getitem b j) (fun y =>
        if String.eqb x y then
          rbind (getitem b k) (fun z =>
            if String.eqb y z && negb (String.eqb x " ")
            then Ok (Some x)
            else winning_line b rest)
        else winning_line b rest))
  end.

(** [check_winner]: a cell value, ['Tie'] or [None]. *)
Definition check_winner (b : board) : result (option string) :=
  rbind (winning_line b WIN_COMBINATIONS) (fun w =>
    match w with
    | Some x => Ok (Some x)
    | None => if no_blank b then Ok (Some "Tie") else Ok None
    end).

(** [winner == s] for [winner] a string or [None]. *)
Definition winner_is (w : option string) (s : string) : bool :=
  match w with
  | Some x => String.eqb x s
  | None => false
  end.

(** ** The search *)

Section Minimax_body.

(** The recursive call of one level, already applied to [depth + 1] and the
    flipped flag. *)
Variable rec : M score.
Variables (ai_player hu_player : string) (print_tree : bool) (indent : string).

(** The [for] loop of a maximizing node, from [best_score]. *)
Fixpoint max_loop (moves : list nat) (best_score : score) : M score :=
  match moves with
  | [] => ret best_score
  | move :: rest =>
      (setitem move ai_player ;;
       print_if print_tree
         (indent +:+ "│  ├─ Probando movimiento " +:+ str_of_nat (move + 1) +:+ ":") ;;
       score <- rec ;;
       setitem move " " ;;
       print_if print_tree (indent +:+ "│  │  └─ Score recibido: " +:+ str_of_score score) ;;
       max_loop rest (if score_gt score best_score then score else best_score))%py
  end.

(** The [for] loop of a minimizing node. *)
Fixpoint min_loop (moves : list nat) (best_score : score) : M score :=
  match moves with
  | [] => ret best_score
  | move :: rest =>
      (setitem move hu_player ;;
       print_if print_tree
         (indent +:+ "│  ├─ Probando movimiento " +:+ str_of_nat (move + 1) +:+ ":") ;;
       score <- rec ;;
       setitem move " " ;;
       print_if print_tree (indent +:+ "│  │  └─ Score recibido: " +:+ str_of_score score) ;;
       min_loop rest (if score_lt score best_score then score else best_score))%py
  end.

End Minimax_body.

(** [fuel] is the number of nested calls of [minimax] the call stack still
    has room for.  Only these calls are counted: [check_winner] and
    [available_moves] raise no [RecursionError] here. *)
Fixpoint minimax (fuel : nat) (depth : Z) (is_maximizing : bool)
    (ai_player hu_player : string) (print_tree : bool) {struct fuel} : M score :=
  match fuel with
  | O => raise RecursionError
  | S fuel' =>
      let indent := str_mul "  " depth in
      (winner <- lift check_winner ;;
       if winner_is winner ai_player then
         let score := (10 - depth)%Z in
         print_if print_tree
           (indent +:+ "├─ Nodo terminal: IA gana, score=" +:+ pretty score) ;;
         ret (Fin score)
       else if winner_is winner hu_player then
         let score := (depth - 10)%Z in
         print_if print_tree
           (indent +:+ "├─ Nodo terminal: Humano gana, score=" +:+ pretty score) ;;
         ret (Fin score)
       else if winner_is winner "Tie" then
         print_if print_tree (indent +:+ "├─ Nodo terminal: Empate, score=0") ;;
         ret (Fin 0%Z)
       else
         b <- get_board ;;
         let moves := available_moves b in
         if is_maximizing then
           print_if print_tree
             (indent +:+ "├─ Nodo MAX (IA=" +:+ ai_player +:+ ") depth=" +:+ pretty depth
                +:+ ", " +:+ str_of_nat (length moves) +:+ " movimientos") ;;
           best_score <-
             max_loop (minimax fuel' (depth + 1)%Z false ai_player hu_player print_tree)
               ai_player print_tree indent moves NegInf ;;
           print_if print_tree
             (indent +:+ "│  └─ Mejor score MAX: " +:+ str_of_score best_score) ;;
           ret best_score
         else
           print_if print_tree
             (indent +:+ "├─ Nodo MIN (Humano=" +:+ hu_player +:+ ") depth=" +:+ pretty depth
                +:+ ", " +:+ str_of_nat (length moves) +:+ " movimientos") ;;
           best_score <-
             min_loop (minimax fuel' (depth + 1)%Z true ai_player hu_player print_tree)
               hu_player print_tree indent moves PosInf ;;
           print_if print_tree
             (indent +:+ "│  └─ Mejor score MIN: " +:+ str_of_score best_score) ;;
           ret best_score)%py
  end.

Section Best_move_body.

Variable rec : M score.
Variable ai_player : string.

(** The [for] loop of [best_move], from [(best_score, move_choice)]. *)
Fixpoint choice_loop (moves : list nat) (best_score : score) (move_choice : option nat)
    : M (score * option nat) :=
  match moves with
  | [] => ret (best_score, move_choice)
  | move :: rest =>
      (setitem move ai_player ;;
       print (newline +:+ "┌─ Evaluando movimiento en posición " +:+ str_of_nat (move + 1)
                +:+ " (IA juega " +:+ ai_player +:+ "):") ;;
       score <- rec ;;
       setitem move " " ;;
       print ("└─ Score final para movimiento " +:+ str_of_nat (move + 1) +:+ ": "
                +:+ str_of_score score) ;;
       if score_gt score best_score
       then choice_loop rest score (Some move)
       else choice_loop rest best_score move_choice)%py
  end.

End Best_move_body.

(** [best_move]; [fuel] bounds the depth of the calls of [minimax] below it.
    The line that announces the decision computes [move_choice + 1], which
    raises [TypeError] when no move was recorded. *)
Definition best_move (PRINT_TREE : bool) (fuel : nat) (ai_player hu_player : string) : M nat :=
  (print (newline +:+ str_mul "=" 60) ;;
   print "ÁRBOL DE BÚSQUEDA MINIMAX" ;;
   print (str_mul "=" 60) ;;
   b <- get_board ;;
   let moves := available_moves b in
   print ("Evaluando " +:+ str_of_nat (length moves)
            +:+ " movimientos posibles desde el estado actual:") ;;
   print_board_state PRINT_TREE 0%Z "" ;;
   print "" ;;
   r <- choice_loop (minimax fuel 0%Z false ai_player hu_player true) ai_player
          moves NegInf None ;;
   print (newline +:+ str_mul "=" 60) ;;
   match snd r with
   | None => raise TypeError
   | Some move_choice =>
       print ("DECISIÓN: Mejor movimiento = posición " +:+ str_of_nat (move_choice + 1)
                +:+ ", score = " +:+ str_of_score (fst r)) ;;
       print (str_mul "=" 60 +:+ newline) ;;
       ret move_choice
   end)%py.

(** Running a computation on a board with an empty output. *)
Definition run {A : Type} (m : M A) (b : board) : result A * world := m (World b []).

(** ** The search without its world

    The same search on an immutable board and without a trace: what
    [minimax] and [best_move] compute once every trial move is undone.
    Theorems [minimax_run] and [best_move_run] below relate the two. *)

Section Value_loops.

Variable rec : board -> result score.
Variable symbol : string.
Variable b : board.

Fixpoint max_value (moves : list nat) (best_score : score) : result score :=
  match moves with
  | [] => Ok best_score
  | move :: rest =>
      rbind (rec (<[move:=symbol]> b)) (fun score =>
        max_value rest (if score_gt score best_score then score else best_score))
  end.

Fixpoint min_value (moves : list nat) (best_score : score) : result score :=
  match moves with
  | [] => Ok best_score
  | move :: rest =>
      rbind (rec (<[move:=symbol]> b)) (fun score =>
        min_value rest (if score_lt score best_score then score else best_score))
  end.

Fixpoint choice_value (moves : list nat) (best_score : score) (move_choice : option nat)
    : result (score * option nat) :=
  match moves with
  | [] => Ok (best_score, move_choice)
  | move :: rest =>
      rbind (rec (<[move:=symbol]> b)) (fun score =>
        if score_gt score best_score
        then choice_value rest score (Some move)
        else choice_value rest best_score move_choice)
  end.

End Value_loops.

Fixpoint minimax_value (fuel : nat) (depth : Z) (is_maximizing : bool)
    (ai_player hu_player : string) (b : board) {struct fuel} : result score :=
  match fuel with
  | O => Raise RecursionError
  | S fuel' =>
      rbind (check_winner b) (fun winner =>
        if winner_is winner ai_player then Ok (Fin (10 - depth)%Z)
        else if winner_is winner hu_player then Ok (Fin (depth - 10)%Z)
        else if winner_is winner "Tie" then Ok (Fin 0%Z)
        else if is_maximizing then
          max_value (minimax_value fuel' (depth + 1) false ai_player hu_player)
            ai_player b (available_moves b) NegInf
        else
          min_value (minimax_value fuel' (depth + 1) true ai_player hu_player)
            hu_player b (available_moves b) PosInf)
  end.

Definition best_choice (fuel : nat) (ai_player hu_player : string) (b : board)
    : result (score * option nat) :=
  choice_value (minimax_value fuel 0%Z false ai_player hu_player) ai_player b
    (available_moves b) NegInf None.

Definition best_move_value (fuel : nat) (ai_player hu_player : string) (b : board)
    : result nat :=
  rbind (best_choice fuel ai_player hu_player b) (fun r =>
    match snd r with
    | None => Raise TypeError
    | Some move_choice => Ok move_choice
    end).

(** ** Notions used to state and prove the properties *)

Definition moves_from (i : nat) (b : board) : list nat :=
  map fst (List.filter (fun ic => String.eqb (snd ic) " ") (enumerate_from i b)).

(** The number of empty cells, the measure of the search. *)
Definition blanks (b : board) : nat := length (available_moves b).

(** The symbol of a completed line, if the triple is one. *)
Definition line_symbol (b : board) (t : nat * nat * nat) : option string :=
  match t with
  | (i, j, k) =>
      match b !! i, b !! j, b !! k with
      | Some x, Some y, Some z =>
          if String.eqb x y && String.eqb y z && negb (String.eqb x " ")
          then Some x else None
      | _, _, _ => None
      end
  end.

(** [wins b t x]: the three cells of [t] hold the same non-empty [x]. *)
Definition wins (b : board) (t : nat * nat * nat) (x : string) : Prop :=
  b !! t.1.1 = Some x /\ b !! t.1.2 = Some x /\ b !! t.2 = Some x /\ x <> " ".

Fixpoint first_line (b : board) (combos : list (nat * nat * nat)) : option string :=
  match combos with
  | [] => None
  | t :: rest =>
      match line_symbol b t with
      | Some x => Some x
      | None => first_line b rest
      end
  end.

Definition in_range (b : board) (combos : list (nat * nat * nat)) : Prop :=
  Forall (fun t => t.1.1 < length b /\ t.1.2 < length b /\ t.2 < length b) combos.

Definition outcome_of (b : board) : option string :=
  match first_line b WIN_COMBINATIONS with
  | Some x => Some x
  | None => if no_blank b then Some "Tie" else None
  end.

(** [computes m f]: run on any world, [m] ends like [f] on the board of that
    world, and when it ends without an exception it has left the board as it
    found it. *)
Definition computes {A : Type} (m : M A) (f : board -> result A) : Prop :=
  forall w, exists w',
    m w = (f (cells w), w') /\ (forall a, f (cells w) = Ok a -> cells w' = cells w).

Definition finite (s : score) : Prop :=
  match s with
  | Fin _ => True
  | _ => False
  end.

(** [known_lines b]: the first completed line of the board, if there is one,
    belongs to one of the two players. *)
Definition known_lines (ai_player hu_player : string) (b : board) : Prop :=
  first_line b WIN_COMBINATIONS = None
  \/ first_line b WIN_COMBINATIONS = Some ai_player
  \/ first_line b WIN_COMBINATIONS = Some hu_player.

(** The score [best_move] records for the candidate [move]: the result of
    [minimax(board, 0, False, ai_player, hu_player, print_tree=True)] on the
    board that carries the trial mark. *)
Definition candidate_score (fuel : nat) (ai_player hu_player : string) (b : board)
    (move : nat) : result score :=
  fst (run (minimax fuel 0 false ai_player hu_player true) (<[move:=ai_player]> b)).

Definition empty_board : board := replicate 9 " ".

(** X X . / O O . / . . . *)
Definition row_board : board := ["X"; "X"; " "; "O"; "O"; " "; " "; " "; " "].

(** X X X / O O . / . . . : the AI's row is already complete. *)
Definition won_board : board := ["X"; "X"; "X"; "O"; "O"; " "; " "; " "; " "].

(** . O X / X X . / O O O : the human's row is complete, and a mark on cell 5
    completes a row of the AI that [check_winner] examines first. *)
Definition lost_board : board := [" "; "O"; "X"; "X"; "X"; " "; "O"; "O"; "O"].

(** X O X / X O O / O X X : no empty cell, no line. *)
Definition full_board : board := ["X"; "O"; "X"; "X"; "O"; "O"; "O"; "X"; "X"].

(** A cell value that is no player's, and a board of ten cells. *)
Definition foreign_board : board := ["Z"; " "; "X"; "O"; "O"; "X"; "X"; "O"; "Z"].
Definition long_board : board := ["X"; "O"; "X"; "O"; "O"; "X"; "X"; " "; "O"; " "].

(** X X O / O O X / X . : eight cells.  [check_winner] reads no cell 8 on
    it, and does once cell 7 holds an X. *)
Definition short_board : board := ["X"; "X"; "O"; "O"; "O"; "X"; "X"; " "].

(** ** Notions for the further properties *)

(** [-s] on scores. *)
Definition neg_score (s : score) : score :=
  match s with
  | NegInf => PosInf
  | Fin z => Fin (- z)
  | PosInf => NegInf
  end.

(** The sign of a score: -1, 0 or 1. *)
Definition sign (s : score) : Z :=
  match s with
  | NegInf => (-1)%Z
  | Fin z => Z.sgn z
  | PosInf => 1%Z
  end.

Definition rmap {A B : Type} (f : A -> B) (r : result A) : result B :=
  match r with
  | Ok a => Ok (f a)
  | Raise e => Raise e
  end.

(** [keeps b b']: [b'] has the length of [b] and every cell that holds a mark
    in [b] holds the same mark in [b']. *)
Definition keeps (b b' : board) : Prop :=
  length b' = length b
  /\ forall i c, b !! i = Some c -> c <> " " -> b' !! i = Some c.

(** What a loop of trial moves leaves: the marks of the board it started
    from and, when an exception stopped it, the mark of the trial under way. *)
Definition loop_leaves {A : Type} (symbol : string) (b : board) (moves : list nat)
    (x : result A * world) : Prop :=
  keeps b (cells (snd x))
  /\ forall e, fst x = Raise e -> symbol <> " " ->
       exists m, m ∈ moves /\ cells (snd x) !! m = Some symbol.

(** The lines a computation prints when it is run on a board. *)
Definition trace_of {A : Type} (m : M A) (b : board) : list string :=
  stdout (snd (run m b)).

(** [framed m]: what was printed before has no influence on [m]; [m] appends
    its own lines to it. *)
Definition framed {A : Type} (m : M A) : Prop :=
  forall b out,
    m (World b out)
    = (fst (run m b), World (cells (snd (run m b))) (out ++ trace_of m b)).

(** [silent m]: [m] prints nothing. *)
Definition silent {A : Type} (m : M A) : Prop :=
  forall w, stdout (snd (m w)) = stdout w.

(** The four lines of [print_board_state(board, 0, "")]. *)
Definition board_picture (b : board) : list string :=
  trace_of (print_board_state true 0 "") b.

(** The part of the trace of [best_move] that belongs to one candidate: its
    header, the trace of [minimax] on the board that carries the trial mark,
    and the line with its score. *)
Definition candidate_trace (fuel : nat) (ai_player hu_player : string) (b : board)
    (move : nat) : list string :=
  [newline +:+ "┌─ Evaluando movimiento en posición " +:+ str_of_nat (move + 1)
     +:+ " (IA juega " +:+ ai_player +:+ "):"]
  ++ trace_of (minimax fuel 0 false ai_player hu_player true) (<[move:=ai_player]> b)
  ++ match candidate_score fuel ai_player hu_player b move with
     | Ok score => ["└─ Score final para movimiento " +:+ str_of_nat (move + 1) +:+ ": "
                      +:+ str_of_score score]
     | Raise _ => []
     end.

(** The lines of one turn of the loop of [best_move], with [rec] for the call
    of [minimax] and [value] for the score it returns. *)
Definition turn (rec : M score) (value : board -> result score) (symbol : string)
    (b : board) (move : nat) : list string :=
  [newline +:+ "┌─ Evaluando movimiento en posición " +:+ str_of_nat (move + 1)
     +:+ " (IA juega " +:+ symbol +:+ "):"]
  ++ trace_of rec (<[move:=symbol]> b)
  ++ match value (<[move:=symbol]> b) with
     | Ok score => ["└─ Score final para movimiento " +:+ str_of_nat (move + 1) +:+ ": "
                      +:+ str_of_score score]
     | Raise _ => []
     end.

(** ** The game around the search: class [TicTacToeGame]

    The methods that decide the course of a game.  The world of the game is
    the object [self], the standard output and the interval of the pygame
    timer of [USEREVENT] (0 when it is off).  The display is not part of it:
    of the drawing methods only the assignment to [self.button_rect] in
    [draw_game_over] is kept.  What pygame computes, [Rect.collidepoint] and
    the truth value of a [Rect], is a parameter. *)

Module TicTacToeGame.

Definition WINDOW_SIZE : Z := 600.
Definition GRID_SIZE : Z := 3.
Definition CELL_SIZE : Z := WINDOW_SIZE / GRID_SIZE.

(** The values of [self.state]. *)
Inductive screen : Set := menu | playing | game_over.

(** [pygame.Rect(left, top, width, height)] *)
Record rect : Set := Rect { left : Z; top : Z; width : Z; height : Z }.

Record game : Type := Game {
  self_state : screen;
  self_board : board;
  self_hu_player : option string;
  self_ai_player : option string;
  self_hu_turn : bool;
  self_winner : option string;
  self_button_rect : option rect
}.

Record env : Type := Env { self : game; console : list string; timer : Z }.

(** How a method ends: normally, with a Python exception, or [Outside]: the
    method was about to store [None], the value of a player not yet chosen,
    in the board, whose cells are strings here. *)
Inductive outcome (A : Type) : Type :=
| Done (a : A)
| Failed (e : exn)
| Outside.
Arguments Done {A} a.
Arguments Failed {A} e.
Arguments Outside {A}.

Definition G (A : Type) : Type := env -> outcome A * env.

Definition gret {A : Type} (a : A) : G A := fun w => (Done a, w).

Definition gbind {A B : Type} (m : G A) (k : A -> G B) : G B :=
  fun w =>
    match m w with
    | (Done a, w') => k a w'
    | (Failed e, w') => (Failed e, w')
    | (Outside, w') => (Outside, w')
    end.

Declare Scope game_scope.
Delimit Scope game_scope with game.
Notation "x <- m ;; k" := (gbind m (fun x => k))
  (at level 100, m at next level, right associativity) : game_scope.
Notation "m ;; k" := (gbind m (fun _ => k))
  (at level 100, right associativity) : game_scope.

Definition fail {A : Type} (e : exn) : G A := fun w => (Failed e, w).

Definition get : G game := fun w => (Done (self w), w).

Definition modify (f : game -> game) : G unit :=
  fun w => (Done tt, Env (f (self w)) (console w) (timer w)).

Definition set_state (v : screen) : G unit :=
  modify (fun g => Game v (self_board g) (self_hu_player g) (self_ai_player g)
                     (self_hu_turn g) (self_winner g) (self_button_rect g)).

Definition set_board (v : board) : G unit :=
  modify (fun g => Game (self_state g) v (self_hu_player g) (self_ai_player g)
                     (self_hu_turn g) (self_winner g) (self_button_rect g)).

Definition set_hu_player (v : option string) : G unit :=
  modify (fun g => Game (self_state g) (self_board g) v (self_ai_player g)
                     (self_hu_turn g) (self_winner g) (self_button_rect g)).

Definition set_ai_player (v : option string) : G unit :=
  modify (fun g => Game (self_state g) (self_board g) (self_hu_player g) v
                     (self_hu_turn g) (self_winner g) (self_button_rect g)).

Definition set_hu_turn (v : bool) : G unit :=
  modify (fun g => Game (self_state g) (self_board g) (self_hu_player g)
                     (self_ai_player g) v (self_winner g) (self_button_rect g)).

Definition set_winner (v : option string) : G unit :=
  modify (fun g => Game (self_state g) (self_board g) (self_hu_player g)
                     (self_ai_player g) (self_hu_turn g) v (self_button_rect g)).

Definition set_button_rect (v : option rect) : G unit :=
  modify (fun g => Game (self_state g) (self_board g) (self_hu_player g)
                     (self_ai_player g) (self_hu_turn g) (self_winner g) v).

(** [print(s)] *)
Definition gprint (s : string) : G unit :=
  fun w => (Done tt, Env (self w) (console w ++ [s]) (timer w)).

(** [pygame.time.set_timer(pygame.USEREVENT, ms)] *)
Definition set_timer (ms : Z) : G unit :=
  fun w => (Done tt, Env (self w) (console w) ms).

(** A player as a cell value. *)
Definition the_mark (p : option string) : G string :=
  match p with
  | Some symbol => gret symbol
  | None => fun w => (Outside, w)
  end.

(** [f"{p}"] for a player. *)
Definition str_of_player (p : option string) : string :=
  match p with
  | Some symbol => symbol
  | None => "None"
  end.

(** The position in a list of length [len] that the Python index [i]
    denotes: a negative index counts from the end. *)
Definition py_index (len : nat) (i : Z) : option nat :=
  if (0 <=? i)%Z && (i <? Z.of_nat len)%Z then Some (Z.to_nat i)
  else if (- Z.of_nat len <=? i)%Z && (i <? 0)%Z then Some (Z.to_nat (i + Z.of_nat len))
  else None.

(** [self.board[i]] *)
Definition board_getitem (i : Z) : G string :=
  (g <- get ;;
   match py_index (length (self_board g)) i with
   | Some n =>
       match self_board g !! n with
       | Some c => gret c
       | None => fail IndexError
       end
   | None => fail IndexError
   end)%game.

(** [self.board[i] = v] *)
Definition board_setitem (i : Z) (v : string) : G unit :=
  (g <- get ;;
   match py_index (length (self_board g)) i with
   | Some n => set_board (<[n:=v]> (self_board g))
   | None => fail IndexError
   end)%game.

(** [check_winner(self.board)] *)
Definition call_check_winner : G (option string) :=
  (g <- get ;;
   match check_winner (self_board g) with
   | Ok winner => gret winner
   | Raise e => fail e
   end)%game.

(** The truth value of what [check_winner] returns: [None] and the empty
    string are false. *)
Definition truthy (winner : option string) : bool :=
  match winner with
  | Some s => negb (String.eqb s "")
  | None => false
  end.

Section Methods.

(** [r.collidepoint(pos)] and [bool(r)] of pygame. *)
Variable collidepoint : rect -> Z * Z -> bool.
Variable rect_bool : rect -> bool.

(** The module constant [PRINT_TREE] and the bound on the depth of the calls
    of [minimax]. *)
Variable PRINT_TREE : bool.
Variable recursion_limit : nat.

(** [best_move(self.board, ai, hu)]: the search works on the list object of
    [self.board] and prints on the same standard output. *)
Definition call_best_move (ai_player hu_player : string) : G nat :=
  fun w =>
    let g := self w in
    let '(r, w') := best_move PRINT_TREE recursion_limit ai_player hu_player
                      (World (self_board g) (console w)) in
    let g' := Game (self_state g) (cells w') (self_hu_player g) (self_ai_player g)
                (self_hu_turn g) (self_winner g) (self_button_rect g) in
    (match r with
     | Ok move => Done move
     | Raise e => Failed e
     end, Env g' (stdout w') (timer w)).

(** [ai_move].  The test [move is not None] always holds when [best_move]
    returns. *)
Definition ai_move : G unit :=
  (g <- get ;;
   match available_moves (self_board g) with
   | [] => gret tt
   | _ :: _ =>
       ai <- the_mark (self_ai_player g) ;;
       hu <- the_mark (self_hu_player g) ;;
       move <- call_best_move ai hu ;;
       board_setitem (Z.of_nat move) ai ;;
       gprint (newline +:+ "IA (" +:+ ai +:+ ") juega en posición "
                 +:+ str_of_nat (move + 1)) ;;
       winner <- call_check_winner ;;
       if truthy winner then
         set_winner winner ;;
         set_state game_over
       else
         set_hu_turn true
   end)%game.

Definition start_game : G unit :=
  (set_board (replicate 9 " ") ;;
   set_state playing ;;
   set_winner None ;;
   gprint (newline +:+ str_mul "=" 60) ;;
   g <- get ;;
   gprint ("NUEVA PARTIDA: Humano=" +:+ str_of_player (self_hu_player g)
             +:+ ", IA=" +:+ str_of_player (self_ai_player g)) ;;
   gprint (str_mul "=" 60 +:+ newline) ;;
   if negb (self_hu_turn g) then ai_move else gret tt)%game.

Definition handle_click_menu (pos : Z * Z) : G unit :=
  (let x_button := Rect 150 280 120 120 in
   let o_button := Rect 330 280 120 120 in
   if collidepoint x_button pos then
     set_hu_player (Some "X") ;;
     set_ai_player (Some "O") ;;
     set_hu_turn true ;;
     start_game
   else if collidepoint o_button pos then
     set_hu_player (Some "O") ;;
     set_ai_player (Some "X") ;;
     set_hu_turn false ;;
     start_game
   else gret tt)%game.

Definition handle_click_game (pos : Z * Z) : G unit :=
  (g <- get ;;
   if negb (self_hu_turn g) then gret tt
   else
     let col := (fst pos / CELL_SIZE)%Z in
     let row := (snd pos / CELL_SIZE)%Z in
     let idx := (row * GRID_SIZE + col)%Z in
     c <- board_getitem idx ;;
     if String.eqb c " " then
       hu <- the_mark (self_hu_player g) ;;
       board_setitem idx hu ;;
       gprint (newline +:+ "Jugador humano (" +:+ hu +:+ ") juega en posición "
                 +:+ pretty (idx + 1)%Z) ;;
       winner <- call_check_winner ;;
       if truthy winner then
         set_winner winner ;;
         set_state game_over
       else
         set_hu_turn false ;;
         set_timer 500
     else gret tt)%game.

Definition handle_click_game_over (pos : Z * Z) : G unit :=
  (g <- get ;;
   match self_button_rect g with
   | Some r => if rect_bool r && collidepoint r pos then set_state menu else gret tt
   | None => gret tt
   end)%game.

(** What [draw_game_over] does to [self]. *)
Definition draw_game_over : G unit := set_button_rect (Some (Rect 150 400 300 60)).

(** The events [run] distinguishes. *)
Inductive event : Set :=
| QUIT
| MOUSEBUTTONDOWN (pos : Z * Z)
| USEREVENT
| OTHER.

(** The body of the loop over [pygame.event.get()] in [run], for one
    event; [running] is the local variable of [run]. *)
Definition handle_event (ev : event) (running : bool) : G bool :=
  (match ev with
   | QUIT => gret false
   | MOUSEBUTTONDOWN pos =>
       g <- get ;;
       match self_state g with
       | menu => handle_click_menu pos
       | playing => handle_click_game pos
       | game_over => handle_click_game_over pos
       end ;;
       gret running
   | USEREVENT =>
       set_timer 0 ;;
       g <- get ;;
       (match self_state g, self_hu_turn g with
        | playing, false => ai_move
        | _, _ => gret tt
        end) ;;
       gret running
   | OTHER => gret running
   end)%game.

Fixpoint handle_events (events : list event) (running : bool) : G bool :=
  match events with
  | [] => gret running
  | ev :: rest => (r <- handle_event ev running ;; handle_events rest r)%game
  end.

(** The drawing part of one turn of [run], as far as [self] goes. *)
Definition draw : G unit :=
  (g <- get ;;
   match self_state g with
   | game_over => draw_game_over
   | _ => gret tt
   end)%game.

(** [run] against the events of successive turns of its loop: [true] when
    the events are used up with the loop still going, [false] when the loop
    was left, after [QUIT]. *)
Fixpoint run (frames : list (list event)) : G bool :=
  match frames with
  | [] => gret true
  | events :: rest =>
      (running <- handle_events events true ;;
       draw ;;
       if running then run rest else gret false)%game
  end.

End Methods.

(** [__init__], as far as [self] goes. *)
Definition init : game :=
  Game menu (replicate 9 " ") None None false None None.

(** [r.collidepoint(pos)] as pygame defines it: the left and top edges are
    inside, the right and bottom edges are not. *)
Definition inside (r : rect) (pos : Z * Z) : bool :=
  (left r <=? fst pos)%Z && (fst pos <? left r + width r)%Z
  && (top r <=? snd pos)%Z && (snd pos <? top r + height r)%Z.

(** [bool(r)] as pygame defines it. *)
Definition nonempty (r : rect) : bool :=
  negb (width r =? 0)%Z && negb (height r =? 0)%Z.

End TicTacToeGame.

(** ** Notions for the properties of the game *)

(** The number of cells that hold [symbol]. *)
Definition marks (symbol : string) (b : board) : nat :=
  length (List.filter (String.eqb symbol) b).

(** The symbol whose turn it is on a board, X moving first. *)
Definition to_move (b : board) : string :=
  if Nat.eqb (marks "X" b) (marks "O" b) then "X" else "O".

Definition cell_ok (c : string) : Prop := c = " " \/ c = "X" \/ c = "O".

(** The game once a mark has given the board [b']: over, with the outcome as
    winner, when [check_winner] reports one; otherwise going on, with the
    turn given. *)
Definition after_move (g : TicTacToeGame.game) (b' : board) (hu_turn : bool)
    : TicTacToeGame.game :=
  if TicTacToeGame.truthy (outcome_of b') then
    TicTacToeGame.Game TicTacToeGame.game_over b'
      (TicTacToeGame.self_hu_player g) (TicTacToeGame.self_ai_player g)
      (TicTacToeGame.self_hu_turn g) (outcome_of b') (TicTacToeGame.self_button_rect g)
  else
    TicTacToeGame.Game (TicTacToeGame.self_state g) b'
      (TicTacToeGame.self_hu_player g) (TicTacToeGame.self_ai_player g)
      hu_turn (TicTacToeGame.self_winner g) (TicTacToeGame.self_button_rect g).

(** The two players have been chosen: X and O, one each. *)
Definition players (g : TicTacToeGame.game) : Prop :=
  (TicTacToeGame.self_hu_player g = Some "X" /\ TicTacToeGame.self_ai_player g = Some "O")
  \/ (TicTacToeGame.self_hu_player g = Some "O"
      /\ TicTacToeGame.self_ai_player g = Some "X").

(** The player [self.hu_turn] designates. *)
Definition mover (g : TicTacToeGame.game) : option string :=
  if TicTacToeGame.self_hu_turn g then TicTacToeGame.self_hu_player g
  else TicTacToeGame.self_ai_player g.

(** A position of a game of tic-tac-toe: nine cells, each empty, X or O, as
    many X as O or one more. *)
Definition position (b : board) : Prop :=
  length b = 9 /\ Forall cell_ok b
  /\ marks "O" b <= marks "X" b <= marks "O" b + 1.

(** [holds_out ai hu is_maximizing b]: by the search itself the AI does not
    lose from [b]; [minimax] at depth 0 returns a score that is not
    negative. *)
Definition holds_out (ai_player hu_player : string) (is_maximizing : bool) (b : board)
    : Prop :=
  exists fuel s,
    minimax_value fuel 0 is_maximizing ai_player hu_player b = Ok s /\ (0 <= sign s)%Z.

(** What holds of the game between two events. *)
Definition consistent (w : TicTacToeGame.env) : Prop :=
  let g := TicTacToeGame.self w in
  let b := TicTacToeGame.self_board g in
  position b
  /\ match TicTacToeGame.self_state g with
     | TicTacToeGame.menu => True
     | TicTacToeGame.playing =>
         players g /\ check_winner b = Ok None /\ TicTacToeGame.self_winner g = None
         /\ mover g = Some (to_move b)
         /\ (TicTacToeGame.self_hu_turn g = false -> TicTacToeGame.timer w = 500%Z)
         /\ (forall ai hu,
               TicTacToeGame.self_ai_player g = Some ai ->
               TicTacToeGame.self_hu_player g = Some hu ->
               holds_out ai hu (negb (TicTacToeGame.self_hu_turn g)) b)
     | TicTacToeGame.game_over =>
         players g
         /\ exists x, check_winner b = Ok (Some x) /\ TicTacToeGame.self_winner g = Some x
                      /\ (x = "X" \/ x = "O" \/ x = "Tie")
                      /\ Some x <> TicTacToeGame.self_hu_player g
     end.

(** A click inside the window of 600 by 600. *)
Definition in_window (pos : Z * Z) : Prop :=
  (0 <= fst pos < TicTacToeGame.WINDOW_SIZE)%Z
  /\ (0 <= snd pos < TicTacToeGame.WINDOW_SIZE)%Z.

(** The cell a click falls on: row [y // CELL_SIZE], column [x // CELL_SIZE]. *)
Definition cell_of (pos : Z * Z) : nat :=
  Z.to_nat (snd pos / TicTacToeGame.CELL_SIZE * TicTacToeGame.GRID_SIZE
            + fst pos / TicTacToeGame.CELL_SIZE).

Definition event_in_window (ev : TicTacToeGame.event) : Prop :=
  match ev with
  | TicTacToeGame.MOUSEBUTTONDOWN pos => in_window pos
  | _ => True
  end.

(** X O X / X O O / O X . : one empty cell, no line. *)
Definition last_cell_board : board := ["X"; "O"; "X"; "X"; "O"; "O"; "O"; "X"; " "].

(** * Properties *)

(** ** Scores under [>] *)

Lemma score_gt_trans (a b c : score) :
  score_gt a b = true -> score_gt b c = true -> score_gt a c = true.
Proof.
  destruct a, b, c; simpl; try congruence.
  rewrite !Z.ltb_lt. lia.
Qed.

Lemma score_gt_le_trans (a b c : score) :
  score_gt a b = true -> score_gt c b = false -> score_gt a c = true.
Proof.
  destruct a, b, c; simpl; try congruence.
  rewrite !Z.ltb_lt, Z.ltb_ge. lia.
Qed.

(** ** The empty cells *)

Lemma moves_from_cons (i : nat) (c : string) (b : board) :
  moves_from i (c :: b) =
  (if String.eqb c " " then [i] else []) ++ moves_from (S i) b.
Proof. unfold moves_from. simpl. destruct (String.eqb c " "); reflexivity. Qed.

Lemma elem_of_moves_from (b : board) (i m : nat) :
  m ∈ moves_from i b <-> i <= m /\ b !! (m - i) = Some " ".
Proof.
  revert i. induction b as [|c b IH]; intros i.
  - unfold moves_from. simpl. rewrite elem_of_nil.
    split; [tauto | intros [_ H]; discriminate H].
  - rewrite moves_from_cons, elem_of_app, IH. split.
    + intros [H | [Hle H]].
      * destruct (String.eqb_spec c " ") as [-> | _].
        -- apply list_elem_of_singleton in H. subst m.
           rewrite Nat.sub_diag. auto.
        -- apply elem_of_nil in H. destruct H.
      * split; [lia |]. replace (m - i) with (S (m - S i)) by lia. exact H.
    + intros [Hle H]. destruct (decide (m = i)) as [-> | Hne].
      * left. rewrite Nat.sub_diag in H. simpl in H.
        injection H as ->. simpl. apply list_elem_of_singleton. reflexivity.
      * right. split; [lia |].
        replace (m - i) with (S (m - S i)) in H by lia. exact H.
Qed.

(** [available_moves] lists exactly the indices of the empty cells. *)
Lemma elem_of_available_moves (b : board) (m : nat) :
  m ∈ available_moves b <-> b !! m = Some " ".
Proof.
  change (available_moves b) with (moves_from 0 b).
  rewrite elem_of_moves_from, Nat.sub_0_r. split; [tauto | split; [lia | assumption]].
Qed.

Lemma moves_from_sorted (b : board) (i : nat) : StronglySorted lt (moves_from i b).
Proof.
  revert i. induction b as [|c b IH]; intros i.
  - constructor.
  - rewrite moves_from_cons. destruct (String.eqb c " "); simpl; [| apply IH].
    constructor; [apply IH |].
    apply Forall_forall. intros m Hm. apply elem_of_moves_from in Hm. lia.
Qed.

(** ... in strictly ascending order. *)
Lemma available_moves_sorted (b : board) : StronglySorted lt (available_moves b).
Proof. apply (moves_from_sorted b 0). Qed.

Lemma moves_from_length_shift (b : board) (i j : nat) :
  length (moves_from i b) = length (moves_from j b).
Proof.
  revert i j. induction b as [|c b IH]; intros i j; [reflexivity |].
  rewrite !moves_from_cons, !length_app, (IH (S i) (S j)).
  destruct (String.eqb c " "); reflexivity.
Qed.

Lemma blanks_cons (c : string) (b : board) :
  blanks (c :: b) = ((if String.eqb c " " then 1 else 0) + blanks b)%nat.
Proof.
  unfold blanks. change (available_moves (c :: b)) with (moves_from 0 (c :: b)).
  rewrite moves_from_cons, length_app, (moves_from_length_shift b 1 0).
  destruct (String.eqb c " "); reflexivity.
Qed.

(** A mark on an empty cell leaves one empty cell less. *)
Lemma blanks_insert (b : board) (m : nat) (symbol : string) :
  b !! m = Some " " -> symbol <> " " ->
  S (blanks (<[m:=symbol]> b)) = blanks b.
Proof.
  intros Hm Hs. revert m Hm. induction b as [|c b IH]; intros m Hm; [discriminate Hm |].
  destruct m as [|m]; simpl in *.
  - injection Hm as ->. rewrite !blanks_cons.
    apply String.eqb_neq in Hs. rewrite Hs. reflexivity.
  - rewrite !blanks_cons, <- (IH m Hm). lia.
Qed.

Lemma no_blank_false (b : board) :
  no_blank b = false -> exists m, b !! m = Some " ".
Proof.
  induction b as [|c b IH]; simpl; [discriminate |].
  destruct (String.eqb_spec c " ") as [-> | _]; simpl.
  - intros _. exists 0. reflexivity.
  - intros H. destruct (IH H) as [m Hm]. exists (S m). exact Hm.
Qed.

Lemma no_blank_true (b : board) : no_blank b = true <-> " " ∉ b.
Proof.
  induction b as [|c b IH]; simpl.
  - split; [intros _ H; apply elem_of_nil in H; exact H | reflexivity].
  - rewrite not_elem_of_cons, andb_true_iff, IH, negb_true_iff, String.eqb_neq.
    split; intros [H1 H2]; split; auto.
Qed.

(** ** The evaluator on boards long enough for every triple *)

Lemma in_range_WIN_COMBINATIONS (b : board) :
  9 <= length b -> in_range b WIN_COMBINATIONS.
Proof. intros H. unfold in_range, WIN_COMBINATIONS. repeat constructor; simpl; lia. Qed.

Lemma line_symbol_wins (b : board) (t : nat * nat * nat) (x : string) :
  line_symbol b t = Some x <-> wins b t x.
Proof.
  destruct t as [[i j] k]. unfold line_symbol, wins. simpl. split.
  - destruct (b !! i) as [xi|], (b !! j) as [xj|], (b !! k) as [xk|]; try discriminate.
    destruct (String.eqb_spec xi xj) as [-> |]; [| discriminate].
    destruct (String.eqb_spec xj xk) as [-> |]; [| discriminate].
    destruct (String.eqb_spec xk " "); [discriminate |]. simpl.
    intros [= ->]. auto.
  - intros (-> & -> & -> & Hx). rewrite String.eqb_refl. simpl.
    apply String.eqb_neq in Hx. rewrite Hx. reflexivity.
Qed.

Lemma line_symbol_None (b : board) (t : nat * nat * nat) :
  line_symbol b t = None <-> forall x, ~ wins b t x.
Proof.
  split.
  - intros H x Hw. apply line_symbol_wins in Hw. congruence.
  - intros H. destruct (line_symbol b t) as [x|] eqn:E; [| reflexivity].
    apply line_symbol_wins in E. destruct (H x E).
Qed.

(** On a board that has every index of [combos], the loop raises nothing and
    finds the first completed line. *)
Lemma winning_line_in_range (b : board) combos :
  in_range b combos -> winning_line b combos = Ok (first_line b combos).
Proof.
  induction 1 as [| [[i j] k] rest (Hi & Hj & Hk) _ IH]; [reflexivity |].
  simpl in Hi, Hj, Hk.
  apply lookup_lt_is_Some_2 in Hi as [x Hx], Hj as [y Hy], Hk as [z Hz].
  simpl. unfold getitem. rewrite Hx, Hy, Hz. simpl.
  destruct (String.eqb x y); simpl; [| exact IH].
  destruct (String.eqb y z && negb (String.eqb x " ")); [reflexivity | exact IH].
Qed.

Lemma check_winner_in_range (b : board) :
  9 <= length b -> check_winner b = Ok (outcome_of b).
Proof.
  intros H. unfold check_winner, outcome_of.
  rewrite (winning_line_in_range b _ (in_range_WIN_COMBINATIONS b H)). unfold rbind.
  destruct (first_line b WIN_COMBINATIONS); [reflexivity |].
  destruct (no_blank b); reflexivity.
Qed.

Lemma first_line_Some (b : board) combos (x : string) :
  first_line b combos = Some x <->
  exists l1 t l2, combos = l1 ++ t :: l2 /\ wins b t x
                  /\ Forall (fun t' => forall y, ~ wins b t' y) l1.
Proof.
  induction combos as [| t rest IH]; simpl.
  - split; [discriminate |]. intros (l1 & t & l2 & H & _). destruct l1; discriminate H.
  - destruct (line_symbol b t) as [y|] eqn:E.
    + split.
      * intros [= ->]. exists [], t, rest. split; [reflexivity |].
        split; [apply line_symbol_wins; exact E | constructor].
      * intros (l1 & t' & l2 & Hc & Hw & Hl1). destruct l1 as [| t1 l1]; simpl in Hc.
        -- injection Hc as -> ->. apply line_symbol_wins in Hw. congruence.
        -- injection Hc as -> ->. apply Forall_cons in Hl1 as [Hn _].
           apply line_symbol_wins in E. destruct (Hn y E).
    + rewrite IH. split.
      * intros (l1 & t' & l2 & -> & Hw & Hl1). exists (t :: l1), t', l2.
        split; [reflexivity |]. split; [exact Hw |].
        constructor; [apply line_symbol_None; exact E | exact Hl1].
      * intros (l1 & t' & l2 & Hc & Hw & Hl1). destruct l1 as [| t1 l1]; simpl in Hc.
        -- injection Hc as -> ->. apply line_symbol_wins in Hw. congruence.
        -- injection Hc as -> ->. apply Forall_cons in Hl1 as [_ Hl1].
           exists l1, t', l2. auto.
Qed.

Lemma first_line_None (b : board) combos :
  first_line b combos = None <-> Forall (fun t => forall y, ~ wins b t y) combos.
Proof.
  induction combos as [| t rest IH]; simpl.
  - split; [constructor | reflexivity].
  - rewrite Forall_cons, <- IH, <- line_symbol_None.
    destruct (line_symbol b t); intuition congruence.
Qed.

(** *** A mark on an empty cell *)

Section Mark.

Variables (b : board) (m : nat) (symbol : string).
Hypothesis blank_m : b !! m = Some " ".

Lemma lookup_mark (i : nat) (x : string) :
  <[m:=symbol]> b !! i = Some x -> (i = m /\ x = symbol) \/ (i <> m /\ b !! i = Some x).
Proof.
  destruct (decide (i = m)) as [-> | Hne].
  - rewrite list_lookup_insert_eq by (eapply lookup_lt_Some; exact blank_m).
    intros [= <-]. auto.
  - rewrite list_lookup_insert_ne by congruence. auto.
Qed.

(** A completed line does not contain the empty cell, so it stays. *)
Lemma wins_mark_keep (t : nat * nat * nat) (x : string) :
  wins b t x -> wins (<[m:=symbol]> b) t x.
Proof.
  intros (H1 & H2 & H3 & Hx). repeat split; try exact Hx;
    (rewrite list_lookup_insert_ne; [assumption | intros ->; congruence]).
Qed.

(** A line completed by the mark is a line of the mark. *)
Lemma wins_mark_new (t : nat * nat * nat) (x : string) :
  wins (<[m:=symbol]> b) t x -> x = symbol \/ wins b t x.
Proof.
  intros (H1 & H2 & H3 & Hx).
  apply lookup_mark in H1 as [[_ ->] | [_ H1]]; [auto |].
  apply lookup_mark in H2 as [[_ ->] | [_ H2]]; [auto |].
  apply lookup_mark in H3 as [[_ ->] | [_ H3]]; [auto |].
  right. repeat split; assumption.
Qed.

Lemma first_line_mark combos (y : string) :
  first_line (<[m:=symbol]> b) combos = Some y ->
  y = symbol \/ first_line b combos = Some y.
Proof.
  induction combos as [| t rest IH]; simpl; [discriminate |].
  destruct (line_symbol (<[m:=symbol]> b) t) as [x|] eqn:E.
  - intros [= ->]. apply line_symbol_wins, wins_mark_new in E as [-> | E]; [auto |].
    apply line_symbol_wins in E. rewrite E. auto.
  - intros H. destruct (line_symbol b t) as [x|] eqn:E'.
    + apply line_symbol_wins, wins_mark_keep, line_symbol_wins in E'. congruence.
    + auto.
Qed.

Lemma first_line_mark_Some combos (x : string) :
  first_line b combos = Some x ->
  first_line (<[m:=symbol]> b) combos = Some x \/
  first_line (<[m:=symbol]> b) combos = Some symbol.
Proof.
  induction combos as [| t rest IH]; simpl; [discriminate |].
  destruct (line_symbol b t) as [x'|] eqn:E.
  - intros [= ->]. apply line_symbol_wins, wins_mark_keep, line_symbol_wins in E.
    rewrite E. auto.
  - intros H. destruct (line_symbol (<[m:=symbol]> b) t) as [y|] eqn:E'; [| auto].
    apply line_symbol_wins, wins_mark_new in E' as [-> | E']; [auto |].
    apply line_symbol_wins in E'. congruence.
Qed.

Lemma undo_mark : <[m:=" "]> (<[m:=symbol]> b) = b.
Proof. rewrite list_insert_insert_eq. apply list_insert_id. exact blank_m. Qed.

End Mark.

(** ** The search in its world against the search on a value *)

Lemma bind_Ok {A B : Type} (m : M A) (k : A -> M B) (w w' : world) (a : A) :
  m w = (Ok a, w') -> bind m k w = k a w'.
Proof. unfold bind. intros ->. reflexivity. Qed.

Lemma bind_Raise {A B : Type} (m : M A) (k : A -> M B) (w w' : world) (e : exn) :
  m w = (Raise e, w') -> bind m k w = (Raise e, w').
Proof. unfold bind. intros ->. reflexivity. Qed.

Lemma setitem_run (b : board) (out : list string) (i : nat) (v : string) :
  i < length b -> setitem i v (World b out) = (Ok tt, World (<[i:=v]> b) out).
Proof.
  intros H. unfold setitem. simpl. apply Nat.ltb_lt in H. rewrite H. reflexivity.
Qed.

Lemma print_run (s : string) (b : board) (out : list string) :
  print s (World b out) = (Ok tt, World b (out ++ [s])).
Proof. reflexivity. Qed.

Lemma print_if_run (flag : bool) (s : string) (b : board) (out : list string) :
  exists out', print_if flag s (World b out) = (Ok tt, World b out').
Proof. destruct flag; eexists; reflexivity. Qed.

Lemma print_board_state_run (P : bool) (depth : Z) (prefix : string)
    (b : board) (out : list string) :
  exists out', print_board_state P depth prefix (World b out) = (Ok tt, World b out').
Proof.
  unfold print_board_state. destruct P; cbn [negb]; eexists.
  - rewrite (bind_Ok get_board _ (World b out) (World b out) b eq_refl).
    rewrite (bind_Ok _ _ _ _ _ (print_run _ _ _)). cbn [seq].
    do 3 rewrite (bind_Ok _ _ _ _ _ (print_run _ _ _)).
    reflexivity.
  - reflexivity.
Qed.

(** Steps of a run: a [print_if] or a [print] in front of the rest. *)
Ltac skip_print :=
  match goal with
  | |- context [bind (print_if ?f ?s) ?k (World ?b ?o)] =>
      let o' := fresh "out" in
      let E := fresh "E" in
      destruct (print_if_run f s b o) as [o' E];
      rewrite (bind_Ok _ k _ _ _ E); clear E
  | |- context [bind (print ?s) ?k (World ?b ?o)] =>
      rewrite (bind_Ok _ k _ _ _ (print_run s b o))
  end.

Section Loops_run.

Variable rec : M score.
Variable value : board -> result score.
Hypothesis rec_computes : computes rec value.
Variables (symbol : string) (print_tree : bool) (indent : string).

(** One trial: mark, recurse, erase. *)
Lemma trial_run {B : Type} (move : nat) (b : board) (out : list string)
    (k : score -> M B) :
  b !! move = Some " " ->
  match value (<[move:=symbol]> b) with
  | Ok s => exists out', bind rec k (World (<[move:=symbol]> b) out)
                         = k s (World (<[move:=symbol]> b) out')
  | Raise e => exists w', bind rec k (World (<[move:=symbol]> b) out) = (Raise e, w')
  end.
Proof.
  intros Hb. destruct (rec_computes (World (<[move:=symbol]> b) out)) as (w' & E & R).
  simpl in E, R. destruct (value (<[move:=symbol]> b)) as [s | e].
  - destruct w' as [b' out']. specialize (R s eq_refl). simpl in R. subst b'.
    exists out'. apply bind_Ok. exact E.
  - exists w'. apply bind_Raise. exact E.
Qed.

Lemma max_loop_run (moves : list nat) (best : score) (b : board) (out : list string) :
  (forall m, m ∈ moves -> b !! m = Some " ") ->
  exists w', max_loop rec symbol print_tree indent moves best (World b out)
             = (max_value value symbol b moves best, w')
             /\ (forall s, max_value value symbol b moves best = Ok s -> cells w' = b).
Proof.
  revert best out. induction moves as [| move rest IH]; intros best out Hm.
  - exists (World b out). split; reflexivity.
  - assert (Hb : b !! move = Some " ") by (apply Hm; left).
    assert (Hlt : move < length b) by (eapply lookup_lt_Some; exact Hb).
    cbn [max_loop max_value].
    rewrite (bind_Ok _ _ _ _ _ (setitem_run b out move symbol Hlt)).
    skip_print.
    match goal with |- context [bind rec ?k (World _ ?o)] =>
      pose proof (trial_run move b o k Hb) as T end.
    destruct (value (<[move:=symbol]> b)) as [s | e].
    + destruct T as [out1 ->]. cbn [rbind].
      rewrite (bind_Ok _ _ _ _ _ (setitem_run _ out1 move " "
                 ltac:(rewrite length_insert; exact Hlt))).
      rewrite (undo_mark b move symbol Hb).
      skip_print. apply IH. intros m Hin. apply Hm. right. exact Hin.
    + destruct T as [w' ->]. exists w'. split; [reflexivity | discriminate].
Qed.

Lemma min_loop_run (moves : list nat) (best : score) (b : board) (out : list string) :
  (forall m, m ∈ moves -> b !! m = Some " ") ->
  exists w', min_loop rec symbol print_tree indent moves best (World b out)
             = (min_value value symbol b moves best, w')
             /\ (forall s, min_value value symbol b moves best = Ok s -> cells w' = b).
Proof.
  revert best out. induction moves as [| move rest IH]; intros best out Hm.
  - exists (World b out). split; reflexivity.
  - assert (Hb : b !! move = Some " ") by (apply Hm; left).
    assert (Hlt : move < length b) by (eapply lookup_lt_Some; exact Hb).
    cbn [min_loop min_value].
    rewrite (bind_Ok _ _ _ _ _ (setitem_run b out move symbol Hlt)).
    skip_print.
    match goal with |- context [bind rec ?k (World _ ?o)] =>
      pose proof (trial_run move b o k Hb) as T end.
    destruct (value (<[move:=symbol]> b)) as [s | e].
    + destruct T as [out1 ->]. cbn [rbind].
      rewrite (bind_Ok _ _ _ _ _ (setitem_run _ out1 move " "
                 ltac:(rewrite length_insert; exact Hlt))).
      rewrite (undo_mark b move symbol Hb).
      skip_print. apply IH. intros m Hin. apply Hm. right. exact Hin.
    + destruct T as [w' ->]. exists w'. split; [reflexivity | discriminate].
Qed.

Lemma choice_loop_run (moves : list nat) (best : score) (choice : option nat)
    (b : board) (out : list string) :
  (forall m, m ∈ moves -> b !! m = Some " ") ->
  exists w', choice_loop rec symbol moves best choice (World b out)
             = (choice_value value symbol b moves best choice, w')
             /\ (forall r, choice_value value symbol b moves best choice = Ok r
                           -> cells w' = b).
Proof.
  revert best choice out. induction moves as [| move rest IH]; intros best choice out Hm.
  - exists (World b out). split; reflexivity.
  - assert (Hb : b !! move = Some " ") by (apply Hm; left).
    assert (Hlt : move < length b) by (eapply lookup_lt_Some; exact Hb).
    cbn [choice_loop choice_value].
    rewrite (bind_Ok _ _ _ _ _ (setitem_run b out move symbol Hlt)).
    skip_print.
    match goal with |- context [bind rec ?k (World _ ?o)] =>
      pose proof (trial_run move b o k Hb) as T end.
    destruct (value (<[move:=symbol]> b)) as [s | e].
    + destruct T as [out1 ->]. cbn [rbind].
      rewrite (bind_Ok _ _ _ _ _ (setitem_run _ out1 move " "
                 ltac:(rewrite length_insert; exact Hlt))).
      rewrite (undo_mark b move symbol Hb).
      skip_print.
      destruct (score_gt s best); apply IH; intros m Hin; apply Hm; right; exact Hin.
    + destruct T as [w' ->]. exists w'. split; [reflexivity | discriminate].
Qed.

End Loops_run.

Lemma available_blank (b : board) (m : nat) : m ∈ available_moves b -> b !! m = Some " ".
Proof. apply elem_of_available_moves. Qed.

(** [minimax] computes [minimax_value] and undoes every move it tries. *)
Lemma minimax_run (fuel : nat) (depth : Z) (is_maximizing : bool)
    (ai_player hu_player : string) (print_tree : bool) :
  computes (minimax fuel depth is_maximizing ai_player hu_player print_tree)
           (minimax_value fuel depth is_maximizing ai_player hu_player).
Proof.
  revert depth is_maximizing.
  induction fuel as [| fuel IH]; intros depth is_maximizing [b out].
  - exists (World b out). split; [reflexivity | discriminate].
  - cbn [minimax minimax_value cells].
    destruct (check_winner b) as [winner | e] eqn:Ew.
    2:{ exists (World b out). split; [| discriminate].
        apply bind_Raise. unfold lift. cbn [cells]. rewrite Ew. reflexivity. }
    rewrite (bind_Ok (lift check_winner) _ (World b out) (World b out) winner)
      by (unfold lift; cbn [cells]; rewrite Ew; reflexivity).
    cbn [rbind].
    destruct (winner_is winner ai_player).
    { skip_print. eexists. split; reflexivity. }
    destruct (winner_is winner hu_player).
    { skip_print. eexists. split; reflexivity. }
    destruct (winner_is winner "Tie").
    { skip_print. eexists. split; reflexivity. }
    rewrite (bind_Ok get_board _ (World b out) (World b out) b eq_refl).
    destruct is_maximizing.
    + skip_print.
      destruct (max_loop_run _ _ (IH (depth + 1)%Z false) ai_player print_tree
                  (str_mul "  " depth) (available_moves b) NegInf b out0
                  (available_blank b)) as ([b' out'] & E & R).
      destruct (max_value _ ai_player b (available_moves b) NegInf) as [s | e].
      * specialize (R s eq_refl). cbn [cells] in R. subst b'.
        rewrite (bind_Ok _ _ _ _ _ E). skip_print.
        eexists. split; reflexivity.
      * rewrite (bind_Raise _ _ _ _ _ E). eexists. split; [reflexivity | discriminate].
    + skip_print.
      destruct (min_loop_run _ _ (IH (depth + 1)%Z true) hu_player print_tree
                  (str_mul "  " depth) (available_moves b) PosInf b out0
                  (available_blank b)) as ([b' out'] & E & R).
      destruct (min_value _ hu_player b (available_moves b) PosInf) as [s | e].
      * specialize (R s eq_refl). cbn [cells] in R. subst b'.
        rewrite (bind_Ok _ _ _ _ _ E). skip_print.
        eexists. split; reflexivity.
      * rewrite (bind_Raise _ _ _ _ _ E). eexists. split; [reflexivity | discriminate].
Qed.

(** [best_move] computes [best_move_value] and undoes every move it tries. *)
Lemma best_move_run (P : bool) (fuel : nat) (ai_player hu_player : string) :
  computes (best_move P fuel ai_player hu_player)
           (best_move_value fuel ai_player hu_player).
Proof.
  intros [b out]. unfold best_move, best_move_value, best_choice. cbn [cells].
  do 3 skip_print.
  rewrite (bind_Ok get_board _ (World b _) (World b _) b eq_refl).
  skip_print.
  match goal with |- context [bind (print_board_state P ?d ?s) ?k (World b ?o)] =>
    destruct (print_board_state_run P d s b o) as [out1 E1];
    rewrite (bind_Ok _ k _ _ _ E1); clear E1 end.
  skip_print.
  match goal with |- context [bind (choice_loop ?r ?a ?ms ?bs ?c) ?k (World b ?o)] =>
    destruct (choice_loop_run _ _ (minimax_run fuel 0 false ai_player hu_player true)
                ai_player ms bs c b o (available_blank b)) as ([b' out'] & E & R) end.
  destruct (choice_value _ ai_player b (available_moves b) NegInf None) as [[s c] | e].
  - specialize (R _ eq_refl). cbn [cells] in R. subst b'.
    rewrite (bind_Ok _ _ _ _ _ E). cbn [rbind snd fst]. skip_print.
    destruct c as [move_choice |].
    + do 2 skip_print. eexists. split; reflexivity.
    + eexists. split; [reflexivity | discriminate].
  - rewrite (bind_Raise _ _ _ _ _ E). eexists. split; [reflexivity | discriminate].
Qed.

(** ** More fuel changes no result *)

Section Loops_mono.

Variables rec1 rec2 : board -> result score.
Hypothesis rec_mono : forall b s, rec1 b = Ok s -> rec2 b = Ok s.
Variables (symbol : string) (b : board).

Lemma max_value_mono (moves : list nat) (best s : score) :
  max_value rec1 symbol b moves best = Ok s -> max_value rec2 symbol b moves best = Ok s.
Proof.
  revert best. induction moves as [| move rest IH]; intros best; cbn [max_value]; [auto |].
  destruct (rec1 (<[move:=symbol]> b)) as [s1 | e] eqn:E; [| discriminate].
  rewrite (rec_mono _ _ E). cbn [rbind]. apply IH.
Qed.

Lemma min_value_mono (moves : list nat) (best s : score) :
  min_value rec1 symbol b moves best = Ok s -> min_value rec2 symbol b moves best = Ok s.
Proof.
  revert best. induction moves as [| move rest IH]; intros best; cbn [min_value]; [auto |].
  destruct (rec1 (<[move:=symbol]> b)) as [s1 | e] eqn:E; [| discriminate].
  rewrite (rec_mono _ _ E). cbn [rbind]. apply IH.
Qed.

Lemma choice_value_mono (moves : list nat) (best : score) (choice : option nat)
    (r : score * option nat) :
  choice_value rec1 symbol b moves best choice = Ok r ->
  choice_value rec2 symbol b moves best choice = Ok r.
Proof.
  revert best choice. induction moves as [| move rest IH]; intros best choice;
    cbn [choice_value]; [auto |].
  destruct (rec1 (<[move:=symbol]> b)) as [s1 | e] eqn:E; [| discriminate].
  rewrite (rec_mono _ _ E). cbn [rbind]. destruct (score_gt s1 best); apply IH.
Qed.

End Loops_mono.

Lemma minimax_value_S (fuel : nat) (depth : Z) (is_maximizing : bool)
    (ai_player hu_player : string) (b : board) (s : score) :
  minimax_value fuel depth is_maximizing ai_player hu_player b = Ok s ->
  minimax_value (S fuel) depth is_maximizing ai_player hu_player b = Ok s.
Proof.
  revert depth is_maximizing b s.
  induction fuel as [| fuel IH]; intros depth is_maximizing b s; [discriminate |].
  remember (S fuel) as n eqn:En. cbn [minimax_value]. subst n.
  cbn [minimax_value].
  destruct (check_winner b) as [winner | e]; [| auto]. cbn [rbind].
  destruct (winner_is winner ai_player); [auto |].
  destruct (winner_is winner hu_player); [auto |].
  destruct (winner_is winner "Tie"); [auto |].
  destruct is_maximizing.
  - apply max_value_mono. intros b' s'. apply IH.
  - apply min_value_mono. intros b' s'. apply IH.
Qed.

Lemma minimax_value_le (fuel fuel' : nat) (depth : Z) (is_maximizing : bool)
    (ai_player hu_player : string) (b : board) (s : score) :
  fuel <= fuel' ->
  minimax_value fuel depth is_maximizing ai_player hu_player b = Ok s ->
  minimax_value fuel' depth is_maximizing ai_player hu_player b = Ok s.
Proof.
  induction 1 as [| fuel' _ IH]; [auto |]. intros H. apply minimax_value_S, IH, H.
Qed.

Lemma best_choice_le (fuel fuel' : nat) (ai_player hu_player : string) (b : board)
    (r : score * option nat) :
  fuel <= fuel' ->
  best_choice fuel ai_player hu_player b = Ok r ->
  best_choice fuel' ai_player hu_player b = Ok r.
Proof.
  intros Hle. unfold best_choice. apply choice_value_mono.
  intros b' s'. apply minimax_value_le. exact Hle.
Qed.

(** ** Enough fuel: the search ends with a score *)

Section Loops_total.

Variable rec : board -> result score.
Variables (symbol : string) (b : board).

Lemma max_value_total (moves : list nat) (best : score) :
  (forall m, m ∈ moves -> exists s, rec (<[m:=symbol]> b) = Ok s) ->
  exists s, max_value rec symbol b moves best = Ok s.
Proof.
  revert best. induction moves as [| move rest IH]; intros best H; cbn [max_value].
  - eauto.
  - destruct (H move) as [s ->]; [left |]. cbn [rbind].
    apply IH. intros m Hm. apply H. right. exact Hm.
Qed.

Lemma min_value_total (moves : list nat) (best : score) :
  (forall m, m ∈ moves -> exists s, rec (<[m:=symbol]> b) = Ok s) ->
  exists s, min_value rec symbol b moves best = Ok s.
Proof.
  revert best. induction moves as [| move rest IH]; intros best H; cbn [min_value].
  - eauto.
  - destruct (H move) as [s ->]; [left |]. cbn [rbind].
    apply IH. intros m Hm. apply H. right. exact Hm.
Qed.

Lemma choice_value_total (moves : list nat) (best : score) (choice : option nat) :
  (forall m, m ∈ moves -> exists s, rec (<[m:=symbol]> b) = Ok s) ->
  exists r, choice_value rec symbol b moves best choice = Ok r.
Proof.
  revert best choice. induction moves as [| move rest IH]; intros best choice H;
    cbn [choice_value].
  - eauto.
  - destruct (H move) as [s ->]; [left |]. cbn [rbind].
    destruct (score_gt s best); apply IH; intros m Hm; apply H; right; exact Hm.
Qed.

(** A maximum or a minimum of finite scores is finite. *)
Lemma max_value_finite (moves : list nat) (best s : score) :
  max_value rec symbol b moves best = Ok s ->
  (forall m s', m ∈ moves -> rec (<[m:=symbol]> b) = Ok s' -> finite s') ->
  best = NegInf \/ finite best ->
  moves <> [] \/ finite best ->
  finite s.
Proof.
  revert best. induction moves as [| move rest IH]; intros best; cbn [max_value].
  - intros [= ->] _ _ [H | H]; [congruence | exact H].
  - destruct (rec (<[move:=symbol]> b)) as [s1 | e] eqn:E; [| discriminate].
    cbn [rbind]. intros H Hf Hb _.
    assert (F1 : finite s1) by (apply (Hf move); [left | exact E]).
    assert (F : finite (if score_gt s1 best then s1 else best)).
    { destruct Hb as [-> | Hb]; [destruct s1; simpl in *; tauto |].
      destruct (score_gt s1 best); assumption. }
    apply (IH _ H); auto. intros m s' Hm. apply Hf. right. exact Hm.
Qed.

Lemma min_value_finite (moves : list nat) (best s : score) :
  min_value rec symbol b moves best = Ok s ->
  (forall m s', m ∈ moves -> rec (<[m:=symbol]> b) = Ok s' -> finite s') ->
  best = PosInf \/ finite best ->
  moves <> [] \/ finite best ->
  finite s.
Proof.
  revert best. induction moves as [| move rest IH]; intros best; cbn [min_value].
  - intros [= ->] _ _ [H | H]; [congruence | exact H].
  - destruct (rec (<[move:=symbol]> b)) as [s1 | e] eqn:E; [| discriminate].
    cbn [rbind]. intros H Hf Hb _.
    assert (F1 : finite s1) by (apply (Hf move); [left | exact E]).
    assert (F : finite (if score_lt s1 best then s1 else best)).
    { destruct Hb as [-> | Hb]; [destruct s1; simpl in *; tauto |].
      destruct (score_lt s1 best); assumption. }
    apply (IH _ H); auto. intros m s' Hm. apply Hf. right. exact Hm.
Qed.

End Loops_total.

Section Players.

Variables ai_player hu_player : string.
Hypothesis ai_mark : ai_player <> " ".
Hypothesis hu_mark : hu_player <> " ".

(** With marks that are not the empty cell every level fills one cell, so a
    call stack deeper than the number of empty cells is never needed. *)
Lemma minimax_value_total (fuel : nat) (depth : Z) (is_maximizing : bool) (b : board) :
  9 <= length b -> blanks b < fuel ->
  exists s, minimax_value fuel depth is_maximizing ai_player hu_player b = Ok s.
Proof.
  revert depth is_maximizing b.
  induction fuel as [| fuel IH]; intros depth is_maximizing b Hlen Hfuel; [lia |].
  cbn [minimax_value]. rewrite (check_winner_in_range b Hlen). cbn [rbind].
  destruct (winner_is (outcome_of b) ai_player); [eauto |].
  destruct (winner_is (outcome_of b) hu_player); [eauto |].
  destruct (winner_is (outcome_of b) "Tie"); [eauto |].
  destruct is_maximizing.
  - apply max_value_total. intros m Hm. apply available_blank in Hm.
    apply IH; [rewrite length_insert; exact Hlen |].
    pose proof (blanks_insert b m ai_player Hm ai_mark). lia.
  - apply min_value_total. intros m Hm. apply available_blank in Hm.
    apply IH; [rewrite length_insert; exact Hlen |].
    pose proof (blanks_insert b m hu_player Hm hu_mark). lia.
Qed.

Lemma known_lines_mark (b : board) (m : nat) (symbol : string) :
  b !! m = Some " " -> first_line b WIN_COMBINATIONS = None ->
  symbol = ai_player \/ symbol = hu_player ->
  known_lines ai_player hu_player (<[m:=symbol]> b).
Proof.
  intros Hm Hnone Hs. unfold known_lines.
  destruct (first_line (<[m:=symbol]> b) WIN_COMBINATIONS) as [y |] eqn:E; [| auto].
  apply (first_line_mark b m symbol Hm) in E as [-> | E]; [| congruence].
  destruct Hs as [-> | ->]; auto.
Qed.

Lemma winner_is_refl (x : string) : winner_is (Some x) x = true.
Proof. apply String.eqb_refl. Qed.

(** On such a board every score is an integer. *)
Lemma minimax_value_finite (fuel : nat) (depth : Z) (is_maximizing : bool)
    (b : board) (s : score) :
  9 <= length b -> known_lines ai_player hu_player b ->
  minimax_value fuel depth is_maximizing ai_player hu_player b = Ok s ->
  finite s.
Proof.
  revert depth is_maximizing b s.
  induction fuel as [| fuel IH]; intros depth is_maximizing b s Hlen Hk; [discriminate |].
  cbn [minimax_value]. rewrite (check_winner_in_range b Hlen). cbn [rbind].
  destruct (winner_is (outcome_of b) ai_player) eqn:Eai; [intros [= <-]; exact I |].
  destruct (winner_is (outcome_of b) hu_player) eqn:Ehu; [intros [= <-]; exact I |].
  destruct (winner_is (outcome_of b) "Tie") eqn:Etie; [intros [= <-]; exact I |].
  assert (Hnone : first_line b WIN_COMBINATIONS = None /\ no_blank b = false).
  { unfold outcome_of in *.
    destruct Hk as [Hk | [Hk | Hk]]; rewrite Hk in *.
    - destruct (no_blank b); [discriminate Etie | auto].
    - rewrite winner_is_refl in Eai. discriminate.
    - rewrite winner_is_refl in Ehu. discriminate. }
  destruct Hnone as [Hnone Hblank].
  assert (Hmoves : available_moves b <> []).
  { destruct (no_blank_false b Hblank) as [m Hm].
    apply elem_of_available_moves in Hm. intros E. rewrite E in Hm.
    apply elem_of_nil in Hm. exact Hm. }
  destruct is_maximizing; intros H.
  - apply (max_value_finite _ _ _ _ _ _ H); auto.
    intros m s' Hm. apply available_blank in Hm.
    apply IH; [rewrite length_insert; exact Hlen |].
    apply known_lines_mark; auto.
  - apply (min_value_finite _ _ _ _ _ _ H); auto.
    intros m s' Hm. apply available_blank in Hm.
    apply IH; [rewrite length_insert; exact Hlen |].
    apply known_lines_mark; auto.
Qed.

End Players.

(** ** The choice of [best_move]: the first move with the greatest score *)

Section Choice.

Variable rec : board -> result score.
Variables (symbol : string) (b : board).

Lemma choice_value_first (moves : list nat) (best s : score) (choice c : option nat) :
  choice_value rec symbol b moves best choice = Ok (s, c) ->
  (c = choice /\ s = best
   /\ forall m s', m ∈ moves -> rec (<[m:=symbol]> b) = Ok s' -> score_gt s' best = false)
  \/ (exists l1 m l2,
        moves = l1 ++ m :: l2 /\ c = Some m
        /\ rec (<[m:=symbol]> b) = Ok s /\ score_gt s best = true
        /\ (forall m' s', m' ∈ l1 -> rec (<[m':=symbol]> b) = Ok s'
                          -> score_gt s s' = true)
        /\ (forall m' s', m' ∈ l2 -> rec (<[m':=symbol]> b) = Ok s'
                          -> score_gt s' s = false)).
Proof.
  revert best choice. induction moves as [| move rest IH]; intros best choice;
    cbn [choice_value].
  - intros [= <- <-]. left. repeat split.
    intros m s' Hm. apply elem_of_nil in Hm. destruct Hm.
  - destruct (rec (<[move:=symbol]> b)) as [s0 | e] eqn:E0; [| discriminate].
    cbn [rbind]. destruct (score_gt s0 best) eqn:Egt; intros H; apply IH in H.
    + right. destruct H as [(-> & -> & Hrest) | (l1 & m & l2 & -> & -> & Em & Hgt & H1 & H2)].
      * exists [], move, rest. repeat split; auto.
        intros m' s' Hm'. apply elem_of_nil in Hm'. destruct Hm'.
      * exists (move :: l1), m, l2. repeat split; auto.
        -- eapply score_gt_trans; eassumption.
        -- intros m' s' Hm' E'. apply elem_of_cons in Hm' as [-> | Hm']; [| eauto].
           rewrite E0 in E'. injection E' as <-. exact Hgt.
    + destruct H as [(-> & -> & Hrest) | (l1 & m & l2 & -> & -> & Em & Hgt & H1 & H2)].
      * left. repeat split. intros m s' Hm E'.
        apply elem_of_cons in Hm as [-> | Hm]; [| eauto].
        rewrite E0 in E'. injection E' as <-. exact Egt.
      * right. exists (move :: l1), m, l2. repeat split; auto.
        intros m' s' Hm' E'. apply elem_of_cons in Hm' as [-> | Hm']; [| eauto].
        rewrite E0 in E'. injection E' as <-.
        eapply score_gt_le_trans; eassumption.
Qed.

End Choice.

(** ** From values back to runs *)

Lemma fst_minimax (fuel : nat) (depth : Z) (is_maximizing : bool)
    (ai_player hu_player : string) (print_tree : bool) (w : world) :
  fst (minimax fuel depth is_maximizing ai_player hu_player print_tree w)
  = minimax_value fuel depth is_maximizing ai_player hu_player (cells w).
Proof.
  destruct (minimax_run fuel depth is_maximizing ai_player hu_player print_tree w)
    as (w' & -> & _). reflexivity.
Qed.

Lemma candidate_score_value (fuel : nat) (ai_player hu_player : string) (b : board)
    (move : nat) :
  candidate_score fuel ai_player hu_player b move
  = minimax_value fuel 0 false ai_player hu_player (<[move:=ai_player]> b).
Proof. unfold candidate_score, run. apply fst_minimax. Qed.

Lemma fst_best_move (P : bool) (fuel : nat) (ai_player hu_player : string) (w : world) :
  fst (best_move P fuel ai_player hu_player w)
  = best_move_value fuel ai_player hu_player (cells w).
Proof.
  destruct (best_move_run P fuel ai_player hu_player w) as (w' & -> & _). reflexivity.
Qed.

Lemma minimax_of_value (fuel : nat) (depth : Z) (is_maximizing : bool)
    (ai_player hu_player : string) (print_tree : bool) (b : board) (out : list string)
    (s : score) :
  minimax_value fuel depth is_maximizing ai_player hu_player b = Ok s ->
  exists out', minimax fuel depth is_maximizing ai_player hu_player print_tree (World b out)
               = (Ok s, World b out').
Proof.
  intros H.
  destruct (minimax_run fuel depth is_maximizing ai_player hu_player print_tree
              (World b out)) as ([b' out'] & E & R).
  cbn [cells] in E, R. specialize (R s H). subst b'. rewrite H in E. eauto.
Qed.

Lemma best_move_of_value (P : bool) (fuel : nat) (ai_player hu_player : string)
    (b : board) (out : list string) (r : result nat) :
  best_move_value fuel ai_player hu_player b = r ->
  (forall e, r = Raise e -> exists w', best_move P fuel ai_player hu_player (World b out)
                                       = (Raise e, w'))
  /\ (forall m, r = Ok m -> exists out', best_move P fuel ai_player hu_player (World b out)
                                         = (Ok m, World b out')).
Proof.
  intros H.
  destruct (best_move_run P fuel ai_player hu_player (World b out)) as ([b' out'] & E & R).
  cbn [cells] in E, R. rewrite H in E, R. split.
  - intros e ->. eauto.
  - intros m ->. specialize (R m eq_refl). subst b'. eauto.
Qed.

Lemma best_move_value_choice (fuel : nat) (ai_player hu_player : string) (b : board)
    (s : score) (m : nat) :
  best_choice fuel ai_player hu_player b = Ok (s, Some m) ->
  best_move_value fuel ai_player hu_player b = Ok m.
Proof. unfold best_move_value. intros ->. reflexivity. Qed.

(** When every candidate has an integer score, the loop of [best_move]
    records the first candidate with the greatest score. *)
Lemma best_choice_first (fuel : nat) (ai_player hu_player : string) (b : board) :
  available_moves b <> [] ->
  (forall m, b !! m = Some " " ->
             exists z, candidate_score fuel ai_player hu_player b m = Ok (Fin z)) ->
  exists m z,
    best_choice fuel ai_player hu_player b = Ok (Fin z, Some m)
    /\ b !! m = Some " "
    /\ candidate_score fuel ai_player hu_player b m = Ok (Fin z)
    /\ forall m' z', b !! m' = Some " " ->
         candidate_score fuel ai_player hu_player b m' = Ok (Fin z') ->
         (z' <= z)%Z /\ (m' < m -> (z' < z)%Z).
Proof.
  intros Hne Hfin.
  assert (Hfin' : forall m, m ∈ available_moves b ->
            exists s, minimax_value fuel 0 false ai_player hu_player (<[m:=ai_player]> b)
                      = Ok s).
  { intros m Hm. apply available_blank, Hfin in Hm as [z Hz].
    rewrite candidate_score_value in Hz. eauto. }
  destruct (choice_value_total _ ai_player b (available_moves b) NegInf None Hfin')
    as [[s c] Hc].
  pose proof (choice_value_first _ _ _ _ _ _ _ _ Hc) as
    [(_ & -> & Hall) | (l1 & m & l2 & Hsplit & -> & Em & _ & H1 & H2)].
  - destruct (available_moves b) as [| m0 rest] eqn:Emoves; [congruence |].
    assert (Hm0 : b !! m0 = Some " ") by (apply available_blank; rewrite Emoves; left).
    destruct (Hfin m0 Hm0) as [z Hz]. rewrite candidate_score_value in Hz.
    specialize (Hall m0 (Fin z) ltac:(left) Hz). discriminate Hall.
  - assert (Hm : b !! m = Some " ").
    { apply available_blank. rewrite Hsplit. apply elem_of_app. right. left. }
    destruct (Hfin m Hm) as [z Hz]. pose proof Hz as Hz'.
    rewrite candidate_score_value, Em in Hz'. injection Hz' as ->.
    exists m, z. unfold best_choice. rewrite Hc. repeat split; auto.
    + rewrite candidate_score_value in H0.
      apply elem_of_available_moves in H. rewrite Hsplit in H.
      apply elem_of_app in H as [H | H].
      * specialize (H1 _ _ H H0). simpl in H1. apply Z.ltb_lt in H1. lia.
      * apply elem_of_cons in H as [-> | H].
        -- rewrite Em in H0. injection H0 as ->. lia.
        -- specialize (H2 _ _ H H0). simpl in H2. apply Z.ltb_ge in H2. lia.
    + intros Hlt. rewrite candidate_score_value in H0.
      apply elem_of_available_moves in H. rewrite Hsplit in H.
      pose proof (available_moves_sorted b) as Hs. rewrite Hsplit in Hs.
      apply StronglySorted_app_1_r in Hs. apply StronglySorted_inv in Hs as [_ Hs].
      apply elem_of_app in H as [H | H].
      * specialize (H1 _ _ H H0). simpl in H1. apply Z.ltb_lt in H1. lia.
      * apply elem_of_cons in H as [-> | H]; [lia |].
        rewrite Forall_forall in Hs. specialize (Hs _ H). lia.
Qed.

(** * The properties of the specification *)

(** ** C3: the evaluator *)

(** C3. On a board of 9 cells [check_winner] goes through the eight triples
    (0,1,2) (3,4,5) (6,7,8) (0,3,6) (1,4,7) (2,5,8) (0,4,8) (2,4,6) in this
    order and returns the symbol of the first one whose three cells are equal
    and not empty; when no triple is such a line it returns ['Tie'] if no
    empty cell is left and [None] otherwise. *)
Theorem check_winner_first_triple (b : board) :
  length b = 9 ->
  WIN_COMBINATIONS = [ (0, 1, 2); (3, 4, 5); (6, 7, 8); (0, 3, 6);
                       (1, 4, 7); (2, 5, 8); (0, 4, 8); (2, 4, 6) ]
  /\ (forall n t x,
        WIN_COMBINATIONS !! n = Some t -> wins b t x ->
        (forall n' t' y, n' < n -> WIN_COMBINATIONS !! n' = Some t' -> ~ wins b t' y) ->
        check_winner b = Ok (Some x))
  /\ ((forall t y, t ∈ WIN_COMBINATIONS -> ~ wins b t y) -> " " ∉ b ->
      check_winner b = Ok (Some "Tie"))
  /\ ((forall t y, t ∈ WIN_COMBINATIONS -> ~ wins b t y) -> " " ∈ b ->
      check_winner b = Ok None).
Proof.
  intros Hlen.
  assert (Hcw : check_winner b = Ok (outcome_of b))
    by (apply check_winner_in_range; lia).
  split; [reflexivity |]. rewrite Hcw. unfold outcome_of. repeat split.
  - intros n t x Hn Hw Hbefore.
    assert (E : first_line b WIN_COMBINATIONS = Some x).
    { apply first_line_Some.
      exists (take n WIN_COMBINATIONS), t, (drop (S n) WIN_COMBINATIONS).
      split; [symmetry; apply take_drop_middle; exact Hn |].
      split; [exact Hw |].
      apply Forall_forall. intros t' Ht' y.
      apply list_elem_of_lookup in Ht' as [n' Hn'].
      apply lookup_take_Some in Hn' as [Hn' Hlt]. eapply Hbefore; eassumption. }
    rewrite E. reflexivity.
  - intros Hno Hfull.
    assert (E : first_line b WIN_COMBINATIONS = None).
    { apply first_line_None, Forall_forall. intros t Ht y. apply Hno. exact Ht. }
    rewrite E. apply no_blank_true in Hfull. rewrite Hfull. reflexivity.
  - intros Hno Hblank.
    assert (E : first_line b WIN_COMBINATIONS = None).
    { apply first_line_None, Forall_forall. intros t Ht y. apply Hno. exact Ht. }
    rewrite E. destruct (no_blank b) eqn:En; [| reflexivity].
    apply no_blank_true in En. contradiction.
Qed.

Lemma check_winner_first_triple_witness :
  length won_board = 9 /\ check_winner won_board = Ok (Some "X").
Proof.
  split; [reflexivity |].
  destruct (check_winner_first_triple won_board eq_refl) as (_ & H & _).
  apply (H 0 (0, 1, 2)).
  - reflexivity.
  - repeat split. discriminate.
  - intros n' t' y Hlt. inversion Hlt.
Defined.

(** ** C2: the terminal scores *)

Lemma first_line_only (b : board) combos (x : string) :
  (exists t, t ∈ combos /\ wins b t x) ->
  (forall t y, t ∈ combos -> wins b t y -> y = x) ->
  first_line b combos = Some x.
Proof.
  intros (t & Ht & Hw) Honly. destruct (first_line b combos) as [y |] eqn:E.
  - apply first_line_Some in E as (l1 & t' & l2 & -> & Hw' & _).
    f_equal. apply (Honly t'); [| exact Hw'].
    apply elem_of_app. right. left.
  - apply first_line_None in E. rewrite Forall_forall in E. destruct (E t Ht x Hw).
Qed.

(** C2. [minimax] looks at the outcome of the board first: when
    [check_winner] reports the AI symbol it returns [10 - depth], when it
    reports the human symbol [depth - 10], when it reports a tie [0]; a call
    stack of a single frame is enough, so no recursive call is made, and the
    board is untouched.  The two symbols are distinct and neither is the
    string ['Tie'].  In terms of the cells of a board of nine cells or more:
    [10 - depth] when the AI has a completed line and nobody else has one,
    [depth - 10] when the human has one and nobody else, [0] when nobody has
    one and no cell is empty. *)
Theorem minimax_terminal_scores (fuel : nat) (depth : Z) (is_maximizing : bool)
    (ai_player hu_player : string) (print_tree : bool) (b : board) (out : list string) :
  let returns z :=
    exists out', minimax (S fuel) depth is_maximizing ai_player hu_player print_tree
                   (World b out) = (Ok (Fin z), World b out') in
  (check_winner b = Ok (Some ai_player) -> returns (10 - depth)%Z)
  /\ (check_winner b = Ok (Some hu_player) -> hu_player <> ai_player ->
      returns (depth - 10)%Z)
  /\ (check_winner b = Ok (Some "Tie") -> ai_player <> "Tie" -> hu_player <> "Tie" ->
      returns 0%Z)
  /\ (9 <= length b ->
      (exists t, t ∈ WIN_COMBINATIONS /\ wins b t ai_player) ->
      (forall t y, t ∈ WIN_COMBINATIONS -> wins b t y -> y = ai_player) ->
      returns (10 - depth)%Z)
  /\ (9 <= length b -> hu_player <> ai_player ->
      (exists t, t ∈ WIN_COMBINATIONS /\ wins b t hu_player) ->
      (forall t y, t ∈ WIN_COMBINATIONS -> wins b t y -> y = hu_player) ->
      returns (depth - 10)%Z)
  /\ (9 <= length b -> ai_player <> "Tie" -> hu_player <> "Tie" ->
      (forall t y, t ∈ WIN_COMBINATIONS -> ~ wins b t y) -> " " ∉ b ->
      returns 0%Z).
Proof.
  intros returns.
  assert (Hai : check_winner b = Ok (Some ai_player) -> returns (10 - depth)%Z).
  { intros H. apply minimax_of_value. cbn [minimax_value]. rewrite H. cbn [rbind].
    rewrite winner_is_refl. reflexivity. }
  assert (Hhu : check_winner b = Ok (Some hu_player) -> hu_player <> ai_player ->
                returns (depth - 10)%Z).
  { intros H Hne. apply minimax_of_value. cbn [minimax_value]. rewrite H. cbn [rbind].
    rewrite winner_is_refl. apply String.eqb_neq in Hne. cbn [winner_is].
    rewrite Hne. reflexivity. }
  assert (Htie : check_winner b = Ok (Some "Tie") -> ai_player <> "Tie" ->
                 hu_player <> "Tie" -> returns 0%Z).
  { intros H Ha Hh. apply minimax_of_value. cbn [minimax_value]. rewrite H.
    cbn [rbind winner_is]. apply not_eq_sym, String.eqb_neq in Ha, Hh.
    rewrite Ha, Hh. reflexivity. }
  split; [exact Hai |]. split; [exact Hhu |]. split; [exact Htie |].
  split; [| split].
  - intros Hlen Hline Honly. apply Hai.
    rewrite (check_winner_in_range b Hlen). unfold outcome_of.
    rewrite (first_line_only b _ _ Hline Honly). reflexivity.
  - intros Hlen Hne Hline Honly. apply Hhu; [| exact Hne].
    rewrite (check_winner_in_range b Hlen). unfold outcome_of.
    rewrite (first_line_only b _ _ Hline Honly). reflexivity.
  - intros Hlen Ha Hh Hno Hfull. apply Htie; [| exact Ha | exact Hh].
    rewrite (check_winner_in_range b Hlen). unfold outcome_of.
    assert (E : first_line b WIN_COMBINATIONS = None).
    { apply first_line_None, Forall_forall. intros t Ht y. apply Hno. exact Ht. }
    rewrite E. apply no_blank_true in Hfull. rewrite Hfull. reflexivity.
Qed.

Lemma minimax_terminal_scores_witness :
  (exists out', minimax 1 3 true "X" "O" true (World won_board [])
                = (Ok (Fin 7), World won_board out'))
  /\ (exists out', minimax 1 3 true "O" "X" true (World won_board [])
                   = (Ok (Fin (-7)), World won_board out'))
  /\ (exists out', minimax 1 3 true "X" "O" true (World full_board [])
                   = (Ok (Fin 0), World full_board out')).
Proof.
  destruct (minimax_terminal_scores 0 3 true "X" "O" true won_board [])
    as (Hai & _).
  destruct (minimax_terminal_scores 0 3 true "O" "X" true won_board [])
    as (_ & Hhu & _).
  destruct (minimax_terminal_scores 0 3 true "X" "O" true full_board [])
    as (_ & _ & Htie & _).
  split; [| split].
  - apply Hai. reflexivity.
  - apply Hhu; [reflexivity | discriminate].
  - apply Htie; [reflexivity | discriminate | discriminate].
Defined.

(** ** C1: the choice of the move *)

Lemma outcome_of_None (b : board) :
  outcome_of b = None -> first_line b WIN_COMBINATIONS = None /\ no_blank b = false.
Proof.
  unfold outcome_of. destruct (first_line b WIN_COMBINATIONS); [discriminate |].
  destruct (no_blank b); [discriminate | auto].
Qed.

Lemma blank_moves (b : board) (m : nat) : b !! m = Some " " -> available_moves b <> [].
Proof.
  intros Hm E. apply elem_of_available_moves in Hm. rewrite E in Hm.
  apply elem_of_nil in Hm. exact Hm.
Qed.

(** C1. On a board in progress (nine cells or more, [check_winner] returns
    [None], hence an empty cell exists), with marks that are not the empty
    cell and a call stack that allows one frame per empty cell:
    [available_moves] lists the empty cells in ascending order, every one of
    them gets an integer score, and [best_move] returns the empty cell [m]
    with the greatest score that comes first: no candidate scores more, and
    every candidate of a smaller index scores strictly less.  The board is
    left as it was. *)
Theorem best_move_first_maximum (P : bool) (fuel : nat) (ai_player hu_player : string)
    (b : board) (out : list string) :
  9 <= length b -> ai_player <> " " -> hu_player <> " " -> blanks b <= fuel ->
  check_winner b = Ok None ->
  StronglySorted lt (available_moves b)
  /\ (forall i, i ∈ available_moves b <-> b !! i = Some " ")
  /\ available_moves b <> []
  /\ exists m z out',
       best_move P fuel ai_player hu_player (World b out) = (Ok m, World b out')
       /\ b !! m = Some " "
       /\ candidate_score fuel ai_player hu_player b m = Ok (Fin z)
       /\ forall m', b !! m' = Some " " ->
            exists z', candidate_score fuel ai_player hu_player b m' = Ok (Fin z')
                       /\ (z' <= z)%Z /\ (m' < m -> (z' < z)%Z).
Proof.
  intros Hlen Hai Hhu Hfuel Hcw.
  rewrite (check_winner_in_range b Hlen) in Hcw. injection Hcw as Hout.
  apply outcome_of_None in Hout as [Hline Hblank].
  destruct (no_blank_false b Hblank) as [m0 Hm0].
  assert (Hfin : forall m, b !! m = Some " " ->
            exists z, candidate_score fuel ai_player hu_player b m = Ok (Fin z)).
  { intros m Hm. rewrite candidate_score_value.
    pose proof (blanks_insert b m ai_player Hm Hai) as Hb.
    destruct (minimax_value_total ai_player hu_player Hai Hhu fuel 0 false
                (<[m:=ai_player]> b)) as [s Hs];
      [rewrite length_insert; exact Hlen | lia |].
    pose proof (minimax_value_finite ai_player hu_player fuel 0 false
                  (<[m:=ai_player]> b) s) as F.
    rewrite length_insert in F. specialize (F Hlen).
    specialize (F (known_lines_mark ai_player hu_player b m ai_player Hm Hline
                     (or_introl eq_refl)) Hs).
    destruct s as [| z |]; try destruct F. eauto. }
  split; [apply available_moves_sorted |].
  split; [apply elem_of_available_moves |].
  split; [exact (blank_moves b m0 Hm0) |].
  destruct (best_choice_first fuel ai_player hu_player b (blank_moves b m0 Hm0) Hfin)
    as (m & z & Hc & Hm & Hz & Hmax).
  apply best_move_value_choice in Hc.
  destruct (best_move_of_value P fuel ai_player hu_player b out _ Hc) as [_ Hrun].
  destruct (Hrun m eq_refl) as [out' E].
  exists m, z, out'.
  split; [exact E |]. split; [exact Hm |]. split; [exact Hz |].
  intros m' Hm'. destruct (Hfin m' Hm') as [z' Hz'].
  exists z'. split; [exact Hz' |]. apply (Hmax m' z' Hm' Hz').
Qed.

Lemma best_move_first_maximum_witness :
  exists m, fst (run (best_move true 5 "X" "O") row_board) = Ok m
            /\ row_board !! m = Some " ".
Proof.
  destruct (best_move_first_maximum true 5 "X" "O" row_board [])
    as (_ & _ & _ & m & z & out' & E & Hm & _).
  - simpl. lia.
  - discriminate.
  - discriminate.
  - vm_compute. lia.
  - reflexivity.
  - exists m. unfold run. rewrite E. split; [reflexivity | exact Hm].
Defined.

(** ** C4: the board is given back as it was *)

(** C4. Whenever a call of [minimax] or of [best_move] returns, every cell
    of the board holds the value it held before the call.  And the call does
    return on a board of nine cells or more when the marks are not the empty
    cell and the call stack allows more frames than there are empty cells. *)
Theorem search_restores_board (P : bool) (fuel : nat) (depth : Z) (is_maximizing : bool)
    (ai_player hu_player : string) (print_tree : bool) (w : world) :
  (forall s w', minimax fuel depth is_maximizing ai_player hu_player print_tree w
                = (Ok s, w') -> cells w' = cells w)
  /\ (forall m w', best_move P fuel ai_player hu_player w = (Ok m, w') ->
                   cells w' = cells w)
  /\ (9 <= length (cells w) -> ai_player <> " " -> hu_player <> " " ->
      blanks (cells w) < fuel ->
      exists s w', minimax fuel depth is_maximizing ai_player hu_player print_tree w
                   = (Ok s, w') /\ cells w' = cells w).
Proof.
  repeat split.
  - intros s w' H.
    destruct (minimax_run fuel depth is_maximizing ai_player hu_player print_tree w)
      as (w1 & E & R).
    rewrite E in H. injection H as Hs ->. apply (R s Hs).
  - intros m w' H.
    destruct (best_move_run P fuel ai_player hu_player w) as (w1 & E & R).
    rewrite E in H. injection H as Hm ->. apply (R m Hm).
  - intros Hlen Hai Hhu Hfuel.
    destruct (minimax_value_total ai_player hu_player Hai Hhu fuel depth is_maximizing
                (cells w) Hlen Hfuel) as [s Hs].
    destruct (minimax_run fuel depth is_maximizing ai_player hu_player print_tree w)
      as (w1 & E & R).
    exists s, w1. rewrite E, Hs. split; [reflexivity | apply (R s Hs)].
Qed.

Lemma search_restores_board_witness :
  cells (snd (run (minimax 6 0 false "X" "O" true) row_board)) = row_board
  /\ cells (snd (run (best_move true 5 "X" "O") row_board)) = row_board.
Proof.
  destruct (search_restores_board true 6 0 false "X" "O" true (World row_board []))
    as (Hminimax & _ & _).
  destruct (search_restores_board true 5 0 false "X" "O" true (World row_board []))
    as (_ & Hbest & _).
  split.
  - apply (Hminimax (Fin (-9))). vm_compute. reflexivity.
  - apply (Hbest 2). vm_compute. reflexivity.
Defined.

(** ** C8: the trace has no influence *)

(** C8. The score [minimax] returns, or the exception it raises, is the same
    with [print_tree] true and false and whatever was printed before; the
    index [best_move] returns, or the exception it raises, is the same under
    either setting of [PRINT_TREE]. *)
Theorem trace_does_not_influence (fuel : nat) (depth : Z) (is_maximizing : bool)
    (ai_player hu_player : string) (b : board) (out1 out2 : list string) :
  fst (minimax fuel depth is_maximizing ai_player hu_player true (World b out1))
  = fst (minimax fuel depth is_maximizing ai_player hu_player false (World b out2))
  /\ fst (best_move true fuel ai_player hu_player (World b out1))
     = fst (best_move false fuel ai_player hu_player (World b out2)).
Proof. rewrite !fst_minimax, !fst_best_move. split; reflexivity. Qed.

(** ** C6 and C7: two searches carried out *)

Lemma best_move_from_choice (P : bool) (fuel fuel' : nat) (ai_player hu_player : string)
    (b : board) (out : list string) (s : score) (m : nat) :
  best_choice fuel ai_player hu_player b = Ok (s, Some m) -> fuel <= fuel' ->
  exists out', best_move P fuel' ai_player hu_player (World b out) = (Ok m, World b out').
Proof.
  intros Hc Hle. apply (best_choice_le _ _ _ _ _ _ Hle), best_move_value_choice in Hc.
  destruct (best_move_of_value P fuel' ai_player hu_player b out _ Hc) as [_ H].
  apply H. reflexivity.
Qed.

Lemma best_choice_score (fuel : nat) (ai_player hu_player : string) (b : board)
    (s : score) (m : nat) :
  best_choice fuel ai_player hu_player b = Ok (s, Some m) ->
  minimax_value fuel 0 false ai_player hu_player (<[m:=ai_player]> b) = Ok s.
Proof.
  unfold best_choice. intros Hc.
  apply choice_value_first in Hc
    as [(Hnone & _) | (l1 & m' & l2 & _ & Hm & Hs & _)]; [discriminate Hnone |].
  injection Hm as <-. exact Hs.
Qed.

Lemma row_board_choice : best_choice 5 "X" "O" row_board = Ok (Fin 10, Some 2).
Proof. vm_compute. reflexivity. Qed.

(** C6. On the board X X . / O O . / . . . with the AI playing X and the human
    playing O, [best_move] returns index 2, under either setting of the trace
    and with any call stack of five frames or more. *)
Theorem best_move_completes_row (P : bool) (fuel : nat) (out : list string) :
  5 <= fuel ->
  exists out', best_move P fuel "X" "O" (World row_board out) = (Ok 2, World row_board out').
Proof. apply best_move_from_choice with (1 := row_board_choice). Qed.

Lemma best_move_completes_row_witness :
  exists out', best_move true 5 "X" "O" (World row_board [])
               = (Ok 2, World row_board out').
Proof. apply (best_move_completes_row true 5 []). lia. Defined.

(** The whole tree below the empty board: 549945 calls of [minimax]. *)
Lemma empty_board_choice : best_choice 9 "X" "O" empty_board = Ok (Fin 0, Some 0).
Proof. vm_compute. reflexivity. Qed.

(** C7. On the empty board with the AI playing X, the symbol that moves
    first, [best_move] returns index 0, a corner, and the score backed up for
    that move is 0; with any call stack of nine frames or more. *)
Theorem best_move_empty_board (P : bool) (fuel : nat) (out : list string) :
  9 <= fuel ->
  exists m out',
    best_move P fuel "X" "O" (World empty_board out) = (Ok m, World empty_board out')
    /\ m = 0 /\ m ∈ [0; 2; 4; 6; 8]
    /\ candidate_score fuel "X" "O" empty_board m = Ok (Fin 0).
Proof.
  intros Hle.
  destruct (best_move_from_choice P 9 fuel "X" "O" empty_board out _ _
              empty_board_choice Hle) as [out' E].
  exists 0, out'. split; [exact E |]. split; [reflexivity |]. split; [left |].
  rewrite candidate_score_value.
  exact (minimax_value_le 9 fuel _ _ _ _ _ _ Hle
           (best_choice_score 9 "X" "O" empty_board _ _ empty_board_choice)).
Qed.

Lemma best_move_empty_board_witness :
  exists m, fst (run (best_move true 9 "X" "O") empty_board) = Ok m
            /\ m ∈ [0; 2; 4; 6; 8]
            /\ candidate_score 9 "X" "O" empty_board m = Ok (Fin 0).
Proof.
  destruct (best_move_empty_board true 9 [] (le_n 9)) as (m & out' & E & _ & Hin & Hs).
  exists m. split; [| split; [exact Hin | exact Hs]].
  exact (f_equal fst E).
Defined.

(** ** C5 and C10: a board that is already won *)

Lemma outcome_of_blank (b : board) (m : nat) (w : string) :
  b !! m = Some " " -> outcome_of b = Some w -> first_line b WIN_COMBINATIONS = Some w.
Proof.
  intros Hm. unfold outcome_of.
  destruct (first_line b WIN_COMBINATIONS); [auto |].
  destruct (no_blank b) eqn:E; [| discriminate].
  apply no_blank_true in E. destruct E.
  apply list_elem_of_lookup. eauto.
Qed.

Section Won_board.

Variables (ai_player hu_player : string) (b : board) (w : string).
Hypothesis long_enough : 9 <= length b.
Hypothesis winner_w : check_winner b = Ok (Some w).
Hypothesis player_w : w = ai_player \/ w = hu_player.

(** With a completed line of a player on the board, the board that carries a
    trial mark of the AI is terminal as well: its score is 10 when
    [check_winner] now reports the AI, and -10 otherwise. *)
Lemma won_candidate (fuel : nat) (m : nat) :
  b !! m = Some " " ->
  candidate_score (S fuel) ai_player hu_player b m
  = Ok (Fin (if winner_is (outcome_of (<[m:=ai_player]> b)) ai_player then 10 else -10)).
Proof.
  intros Hm. rewrite candidate_score_value. cbn [minimax_value].
  rewrite check_winner_in_range by (rewrite length_insert; exact long_enough).
  cbn [rbind].
  destruct (winner_is (outcome_of (<[m:=ai_player]> b)) ai_player) eqn:Eai;
    [reflexivity |].
  pose proof winner_w as Hw. rewrite (check_winner_in_range b long_enough) in Hw.
  injection Hw as Hw. apply (outcome_of_blank b m w Hm) in Hw.
  assert (Hnew : outcome_of (<[m:=ai_player]> b) = Some hu_player).
  { unfold outcome_of in *.
    destruct (first_line_mark_Some b m ai_player Hm _ _ Hw) as [E | E];
      rewrite E in *.
    - destruct player_w as [-> | ->]; [| reflexivity].
      rewrite winner_is_refl in Eai. discriminate.
    - rewrite winner_is_refl in Eai. discriminate. }
  rewrite Hnew, winner_is_refl. reflexivity.
Qed.

Lemma won_candidate_finite (fuel : nat) (m : nat) :
  b !! m = Some " " ->
  exists z, candidate_score (S fuel) ai_player hu_player b m = Ok (Fin z).
Proof. intros Hm. rewrite (won_candidate fuel m Hm). eauto. Qed.

End Won_board.

(** C5, as the code has it.  [best_move] makes no check of the state of the
    board: on a board with an empty cell on which a player's line is already
    complete it raises nothing and returns the index of an empty cell,
    leaving the board as it was. *)
Theorem best_move_on_terminal_board (P : bool) (fuel : nat) (ai_player hu_player : string)
    (b : board) (out : list string) (w : string) :
  9 <= length b -> 1 <= fuel ->
  check_winner b = Ok (Some w) -> w = ai_player \/ w = hu_player ->
  available_moves b <> [] ->
  exists m out',
    best_move P fuel ai_player hu_player (World b out) = (Ok m, World b out')
    /\ b !! m = Some " ".
Proof.
  intros Hlen Hfuel Hw Hp Hne. destruct fuel as [| fuel]; [lia |].
  destruct (best_choice_first (S fuel) ai_player hu_player b Hne
              (won_candidate_finite ai_player hu_player b w Hlen Hw Hp fuel))
    as (m & z & Hc & Hm & _).
  apply best_move_value_choice in Hc.
  destruct (best_move_of_value P (S fuel) ai_player hu_player b out _ Hc) as [_ Hrun].
  destruct (Hrun m eq_refl) as [out' E]. eauto.
Qed.

Lemma best_move_on_terminal_board_witness :
  exists m, fst (run (best_move true 1 "X" "O") won_board) = Ok m
            /\ won_board !! m = Some " ".
Proof.
  destruct (best_move_on_terminal_board true 1 "X" "O" won_board [] "X")
    as (m & out' & E & Hm).
  - simpl. lia.
  - lia.
  - reflexivity.
  - left. reflexivity.
  - discriminate.
  - exists m. split; [exact (f_equal fst E) | exact Hm].
Defined.

(** C5 fails on the code: the AI's row is complete on [won_board], and
    [best_move] returns cell 5 without any error. *)
Lemma best_move_won_board_no_error :
  check_winner won_board = Ok (Some "X")
  /\ fst (run (best_move true 9 "X" "O") won_board) = Ok 5.
Proof. split; vm_compute; reflexivity. Qed.

(** C10, as the code has it.  On a board with an empty cell on which a
    player's line is already complete, every candidate gets a terminal score
    with a call stack of one frame; when the winner is the AI, or when no
    trial mark makes [check_winner] report the AI, these scores are all equal
    (10 in the first case, -10 in the second) and [best_move] returns the
    empty cell of the lowest index. *)
Theorem best_move_on_won_board (P : bool) (fuel : nat) (ai_player hu_player : string)
    (b : board) (out : list string) (w : string) (m0 : nat) (rest : list nat) :
  9 <= length b -> 1 <= fuel ->
  check_winner b = Ok (Some w) -> w = ai_player \/ w = hu_player ->
  available_moves b = m0 :: rest ->
  (w = ai_player
   \/ forall m, b !! m = Some " " ->
                check_winner (<[m:=ai_player]> b) <> Ok (Some ai_player)) ->
  (forall m, b !! m = Some " " ->
     candidate_score fuel ai_player hu_player b m
     = Ok (Fin (if String.eqb w ai_player then 10 else -10)))
  /\ exists out',
       best_move P fuel ai_player hu_player (World b out) = (Ok m0, World b out').
Proof.
  intros Hlen Hfuel Hw Hp Hmoves Hcase. destruct fuel as [| fuel]; [lia |].
  assert (Hm0 : b !! m0 = Some " ")
    by (apply available_blank; rewrite Hmoves; left).
  assert (Hscore : forall m, b !! m = Some " " ->
            candidate_score (S fuel) ai_player hu_player b m
            = Ok (Fin (if String.eqb w ai_player then 10 else -10))).
  { intros m Hm. rewrite (won_candidate ai_player hu_player b w Hlen Hw Hp fuel m Hm).
    pose proof Hw as Hw'. rewrite (check_winner_in_range b Hlen) in Hw'.
    injection Hw' as Hw'. apply (outcome_of_blank b m w Hm) in Hw'.
    assert (Hlen' : 9 <= length (<[m:=ai_player]> b))
      by (rewrite length_insert; exact Hlen).
    destruct Hcase as [-> | Hno].
    - rewrite String.eqb_refl.
      assert (E : outcome_of (<[m:=ai_player]> b) = Some ai_player).
      { unfold outcome_of.
        destruct (first_line_mark_Some b m ai_player Hm _ _ Hw') as [E | E];
          rewrite E; reflexivity. }
      rewrite E, winner_is_refl. reflexivity.
    - specialize (Hno m Hm). rewrite (check_winner_in_range _ Hlen') in Hno.
      assert (Hne : w <> ai_player).
      { intros ->. apply Hno. f_equal. unfold outcome_of.
        destruct (first_line_mark_Some b m ai_player Hm _ _ Hw') as [E | E];
          rewrite E; reflexivity. }
      apply String.eqb_neq in Hne. rewrite Hne.
      destruct (outcome_of (<[m:=ai_player]> b)) as [x |]; [| reflexivity].
      cbn [winner_is]. destruct (String.eqb_spec x ai_player) as [-> |]; [| reflexivity].
      destruct Hno. reflexivity. }
  split; [exact Hscore |].
  assert (Hne : available_moves b <> []) by (rewrite Hmoves; discriminate).
  destruct (best_choice_first (S fuel) ai_player hu_player b Hne
              (won_candidate_finite ai_player hu_player b w Hlen Hw Hp fuel))
    as (m & z & Hc & Hm & Hz & Hmax).
  assert (m = m0) as ->.
  { rewrite (Hscore m Hm) in Hz. injection Hz as <-.
    destruct (Hmax m0 _ Hm0 (Hscore m0 Hm0)) as [_ Hlt].
    pose proof (available_moves_sorted b) as Hs. rewrite Hmoves in Hs.
    apply StronglySorted_inv in Hs as [_ Hs]. rewrite Forall_forall in Hs.
    apply elem_of_available_moves in Hm. rewrite Hmoves in Hm.
    apply elem_of_cons in Hm as [-> | Hm]; [reflexivity |].
    specialize (Hs _ Hm). specialize (Hlt Hs). lia. }
  apply best_move_value_choice in Hc.
  destruct (best_move_of_value P (S fuel) ai_player hu_player b out _ Hc) as [_ Hrun].
  apply Hrun. reflexivity.
Qed.

Lemma best_move_on_won_board_witness :
  candidate_score 1 "X" "O" won_board 7 = Ok (Fin 10)
  /\ exists out', best_move true 1 "X" "O" (World won_board [])
                  = (Ok 5, World won_board out').
Proof.
  destruct (best_move_on_won_board true 1 "X" "O" won_board [] "X" 5 [6; 7; 8])
    as [Hscore Hrun].
  - simpl. lia.
  - lia.
  - reflexivity.
  - left. reflexivity.
  - reflexivity.
  - left. reflexivity.
  - split; [apply (Hscore 7); reflexivity | exact Hrun].
Defined.

(** C10 fails on the code: on [lost_board] the human's row is complete and the
    empty cells are 0 and 5; the trial mark on 5 completes the AI's row
    (3,4,5), which [check_winner] examines before the human's row (6,7,8), so
    the two candidates score -10 and 10 and [best_move] returns 5, not 0. *)
Lemma best_move_lost_board_not_lowest :
  check_winner lost_board = Ok (Some "O")
  /\ available_moves lost_board = [0; 5]
  /\ candidate_score 9 "X" "O" lost_board 0 = Ok (Fin (-10))
  /\ candidate_score 9 "X" "O" lost_board 5 = Ok (Fin 10)
  /\ fst (run (best_move true 9 "X" "O") lost_board) = Ok 5.
Proof. repeat split; vm_compute; reflexivity. Qed.

(** ** C9: boards of any length and content *)

(** C9, as the code has it.  [best_move] makes no check of the board it is
    given: on a board of strings, of nine cells or more with an empty cell,
    whatever strings the other cells hold as long as every completed line is
    a line of one of the two players, with marks that are not the empty cell
    and a call stack that allows one frame per empty cell, the search is
    carried out and [best_move] returns the index of an empty cell, the board
    left as it was. *)
Theorem best_move_no_validation (P : bool) (fuel : nat) (ai_player hu_player : string)
    (b : board) (out : list string) :
  9 <= length b -> ai_player <> " " -> hu_player <> " " -> blanks b <= fuel ->
  available_moves b <> [] ->
  (forall t y, t ∈ WIN_COMBINATIONS -> wins b t y -> y = ai_player \/ y = hu_player) ->
  exists m out',
    best_move P fuel ai_player hu_player (World b out) = (Ok m, World b out')
    /\ b !! m = Some " ".
Proof.
  intros Hlen Hai Hhu Hfuel Hne Hlines.
  assert (Hfin : forall m, b !! m = Some " " ->
            exists z, candidate_score fuel ai_player hu_player b m = Ok (Fin z)).
  { intros m Hm. rewrite candidate_score_value.
    pose proof (blanks_insert b m ai_player Hm Hai) as Hb.
    assert (Hlen' : 9 <= length (<[m:=ai_player]> b))
      by (rewrite length_insert; exact Hlen).
    destruct (minimax_value_total ai_player hu_player Hai Hhu fuel 0 false
                (<[m:=ai_player]> b) Hlen') as [s Hs]; [lia |].
    assert (Hk : known_lines ai_player hu_player (<[m:=ai_player]> b)).
    { unfold known_lines.
      destruct (first_line (<[m:=ai_player]> b) WIN_COMBINATIONS) as [y |] eqn:E;
        [| auto].
      apply first_line_Some in E as (l1 & t & l2 & Hsplit & Hw & _).
      apply (wins_mark_new b m ai_player Hm) in Hw as [-> | Hw]; [auto |].
      destruct (Hlines t y) as [-> | ->]; auto.
      rewrite Hsplit. apply elem_of_app. right. left. }
    pose proof (minimax_value_finite ai_player hu_player fuel 0 false _ s Hlen' Hk Hs)
      as F.
    destruct s as [| z |]; try destruct F. eauto. }
  destruct (best_choice_first fuel ai_player hu_player b Hne Hfin)
    as (m & z & Hc & Hm & _).
  apply best_move_value_choice in Hc.
  destruct (best_move_of_value P fuel ai_player hu_player b out _ Hc) as [_ Hrun].
  destruct (Hrun m eq_refl) as [out' E]. eauto.
Qed.

Lemma best_move_no_validation_witness :
  exists m out',
    best_move true 9 "X" "O" (World long_board []) = (Ok m, World long_board out')
    /\ long_board !! m = Some " ".
Proof.
  apply (best_move_no_validation true 9 "X" "O" long_board []).
  - simpl. lia.
  - discriminate.
  - discriminate.
  - vm_compute. lia.
  - discriminate.
  - intros t y Ht (H1 & H2 & H3 & Hy).
    repeat (apply elem_of_cons in Ht as [-> | Ht];
            [simpl in H1, H2, H3; congruence |]).
    apply elem_of_nil in Ht. destruct Ht.
Defined.

(** Without an empty cell no move is recorded, and the line that announces
    the decision raises [TypeError]. *)
Lemma best_move_no_moves (P : bool) (fuel : nat) (ai_player hu_player : string)
    (b : board) (out : list string) :
  available_moves b = [] ->
  exists w', best_move P fuel ai_player hu_player (World b out) = (Raise TypeError, w').
Proof.
  intros Hnone.
  assert (Hv : best_move_value fuel ai_player hu_player b = Raise TypeError).
  { unfold best_move_value, best_choice. rewrite Hnone. reflexivity. }
  destruct (best_move_of_value P fuel ai_player hu_player b out _ Hv) as [Hraise _].
  apply Hraise. reflexivity.
Qed.

(** C9 fails on the code: a board of ten cells and a board with a cell that
    holds ["Z"] are both searched, and a move is returned for each. *)
Lemma best_move_malformed_board_accepted :
  length long_board = 10
  /\ fst (run (best_move true 9 "X" "O") long_board) = Ok 7
  /\ foreign_board !! 0 = Some "Z"
  /\ fst (run (best_move true 9 "X" "O") foreign_board) = Ok 1.
Proof. repeat split; vm_compute; reflexivity. Qed.

(** * Further properties of the search *)

(** ** The index returned is an empty cell *)

(** X1. Whatever the board, the symbols and the bound on the call stack: when
    [best_move] returns an index, the cell of that index was empty when
    [best_move] was called (so the index is inside the board), and the board
    is as it was. *)
Theorem best_move_returns_empty_cell (P : bool) (fuel : nat)
    (ai_player hu_player : string) (w w' : world) (m : nat) :
  best_move P fuel ai_player hu_player w = (Ok m, w') ->
  cells w !! m = Some " " /\ m < length (cells w) /\ cells w' = cells w.
Proof.
  intros H.
  destruct (best_move_run P fuel ai_player hu_player w) as (w1 & E & R).
  rewrite E in H. injection H as Hv ->. specialize (R m Hv).
  assert (Hm : cells w !! m = Some " ").
  { unfold best_move_value in Hv.
    destruct (best_choice fuel ai_player hu_player (cells w)) as [[s c] | e] eqn:Ec;
      [| discriminate].
    cbn [rbind snd] in Hv. destruct c as [m' |]; [| discriminate].
    injection Hv as ->. unfold best_choice in Ec.
    apply choice_value_first in Ec
      as [(Hnone & _) | (l1 & m' & l2 & Hsplit & Hm & _)]; [discriminate Hnone |].
    injection Hm as <-. apply available_blank. rewrite Hsplit.
    apply elem_of_app. right. left. }
  split; [exact Hm |]. split; [eapply lookup_lt_Some; exact Hm | exact R].
Qed.

Lemma best_move_returns_empty_cell_witness :
  foreign_board !! 1 = Some " " /\ 1 < length foreign_board
  /\ cells (snd (run (best_move true 9 "X" "O") foreign_board)) = foreign_board.
Proof.
  apply (best_move_returns_empty_cell true 9 "X" "O" (World foreign_board [])).
  vm_compute. reflexivity.
Defined.

(** ** A single empty cell *)

Lemma no_moves_no_blank (b : board) : available_moves b = [] -> no_blank b = true.
Proof.
  intros H. destruct (no_blank b) eqn:E; [reflexivity |].
  destruct (no_blank_false b E) as [m Hm]. destruct (blank_moves b m Hm H).
Qed.

(** The board that carries the last mark is full, hence terminal. *)
Lemma last_candidate_finite (fuel : nat) (ai_player hu_player : string) (b : board)
    (m : nat) :
  9 <= length b -> ai_player <> " " -> available_moves b = [m] ->
  first_line b WIN_COMBINATIONS = None ->
  exists z, candidate_score (S fuel) ai_player hu_player b m = Ok (Fin z).
Proof.
  intros Hlen Hai Hone Hline.
  assert (Hm : b !! m = Some " ") by (apply available_blank; rewrite Hone; left).
  rewrite candidate_score_value. cbn [minimax_value].
  rewrite check_winner_in_range by (rewrite length_insert; exact Hlen). cbn [rbind].
  assert (Hfull : no_blank (<[m:=ai_player]> b) = true).
  { apply no_moves_no_blank.
    pose proof (blanks_insert b m ai_player Hm Hai) as Hb. unfold blanks in Hb.
    rewrite Hone in Hb. cbn [length] in Hb.
    destruct (available_moves (<[m:=ai_player]> b)); [reflexivity | discriminate Hb]. }
  unfold outcome_of. rewrite Hfull.
  destruct (first_line (<[m:=ai_player]> b) WIN_COMBINATIONS) as [y |] eqn:E.
  - apply (first_line_mark b m ai_player Hm) in E as [-> | E]; [| congruence].
    rewrite winner_is_refl. eauto.
  - destruct (winner_is (Some "Tie") ai_player); [eauto |].
    destruct (winner_is (Some "Tie") hu_player); [eauto |].
    rewrite winner_is_refl. eauto.
Qed.

(** X2. On a board of nine cells or more with exactly one empty cell and no
    completed line, [best_move] returns that cell; one stack frame for
    [minimax] is enough.  (The AI's mark is not the empty cell.) *)
Theorem best_move_last_cell (P : bool) (fuel : nat) (ai_player hu_player : string)
    (b : board) (out : list string) (m : nat) :
  9 <= length b -> 1 <= fuel -> ai_player <> " " ->
  check_winner b = Ok None -> available_moves b = [m] ->
  exists out', best_move P fuel ai_player hu_player (World b out) = (Ok m, World b out').
Proof.
  intros Hlen Hfuel Hai Hcw Hone. destruct fuel as [| fuel]; [lia |].
  rewrite (check_winner_in_range b Hlen) in Hcw. injection Hcw as Hout.
  apply outcome_of_None in Hout as [Hline _].
  assert (Hne : available_moves b <> []) by (rewrite Hone; discriminate).
  assert (Honly : forall m', b !! m' = Some " " -> m' = m).
  { intros m' Hm'. apply elem_of_available_moves in Hm'. rewrite Hone in Hm'.
    apply list_elem_of_singleton in Hm'. exact Hm'. }
  assert (Hfin : forall m', b !! m' = Some " " ->
            exists z, candidate_score (S fuel) ai_player hu_player b m' = Ok (Fin z)).
  { intros m' Hm'. rewrite (Honly m' Hm').
    apply last_candidate_finite; assumption. }
  destruct (best_choice_first (S fuel) ai_player hu_player b Hne Hfin)
    as (m' & z & Hc & Hm' & _).
  rewrite (Honly m' Hm') in Hc. apply best_move_value_choice in Hc.
  destruct (best_move_of_value P (S fuel) ai_player hu_player b out _ Hc) as [_ Hrun].
  apply Hrun. reflexivity.
Qed.

Lemma best_move_last_cell_witness :
  exists out', best_move true 1 "O" "X" (World last_cell_board [])
               = (Ok 8, World last_cell_board out').
Proof.
  apply best_move_last_cell.
  - simpl. lia.
  - lia.
  - discriminate.
  - reflexivity.
  - reflexivity.
Defined.

(** ** What [check_winner] returns, on a board of any length *)

Lemma winning_line_sound (b : board) combos (r : option string) :
  winning_line b combos = Ok r ->
  match r with
  | Some x => exists t, t ∈ combos /\ wins b t x
  | None => forall t y, t ∈ combos -> ~ wins b t y
  end.
Proof.
  induction combos as [| [[i j] k] rest IH]; cbn [winning_line].
  - intros [= <-]. intros t y Ht. apply elem_of_nil in Ht. destruct Ht.
  - unfold getitem at 1 2 3.
    destruct (b !! i) as [x |] eqn:Ei; [| discriminate]. cbn [rbind].
    destruct (b !! j) as [y |] eqn:Ej; [| discriminate]. cbn [rbind].
    assert (Hskip : (x = y -> forall z, b !! k = Some z -> y = z -> x = " ") ->
              winning_line b rest = Ok r ->
              match r with
              | Some x => exists t, t ∈ (i, j, k) :: rest /\ wins b t x
              | None => forall t y, t ∈ (i, j, k) :: rest -> ~ wins b t y
              end).
    { intros Hno Hrest. apply IH in Hrest. destruct r as [x' |].
      - destruct Hrest as (t & Ht & Hw). exists t. split; [right; exact Ht | exact Hw].
      - intros t y' Ht. apply elem_of_cons in Ht as [-> | Ht]; [| apply Hrest; exact Ht].
        intros (H1 & H2 & H3 & Hy). cbn [fst snd] in H1, H2, H3.
        rewrite Ei in H1. rewrite Ej in H2. injection H1 as ->. injection H2 as ->.
        apply Hy. apply (Hno eq_refl y' H3 eq_refl). }
    destruct (String.eqb_spec x y) as [-> | Hxy]; [| apply Hskip; intros; congruence].
    destruct (b !! k) as [z |] eqn:Ek; [| discriminate]. cbn [rbind].
    destruct (String.eqb_spec y z) as [-> | Hyz]; cbn [andb];
      [| apply Hskip; intros _ z' [= ->] E; congruence].
    destruct (String.eqb_spec z " ") as [-> | Hz]; cbn [negb];
      [apply Hskip; intros; reflexivity |].
    intros [= <-]. exists (i, j, k). split; [left |]. repeat split; assumption.
Qed.

(** X3. On a board of any length, when [check_winner] returns a symbol, either
    one of the eight triples holds three times this symbol, which is not the
    empty cell, or the symbol is ['Tie'] and the board has no empty cell; and
    when it returns [None] the board has an empty cell and no triple is a
    completed line. *)
Theorem check_winner_sound (b : board) (r : option string) :
  check_winner b = Ok r ->
  match r with
  | Some x => (exists t, t ∈ WIN_COMBINATIONS /\ wins b t x)
              \/ (x = "Tie" /\ (" " ∉ b)
                  /\ forall t y, t ∈ WIN_COMBINATIONS -> ~ wins b t y)
  | None => " " ∈ b /\ forall t y, t ∈ WIN_COMBINATIONS -> ~ wins b t y
  end.
Proof.
  unfold check_winner.
  destruct (winning_line b WIN_COMBINATIONS) as [w | e] eqn:E; [| discriminate].
  apply winning_line_sound in E. cbn [rbind]. destruct w as [x |].
  - intros [= <-]. left. exact E.
  - destruct (no_blank b) eqn:En; intros [= <-].
    + right. split; [reflexivity |]. split; [apply no_blank_true; exact En | exact E].
    + split; [| exact E]. destruct (no_blank_false b En) as [m Hm].
      apply list_elem_of_lookup. eauto.
Qed.

Lemma check_winner_sound_witness :
  (exists t, t ∈ WIN_COMBINATIONS /\ wins ["O"; "O"; "O"] t "O")
  \/ ("O" = "Tie" /\ (" " ∉ ["O"; "O"; "O"])
      /\ forall t y, t ∈ WIN_COMBINATIONS -> ~ wins ["O"; "O"; "O"] t y).
Proof. apply (check_winner_sound ["O"; "O"; "O"] (Some "O")). reflexivity. Defined.

(** ** The value of a node among the values of its children *)

Section Loops_among.

Variable rec : board -> result score.
Variables (symbol : string) (b : board).

(** The maximum is the starting value or the score of a child, and no child
    scores more. *)
Lemma max_value_among (moves : list nat) (best s : score) :
  max_value rec symbol b moves best = Ok s ->
  (s = best \/ exists m, m ∈ moves /\ rec (<[m:=symbol]> b) = Ok s)
  /\ score_gt best s = false
  /\ forall m s', m ∈ moves -> rec (<[m:=symbol]> b) = Ok s' -> score_gt s' s = false.
Proof.
  revert best. induction moves as [| move rest IH]; intros best; cbn [max_value].
  - intros [= <-]. split; [auto |]. split; [destruct best; simpl; auto using Z.ltb_irrefl |].
    intros m s' Hm. apply elem_of_nil in Hm. destruct Hm.
  - destruct (rec (<[move:=symbol]> b)) as [s0 | e] eqn:E0; [| discriminate].
    cbn [rbind]. intros H. apply IH in H as (Hsrc & Hbest & Hall).
    assert (Hs0 : score_gt s0 s = false /\ score_gt best s = false).
    { destruct (score_gt s0 best) eqn:Egt.
      - split; [exact Hbest |].
        destruct s0, best, s; simpl in *; try congruence.
        apply Z.ltb_lt in Egt. apply Z.ltb_ge in Hbest. apply Z.ltb_ge. lia.
      - split; [| exact Hbest].
        destruct s0, best, s; simpl in *; try congruence.
        apply Z.ltb_ge in Egt, Hbest. apply Z.ltb_ge. lia. }
    destruct Hs0 as [Hs0 Hb]. split; [| split; [exact Hb |]].
    + destruct Hsrc as [-> | (m & Hm & Em)].
      * destruct (score_gt s0 best); [| auto].
        right. exists move. split; [left | exact E0].
      * right. exists m. split; [right; exact Hm | exact Em].
    + intros m s' Hm E'. apply elem_of_cons in Hm as [-> | Hm]; [| eauto].
      rewrite E0 in E'. injection E' as <-. exact Hs0.
Qed.

(** The minimum is the starting value or the score of a child, and no child
    scores less. *)
Lemma min_value_among (moves : list nat) (best s : score) :
  min_value rec symbol b moves best = Ok s ->
  (s = best \/ exists m, m ∈ moves /\ rec (<[m:=symbol]> b) = Ok s)
  /\ score_gt s best = false
  /\ forall m s', m ∈ moves -> rec (<[m:=symbol]> b) = Ok s' -> score_gt s s' = false.
Proof.
  revert best. induction moves as [| move rest IH]; intros best; cbn [min_value].
  - intros [= <-]. split; [auto |]. split; [destruct best; simpl; auto using Z.ltb_irrefl |].
    intros m s' Hm. apply elem_of_nil in Hm. destruct Hm.
  - destruct (rec (<[move:=symbol]> b)) as [s0 | e] eqn:E0; [| discriminate].
    cbn [rbind]. intros H. apply IH in H as (Hsrc & Hbest & Hall).
    assert (Hs0 : score_gt s s0 = false /\ score_gt s best = false).
    { unfold score_lt in *. destruct (score_gt best s0) eqn:Egt.
      - split; [exact Hbest |].
        destruct s0, best, s; simpl in *; try congruence.
        apply Z.ltb_lt in Egt. apply Z.ltb_ge in Hbest. apply Z.ltb_ge. lia.
      - split; [| exact Hbest].
        destruct s0, best, s; simpl in *; try congruence.
        apply Z.ltb_ge in Egt, Hbest. apply Z.ltb_ge. lia. }
    destruct Hs0 as [Hs0 Hb]. split; [| split; [exact Hb |]].
    + destruct Hsrc as [-> | (m & Hm & Em)].
      * destruct (score_lt s0 best); [| auto].
        right. exists move. split; [left | exact E0].
      * right. exists m. split; [right; exact Hm | exact Em].
    + intros m s' Hm E'. apply elem_of_cons in Hm as [-> | Hm]; [| eauto].
      rewrite E0 in E'. injection E' as <-. exact Hs0.
Qed.

End Loops_among.

(** ** The two players exchanged *)

Lemma neg_score_gt (a b : score) : score_gt (neg_score b) (neg_score a) = score_gt a b.
Proof.
  destruct a, b; simpl; try reflexivity.
  destruct (Z.ltb_spec z0 z), (Z.ltb_spec (- z) (- z0)); auto; lia.
Qed.

Section Loops_swap.

Variables rec rec' : board -> result score.
Hypothesis rec_neg : forall b, rec' b = rmap neg_score (rec b).
Variables (symbol : string) (b : board).

Lemma min_value_neg (moves : list nat) (best : score) :
  min_value rec' symbol b moves (neg_score best)
  = rmap neg_score (max_value rec symbol b moves best).
Proof.
  revert best. induction moves as [| move rest IH]; intros best;
    cbn [min_value max_value]; [reflexivity |].
  rewrite rec_neg. destruct (rec (<[move:=symbol]> b)) as [s | e]; [| reflexivity].
  cbn [rmap rbind]. unfold score_lt. rewrite neg_score_gt.
  destruct (score_gt s best); apply IH.
Qed.

Lemma max_value_neg (moves : list nat) (best : score) :
  max_value rec' symbol b moves (neg_score best)
  = rmap neg_score (min_value rec symbol b moves best).
Proof.
  revert best. induction moves as [| move rest IH]; intros best;
    cbn [min_value max_value]; [reflexivity |].
  rewrite rec_neg. destruct (rec (<[move:=symbol]> b)) as [s | e]; [| reflexivity].
  cbn [rmap rbind]. unfold score_lt. rewrite neg_score_gt.
  destruct (score_gt best s); apply IH.
Qed.

End Loops_swap.

Lemma minimax_value_swap (fuel : nat) (depth : Z) (is_maximizing : bool)
    (ai_player hu_player : string) (b : board) :
  ai_player <> hu_player ->
  minimax_value fuel depth (negb is_maximizing) hu_player ai_player b
  = rmap neg_score (minimax_value fuel depth is_maximizing ai_player hu_player b).
Proof.
  intros Hne. revert depth is_maximizing b.
  induction fuel as [| fuel IH]; intros depth is_maximizing b; [reflexivity |].
  cbn [minimax_value]. destruct (check_winner b) as [w | e]; [| reflexivity].
  cbn [rbind].
  destruct (winner_is w ai_player) eqn:Ea, (winner_is w hu_player) eqn:Eh.
  - destruct w as [x |]; [| discriminate]. cbn [winner_is] in Ea, Eh.
    apply String.eqb_eq in Ea, Eh. congruence.
  - cbn [rmap neg_score]. do 2 f_equal. lia.
  - cbn [rmap neg_score]. do 2 f_equal. lia.
  - destruct (winner_is w "Tie"); [reflexivity |].
    destruct is_maximizing; cbn [negb].
    + apply (min_value_neg _ _ (fun b' => IH (depth + 1)%Z false b')
               ai_player b (available_moves b) NegInf).
    + apply (max_value_neg _ _ (fun b' => IH (depth + 1)%Z true b')
               hu_player b (available_moves b) PosInf).
Qed.

(** X4. The search is zero-sum: with the two symbols exchanged and the level
    flag flipped, [minimax] returns the opposite score ([inf] for [-inf]) or
    raises the same exception, whatever the trace settings.  The symbols are
    distinct. *)
Theorem minimax_swap_players (fuel : nat) (depth : Z) (is_maximizing : bool)
    (ai_player hu_player : string) (pt pt' : bool) (b : board) (out out' : list string) :
  ai_player <> hu_player ->
  fst (minimax fuel depth (negb is_maximizing) hu_player ai_player pt (World b out))
  = rmap neg_score
      (fst (minimax fuel depth is_maximizing ai_player hu_player pt' (World b out'))).
Proof. intros Hne. rewrite !fst_minimax. apply minimax_value_swap. exact Hne. Qed.

Lemma minimax_swap_players_witness :
  fst (minimax 6 0 true "O" "X" true (World row_board []))
  = rmap neg_score (fst (minimax 6 0 false "X" "O" false (World row_board []))).
Proof. apply (minimax_swap_players 6 0 false "X" "O"). discriminate. Defined.

(** ** The range of the scores *)

Lemma blanks_le_length (b : board) : blanks b <= length b.
Proof.
  induction b as [| c b IH]; [reflexivity |].
  rewrite blanks_cons. cbn [length]. destruct (String.eqb c " "); lia.
Qed.

Section Bounds.

Variables ai_player hu_player : string.
Hypothesis ai_mark : ai_player <> " ".
Hypothesis hu_mark : hu_player <> " ".

(** A score at depth [d] lies between [d - 10] and [10 - d]; at a node that is
    not a win of the AI it is at most [9 - d]. *)
Lemma minimax_value_bounds (fuel : nat) (depth : Z) (is_maximizing : bool)
    (b : board) (s : score) :
  9 <= length b -> known_lines ai_player hu_player b ->
  (0 <= depth)%Z -> (depth + Z.of_nat (blanks b) <= 10)%Z ->
  minimax_value fuel depth is_maximizing ai_player hu_player b = Ok s ->
  exists z, s = Fin z /\ (depth - 10 <= z <= 10 - depth)%Z
            /\ (winner_is (outcome_of b) ai_player = false -> (depth <= 9)%Z ->
                (z <= 9 - depth)%Z).
Proof.
  revert depth is_maximizing b s.
  induction fuel as [| fuel IH]; intros depth is_maximizing b s Hlen Hk Hd Hsum;
    [discriminate |].
  intros Hv. pose proof (minimax_value_finite ai_player hu_player _ _ _ _ _ Hlen Hk Hv) as F.
  revert Hv. cbn [minimax_value]. rewrite (check_winner_in_range b Hlen). cbn [rbind].
  destruct (winner_is (outcome_of b) ai_player) eqn:Eai.
  { intros [= <-]. eexists. split; [reflexivity |]. split; [lia | discriminate]. }
  destruct (winner_is (outcome_of b) hu_player) eqn:Ehu.
  { intros [= <-]. eexists. split; [reflexivity |]. split; lia. }
  destruct (winner_is (outcome_of b) "Tie") eqn:Etie.
  { intros [= <-]. eexists. split; [reflexivity |]. split; lia. }
  assert (Hnone : first_line b WIN_COMBINATIONS = None).
  { unfold outcome_of in *. destruct Hk as [Hk | [Hk | Hk]]; [exact Hk | |];
      rewrite Hk in *.
    - rewrite winner_is_refl in Eai. discriminate.
    - rewrite winner_is_refl in Ehu. discriminate. }
  assert (Hchild : forall symbol m s',
            symbol = ai_player \/ symbol = hu_player -> m ∈ available_moves b ->
            forall mx, minimax_value fuel (depth + 1) mx ai_player hu_player
                         (<[m:=symbol]> b) = Ok s' ->
            exists z, s' = Fin z /\ (depth - 9 <= z <= 9 - depth)%Z).
  { intros symbol m s' Hs Hm mx Hv. apply available_blank in Hm.
    assert (Hsym : symbol <> " ") by (destruct Hs as [-> | ->]; assumption).
    pose proof (blanks_insert b m symbol Hm Hsym) as Hb.
    destruct (IH (depth + 1)%Z mx (<[m:=symbol]> b) s') as (z & -> & Hz & _);
      [rewrite length_insert; exact Hlen | apply known_lines_mark; assumption
      | lia | lia | exact Hv |].
    exists z. split; [reflexivity | lia]. }
  destruct is_maximizing; intros Hv.
  - apply max_value_among in Hv as ([-> | (m & Hm & Em)] & _); [destruct F |].
    destruct (Hchild ai_player m s (or_introl eq_refl) Hm false Em) as (z & -> & Hz).
    exists z. split; [reflexivity |]. split; lia.
  - apply min_value_among in Hv as ([-> | (m & Hm & Em)] & _); [destruct F |].
    destruct (Hchild hu_player m s (or_intror eq_refl) Hm true Em) as (z & -> & Hz).
    exists z. split; [reflexivity |]. split; lia.
Qed.

End Bounds.

(** X5. On a board of nine cells or more whose first completed line, if any,
    is a player's, at a depth [d >= 0] with [d] plus the number of empty cells
    at most 10 (so for every call below [best_move] on a board of nine
    cells), every score [minimax] returns is an integer between [d - 10] and
    [10 - d].  The marks are not the empty cell. *)
Theorem minimax_score_range (fuel : nat) (depth : Z) (is_maximizing : bool)
    (ai_player hu_player : string) (print_tree : bool) (w w' : world) (s : score) :
  ai_player <> " " -> hu_player <> " " ->
  9 <= length (cells w) -> known_lines ai_player hu_player (cells w) ->
  (0 <= depth)%Z -> (depth + Z.of_nat (blanks (cells w)) <= 10)%Z ->
  minimax fuel depth is_maximizing ai_player hu_player print_tree w = (Ok s, w') ->
  exists z, s = Fin z /\ (depth - 10 <= z <= 10 - depth)%Z.
Proof.
  intros Hai Hhu Hlen Hk Hd Hsum H.
  pose proof (fst_minimax fuel depth is_maximizing ai_player hu_player print_tree w) as E.
  rewrite H in E. cbn [fst] in E. symmetry in E.
  destruct (minimax_value_bounds ai_player hu_player Hai Hhu _ _ _ _ _ Hlen Hk Hd Hsum E)
    as (z & -> & Hz & _).
  eauto.
Qed.

Lemma minimax_score_range_witness :
  exists z, Fin (-9) = Fin z /\ (0 - 10 <= z <= 10 - 0)%Z.
Proof.
  apply (minimax_score_range 6 0 false "X" "O" true (World row_board [])
           (snd (run (minimax 6 0 false "X" "O" true) row_board)) (Fin (-9))).
  - discriminate.
  - discriminate.
  - simpl. lia.
  - left. reflexivity.
  - lia.
  - vm_compute. discriminate.
  - vm_compute. reflexivity.
Defined.

(** ** A win in one move is taken *)

Lemma winner_is_Some (w : option string) (x : string) :
  winner_is w x = true <-> w = Some x.
Proof.
  destruct w as [y |]; cbn [winner_is]; [| split; discriminate].
  rewrite String.eqb_eq. split; congruence.
Qed.

(** X6. On a board of nine cells in progress on which some empty cell
    completes a line of the AI, [best_move] returns the first such cell, with
    the score 10.  (Marks other than the empty cell, one stack frame per
    empty cell.) *)
Theorem best_move_takes_win (P : bool) (fuel : nat) (ai_player hu_player : string)
    (b : board) (out : list string) (m0 : nat) :
  length b = 9 -> ai_player <> " " -> hu_player <> " " -> blanks b <= fuel ->
  check_winner b = Ok None ->
  b !! m0 = Some " " -> check_winner (<[m0:=ai_player]> b) = Ok (Some ai_player) ->
  exists m out',
    best_move P fuel ai_player hu_player (World b out) = (Ok m, World b out')
    /\ b !! m = Some " "
    /\ check_winner (<[m:=ai_player]> b) = Ok (Some ai_player)
    /\ candidate_score fuel ai_player hu_player b m = Ok (Fin 10)
    /\ forall m', m' < m -> b !! m' = Some " " ->
         check_winner (<[m':=ai_player]> b) <> Ok (Some ai_player).
Proof.
  intros Hlen9 Hai Hhu Hfuel Hcw Hm0 Hwin0.
  assert (Hlen : 9 <= length b) by lia.
  rewrite (check_winner_in_range b Hlen) in Hcw. injection Hcw as Hout.
  apply outcome_of_None in Hout as [Hline _].
  pose proof (blanks_le_length b) as Hbl.
  (* every candidate: 10 when it wins, at most 9 otherwise *)
  assert (Hcand : forall m, b !! m = Some " " ->
            exists z, candidate_score fuel ai_player hu_player b m = Ok (Fin z)
                      /\ (check_winner (<[m:=ai_player]> b) = Ok (Some ai_player)
                          -> z = 10%Z)
                      /\ (check_winner (<[m:=ai_player]> b) <> Ok (Some ai_player)
                          -> (z <= 9)%Z)).
  { intros m Hm. rewrite candidate_score_value.
    pose proof (blanks_insert b m ai_player Hm Hai) as Hb.
    assert (Hlen' : 9 <= length (<[m:=ai_player]> b))
      by (rewrite length_insert; exact Hlen).
    destruct (minimax_value_total ai_player hu_player Hai Hhu fuel 0 false
                (<[m:=ai_player]> b) Hlen') as [s Hs]; [lia |].
    pose proof (known_lines_mark ai_player hu_player b m ai_player Hm Hline
                  (or_introl eq_refl)) as Hk.
    destruct (minimax_value_bounds ai_player hu_player Hai Hhu fuel 0 false _ s
                Hlen' Hk) as (z & -> & _ & Hnot); [lia | lia | exact Hs |].
    exists z. split; [exact Hs |].
    rewrite (check_winner_in_range _ Hlen'). split.
    - intros [= Hw]. destruct fuel as [| fuel']; [discriminate Hs |].
      cbn [minimax_value] in Hs. rewrite (check_winner_in_range _ Hlen') in Hs.
      cbn [rbind] in Hs. rewrite Hw, winner_is_refl in Hs. injection Hs as <-.
      reflexivity.
    - intros Hw. assert (Hz : (z <= 9 - 0)%Z); [| lia]. apply Hnot; [| lia].
      destruct (winner_is (outcome_of (<[m:=ai_player]> b)) ai_player) eqn:E;
        [| reflexivity].
      apply winner_is_Some in E. rewrite E in Hw. destruct Hw. reflexivity. }
  assert (Hfin : forall m, b !! m = Some " " ->
            exists z, candidate_score fuel ai_player hu_player b m = Ok (Fin z)).
  { intros m Hm. destruct (Hcand m Hm) as (z & Hz & _). eauto. }
  destruct (best_choice_first fuel ai_player hu_player b (blank_moves b m0 Hm0) Hfin)
    as (m & z & Hc & Hm & Hz & Hmax).
  apply best_move_value_choice in Hc.
  destruct (best_move_of_value P fuel ai_player hu_player b out _ Hc) as [_ Hrun].
  destruct (Hrun m eq_refl) as [out' E].
  destruct (Hcand m0 Hm0) as (z0 & Hz0 & Hten0 & _). specialize (Hten0 Hwin0). subst z0.
  destruct (Hmax m0 10%Z Hm0 Hz0) as [Hge _].
  destruct (Hcand m Hm) as (z1 & Hz1 & Hten & Hnine).
  rewrite Hz in Hz1. injection Hz1 as <-.
  assert (Hwin : check_winner (<[m:=ai_player]> b) = Ok (Some ai_player)).
  { destruct (check_winner (<[m:=ai_player]> b)) as [[x |] | e] eqn:Ec;
      try (assert (z <= 9)%Z by (apply Hnine; discriminate); lia).
    destruct (decide (x = ai_player)) as [-> | Hx]; [reflexivity |].
    assert (z <= 9)%Z by (apply Hnine; congruence). lia. }
  exists m, out'. split; [exact E |]. split; [exact Hm |]. split; [exact Hwin |].
  split; [rewrite Hz, (Hten Hwin); reflexivity |].
  intros m' Hlt Hm' Hwin'.
  destruct (Hcand m' Hm') as (z' & Hz' & Hten' & _). specialize (Hten' Hwin'). subst z'.
  destruct (Hmax m' 10%Z Hm' Hz') as [_ Hstrict]. specialize (Hstrict Hlt).
  specialize (Hten Hwin). lia.
Qed.

Lemma best_move_takes_win_witness :
  exists m out',
    best_move true 5 "X" "O" (World row_board []) = (Ok m, World row_board out')
    /\ row_board !! m = Some " "
    /\ check_winner (<[m:="X"]> row_board) = Ok (Some "X")
    /\ candidate_score 5 "X" "O" row_board m = Ok (Fin 10)
    /\ forall m', m' < m -> row_board !! m' = Some " " ->
         check_winner (<[m':="X"]> row_board) <> Ok (Some "X").
Proof.
  apply (best_move_takes_win true 5 "X" "O" row_board [] 2).
  - reflexivity.
  - discriminate.
  - discriminate.
  - vm_compute. lia.
  - reflexivity.
  - reflexivity.
  - reflexivity.
Defined.

(** ** What an exception leaves on the board *)

Lemma keeps_refl (b : board) : keeps b b.
Proof. split; auto. Qed.

Lemma keeps_trans (b1 b2 b3 : board) : keeps b1 b2 -> keeps b2 b3 -> keeps b1 b3.
Proof.
  intros [L1 K1] [L2 K2]. split; [congruence |].
  intros i c Hi Hc. apply K2; [apply K1 |]; assumption.
Qed.

Lemma keeps_mark (b : board) (m : nat) (symbol : string) :
  b !! m = Some " " -> keeps b (<[m:=symbol]> b).
Proof.
  intros Hm. split; [apply length_insert |].
  intros i c Hi Hc. rewrite list_lookup_insert_ne; [exact Hi |].
  intros ->. rewrite Hm in Hi. injection Hi as <-. apply Hc. reflexivity.
Qed.

Section Loops_keep.

Variable rec : M score.
Variable value : board -> result score.
Hypothesis rec_computes : computes rec value.
Hypothesis rec_keeps : forall w, keeps (cells w) (cells (snd (rec w))).
Variables (symbol : string) (print_tree : bool) (indent : string).

Lemma trial_leaves {A : Type} (b : board) (move : nat) (rest : list nat)
    (out : list string) (e : exn) (w' : world) (r : result score) :
  b !! move = Some " " ->
  rec (World (<[move:=symbol]> b) out) = (r, w') ->
  @loop_leaves A symbol b (move :: rest) (Raise e, w').
Proof.
  intros Hb E. pose proof (rec_keeps (World (<[move:=symbol]> b) out)) as K.
  rewrite E in K. cbn [cells snd] in K. split; cbn [fst snd].
  - eapply keeps_trans; [apply keeps_mark; exact Hb | exact K].
  - intros _ _ Hs. exists move. split; [left |]. apply K; [| exact Hs].
    apply list_lookup_insert_eq. eapply lookup_lt_Some. exact Hb.
Qed.

Lemma loop_leaves_cons {A : Type} (b : board) (move : nat) (rest : list nat)
    (x : result A * world) :
  loop_leaves symbol b rest x -> loop_leaves symbol b (move :: rest) x.
Proof.
  intros [K R]. split; [exact K |]. intros e He Hs.
  destruct (R e He Hs) as (m & Hm & Hc). exists m. split; [right; exact Hm | exact Hc].
Qed.

Lemma max_loop_leaves (moves : list nat) (best : score) (b : board) (out : list string) :
  (forall m, m ∈ moves -> b !! m = Some " ") ->
  loop_leaves symbol b moves (max_loop rec symbol print_tree indent moves best (World b out)).
Proof.
  revert best out. induction moves as [| move rest IH]; intros best out Hm.
  - split; [apply keeps_refl | discriminate].
  - assert (Hb : b !! move = Some " ") by (apply Hm; left).
    assert (Hlt : move < length b) by (eapply lookup_lt_Some; exact Hb).
    cbn [max_loop].
    rewrite (bind_Ok _ _ _ _ _ (setitem_run b out move symbol Hlt)).
    skip_print.
    match goal with |- context [bind rec ?k (World _ ?o)] =>
      pose proof (trial_run rec value rec_computes symbol move b o k Hb) as T;
      destruct (rec (World (<[move:=symbol]> b) o)) as [r1 w1] eqn:E1;
      pose proof (rec_computes (World (<[move:=symbol]> b) o)) as (w2 & E2 & _);
      rewrite E1 in E2; injection E2 as Hr1 _ end.
    cbn [cells] in Hr1. rewrite <- Hr1 in T. destruct r1 as [s | e].
    + destruct T as [out1 ->].
      rewrite (bind_Ok _ _ _ _ _ (setitem_run _ out1 move " "
                 ltac:(rewrite length_insert; exact Hlt))).
      rewrite (undo_mark b move symbol Hb).
      skip_print. apply loop_leaves_cons, IH. intros m Hin. apply Hm. right. exact Hin.
    + rewrite (bind_Raise _ _ _ _ _ E1). eapply trial_leaves; eassumption.
Qed.

Lemma min_loop_leaves (moves : list nat) (best : score) (b : board) (out : list string) :
  (forall m, m ∈ moves -> b !! m = Some " ") ->
  loop_leaves symbol b moves (min_loop rec symbol print_tree indent moves best (World b out)).
Proof.
  revert best out. induction moves as [| move rest IH]; intros best out Hm.
  - split; [apply keeps_refl | discriminate].
  - assert (Hb : b !! move = Some " ") by (apply Hm; left).
    assert (Hlt : move < length b) by (eapply lookup_lt_Some; exact Hb).
    cbn [min_loop].
    rewrite (bind_Ok _ _ _ _ _ (setitem_run b out move symbol Hlt)).
    skip_print.
    match goal with |- context [bind rec ?k (World _ ?o)] =>
      pose proof (trial_run rec value rec_computes symbol move b o k Hb) as T;
      destruct (rec (World (<[move:=symbol]> b) o)) as [r1 w1] eqn:E1;
      pose proof (rec_computes (World (<[move:=symbol]> b) o)) as (w2 & E2 & _);
      rewrite E1 in E2; injection E2 as Hr1 _ end.
    cbn [cells] in Hr1. rewrite <- Hr1 in T. destruct r1 as [s | e].
    + destruct T as [out1 ->].
      rewrite (bind_Ok _ _ _ _ _ (setitem_run _ out1 move " "
                 ltac:(rewrite length_insert; exact Hlt))).
      rewrite (undo_mark b move symbol Hb).
      skip_print. apply loop_leaves_cons, IH. intros m Hin. apply Hm. right. exact Hin.
    + rewrite (bind_Raise _ _ _ _ _ E1). eapply trial_leaves; eassumption.
Qed.

Lemma choice_loop_leaves (moves : list nat) (best : score) (choice : option nat)
    (b : board) (out : list string) :
  (forall m, m ∈ moves -> b !! m = Some " ") ->
  loop_leaves symbol b moves (choice_loop rec symbol moves best choice (World b out)).
Proof.
  revert best choice out. induction moves as [| move rest IH]; intros best choice out Hm.
  - split; [apply keeps_refl | discriminate].
  - assert (Hb : b !! move = Some " ") by (apply Hm; left).
    assert (Hlt : move < length b) by (eapply lookup_lt_Some; exact Hb).
    cbn [choice_loop].
    rewrite (bind_Ok _ _ _ _ _ (setitem_run b out move symbol Hlt)).
    skip_print.
    match goal with |- context [bind rec ?k (World _ ?o)] =>
      pose proof (trial_run rec value rec_computes symbol move b o k Hb) as T;
      destruct (rec (World (<[move:=symbol]> b) o)) as [r1 w1] eqn:E1;
      pose proof (rec_computes (World (<[move:=symbol]> b) o)) as (w2 & E2 & _);
      rewrite E1 in E2; injection E2 as Hr1 _ end.
    cbn [cells] in Hr1. rewrite <- Hr1 in T. destruct r1 as [s | e].
    + destruct T as [out1 ->].
      rewrite (bind_Ok _ _ _ _ _ (setitem_run _ out1 move " "
                 ltac:(rewrite length_insert; exact Hlt))).
      rewrite (undo_mark b move symbol Hb).
      skip_print.
      destruct (score_gt s best); apply loop_leaves_cons, IH;
        intros m Hin; apply Hm; right; exact Hin.
    + rewrite (bind_Raise _ _ _ _ _ E1). eapply trial_leaves; eassumption.
Qed.

End Loops_keep.

Lemma minimax_step_leaves (fuel : nat) (ai_player hu_player : string) (print_tree : bool) :
  (forall depth is_maximizing w,
     keeps (cells w)
       (cells (snd (minimax fuel depth is_maximizing ai_player hu_player print_tree w)))) ->
  forall depth is_maximizing b out,
    let x := minimax (S fuel) depth is_maximizing ai_player hu_player print_tree
               (World b out) in
    keeps b (cells (snd x))
    /\ forall e w0, fst x = Raise e -> check_winner b = Ok w0 ->
         (if is_maximizing then ai_player else hu_player) <> " " ->
         exists m, b !! m = Some " "
                   /\ cells (snd x) !! m
                      = Some (if is_maximizing then ai_player else hu_player).
Proof.
  intros Hrec depth is_maximizing b out. cbn zeta. cbn [minimax].
  destruct (check_winner b) as [winner | e0] eqn:Ew.
  2:{ rewrite (bind_Raise (lift check_winner) _ (World b out) (World b out) e0)
        by (unfold lift; cbn [cells]; rewrite Ew; reflexivity).
      split; [apply keeps_refl | discriminate]. }
  rewrite (bind_Ok (lift check_winner) _ (World b out) (World b out) winner)
    by (unfold lift; cbn [cells]; rewrite Ew; reflexivity).
  destruct (winner_is winner ai_player).
  { skip_print. split; [apply keeps_refl | discriminate]. }
  destruct (winner_is winner hu_player).
  { skip_print. split; [apply keeps_refl | discriminate]. }
  destruct (winner_is winner "Tie").
  { skip_print. split; [apply keeps_refl | discriminate]. }
  rewrite (bind_Ok get_board _ (World b out) (World b out) b eq_refl).
  destruct is_maximizing; skip_print.
  - pose proof (max_loop_leaves _ _ (minimax_run fuel (depth + 1) false ai_player
                  hu_player print_tree) (Hrec (depth + 1)%Z false) ai_player print_tree
                  (str_mul "  " depth) (available_moves b) NegInf b out0
                  (available_blank b)) as [K R].
    destruct (max_loop _ _ _ _ _ _ _) as [[s | e] [b1 out1]] eqn:El.
    + rewrite (bind_Ok _ _ _ _ _ El). skip_print. split; [exact K | discriminate].
    + rewrite (bind_Raise _ _ _ _ _ El). split; [exact K |].
      intros e' w0 _ _ Hs. destruct (R e eq_refl Hs) as (m & Hm & Hc).
      exists m. split; [apply available_blank; exact Hm | exact Hc].
  - pose proof (min_loop_leaves _ _ (minimax_run fuel (depth + 1) true ai_player
                  hu_player print_tree) (Hrec (depth + 1)%Z true) hu_player print_tree
                  (str_mul "  " depth) (available_moves b) PosInf b out0
                  (available_blank b)) as [K R].
    destruct (min_loop _ _ _ _ _ _ _) as [[s | e] [b1 out1]] eqn:El.
    + rewrite (bind_Ok _ _ _ _ _ El). skip_print. split; [exact K | discriminate].
    + rewrite (bind_Raise _ _ _ _ _ El). split; [exact K |].
      intros e' w0 _ _ Hs. destruct (R e eq_refl Hs) as (m & Hm & Hc).
      exists m. split; [apply available_blank; exact Hm | exact Hc].
Qed.

Lemma minimax_keeps (fuel : nat) (depth : Z) (is_maximizing : bool)
    (ai_player hu_player : string) (print_tree : bool) (w : world) :
  keeps (cells w)
    (cells (snd (minimax fuel depth is_maximizing ai_player hu_player print_tree w))).
Proof.
  revert depth is_maximizing w.
  induction fuel as [| fuel IH]; intros depth is_maximizing [b out].
  - apply keeps_refl.
  - apply (minimax_step_leaves fuel ai_player hu_player print_tree IH).
Qed.

Lemma best_move_leaves (P : bool) (fuel : nat) (ai_player hu_player : string)
    (b : board) (out : list string) :
  let x := best_move P fuel ai_player hu_player (World b out) in
  keeps b (cells (snd x))
  /\ forall e, fst x = Raise e -> e <> TypeError -> ai_player <> " " ->
       exists m, b !! m = Some " " /\ cells (snd x) !! m = Some ai_player.
Proof.
  cbn zeta. unfold best_move.
  do 3 skip_print.
  rewrite (bind_Ok get_board _ (World b _) (World b _) b eq_refl).
  skip_print.
  match goal with |- context [bind (print_board_state P ?d ?s) ?k (World b ?o)] =>
    destruct (print_board_state_run P d s b o) as [out1 E1];
    rewrite (bind_Ok _ k _ _ _ E1); clear E1 end.
  skip_print.
  match goal with |- context [bind (choice_loop ?r ?a ?ms ?bs ?c) ?k (World b ?o)] =>
    pose proof (choice_loop_leaves _ _ (minimax_run fuel 0 false ai_player hu_player true)
                  (minimax_keeps fuel 0 false ai_player hu_player true)
                  ai_player ms bs c b o (available_blank b)) as [K R];
    destruct (choice_loop r a ms bs c (World b o)) as [[[s c'] | e] [b1 o1]] eqn:El end.
  - rewrite (bind_Ok _ _ _ _ _ El). cbn [snd fst]. skip_print.
    destruct c' as [move_choice |].
    + do 2 skip_print. split; [exact K | discriminate].
    + split; [exact K |]. intros e [= <-] Hne. destruct Hne. reflexivity.
  - rewrite (bind_Raise _ _ _ _ _ El). split; [exact K |].
    intros e' _ _ Hs. destruct (R e eq_refl Hs) as (m & Hm & Hc).
    exists m. split; [apply available_blank; exact Hm | exact Hc].
Qed.

(** X7. Whatever the outcome of the search, exception included, [minimax] and
    [best_move] leave the board with its length and with every mark it
    carried: only cells that were empty can differ. *)
Theorem search_keeps_marks (P : bool) (fuel : nat) (depth : Z) (is_maximizing : bool)
    (ai_player hu_player : string) (print_tree : bool) (w : world) :
  keeps (cells w)
    (cells (snd (minimax fuel depth is_maximizing ai_player hu_player print_tree w)))
  /\ keeps (cells w) (cells (snd (best_move P fuel ai_player hu_player w))).
Proof.
  split; [apply minimax_keeps |]. destruct w as [b out].
  apply (best_move_leaves P fuel ai_player hu_player b out).
Qed.

(** X8. The trial moves are not undone when an exception other than
    [RecursionError] passes, that is the [IndexError] of [check_winner] on a
    board that is too short: when [minimax], on a board on which
    [check_winner] itself raises nothing, ends with such an exception, some
    cell that was empty holds the mark of the level; when [best_move] ends
    with such an exception, other than the [TypeError] of its decision line,
    some cell that was empty holds the AI's mark.  (The marks are not the
    empty cell.  [RecursionError] is left out: the interpreter can raise it
    before the first trial move of a level, in a call whose frame the fuel
    does not count.) *)
Theorem exception_leaves_trial_mark (P : bool) (fuel : nat) (depth : Z)
    (is_maximizing : bool) (ai_player hu_player : string) (print_tree : bool)
    (b : board) (out : list string) (e : exn) (w' : world) :
  ai_player <> " " -> hu_player <> " " -> e <> RecursionError ->
  (forall w0, check_winner b = Ok w0 ->
     minimax fuel depth is_maximizing ai_player hu_player print_tree (World b out)
     = (Raise e, w') ->
     exists m, b !! m = Some " "
               /\ cells w' !! m = Some (if is_maximizing then ai_player else hu_player))
  /\ (e <> TypeError ->
      best_move P fuel ai_player hu_player (World b out) = (Raise e, w') ->
      exists m, b !! m = Some " " /\ cells w' !! m = Some ai_player).
Proof.
  intros Hai Hhu Hstack. split.
  - intros w0 Hw H. destruct fuel as [| fuel].
    { cbn [minimax] in H. unfold raise in H. injection H as <- _.
      destruct Hstack. reflexivity. }
    destruct (minimax_step_leaves fuel ai_player hu_player print_tree
                (fun d mx w => minimax_keeps fuel d mx ai_player hu_player print_tree w)
                depth is_maximizing b out) as [_ R].
    rewrite H in R. cbn [fst snd] in R. apply (R e w0 eq_refl Hw).
    destruct is_maximizing; assumption.
  - intros Hne H.
    destruct (best_move_leaves P fuel ai_player hu_player b out) as [_ R].
    rewrite H in R. cbn [fst snd] in R. apply (R e eq_refl Hne Hai).
Qed.

Lemma exception_leaves_trial_mark_witness :
  (exists m, short_board !! m = Some " "
             /\ cells (snd (run (minimax 2 0 true "X" "O" true) short_board)) !! m
                = Some "X")
  /\ (exists m, short_board !! m = Some " "
                /\ cells (snd (run (best_move true 1 "X" "O") short_board)) !! m
                   = Some "X").
Proof.
  destruct (exception_leaves_trial_mark true 2 0 true "X" "O" true short_board []
              IndexError (snd (run (minimax 2 0 true "X" "O" true) short_board)))
    as [Hminimax _]; [discriminate | discriminate | discriminate |].
  destruct (exception_leaves_trial_mark true 1 0 true "X" "O" true short_board []
              IndexError (snd (run (best_move true 1 "X" "O") short_board)))
    as [_ Hbest]; [discriminate | discriminate | discriminate |].
  split.
  - apply (Hminimax None); [reflexivity | vm_compute; reflexivity].
  - apply Hbest; [discriminate | vm_compute; reflexivity].
Defined.

(** ** The trace *)

Lemma framed_ret {A : Type} (a : A) : framed (ret a).
Proof. intros b out. unfold trace_of, run, ret. cbn. rewrite app_nil_r. reflexivity. Qed.

Lemma framed_raise {A : Type} (e : exn) : framed (@raise A e).
Proof. intros b out. unfold trace_of, run, raise. cbn. rewrite app_nil_r. reflexivity. Qed.

Lemma framed_print (s : string) : framed (print s).
Proof. intros b out. reflexivity. Qed.

Lemma framed_print_if (flag : bool) (s : string) : framed (print_if flag s).
Proof. destruct flag; [apply framed_print | apply (framed_ret tt)]. Qed.

Lemma framed_get_board : framed get_board.
Proof. intros b out. unfold trace_of, run, get_board. cbn. rewrite app_nil_r. reflexivity. Qed.

Lemma framed_lift {A : Type} (f : board -> result A) : framed (lift f).
Proof. intros b out. unfold trace_of, run, lift. cbn. rewrite app_nil_r. reflexivity. Qed.

Lemma framed_setitem (i : nat) (v : string) : framed (setitem i v).
Proof.
  intros b out. unfold trace_of, run, setitem. cbn [cells stdout].
  destruct (Nat.ltb i (length b)); cbn; rewrite app_nil_r; reflexivity.
Qed.

Lemma framed_bind {A B : Type} (m : M A) (k : A -> M B) :
  framed m -> (forall a, framed (k a)) -> framed (bind m k).
Proof.
  intros Hm Hk b out. unfold trace_of, run, bind. rewrite (Hm b out).
  unfold trace_of, run. destruct (m (World b [])) as [[a | e] [b1 t1]]; cbn [fst snd cells stdout].
  - rewrite (Hk a b1 (out ++ t1)), (Hk a b1 t1). cbn [fst snd cells stdout].
    rewrite app_assoc. reflexivity.
  - reflexivity.
Qed.

Lemma framed_stdout {A : Type} (m : M A) (b : board) (out : list string) :
  framed m -> stdout (snd (m (World b out))) = out ++ trace_of m b.
Proof. intros H. rewrite (H b out). reflexivity. Qed.

Section Loops_framed.

Variable rec : M score.
Hypothesis rec_framed : framed rec.
Variables (symbol : string) (print_tree : bool) (indent : string).

Lemma framed_max_loop (moves : list nat) (best : score) :
  framed (max_loop rec symbol print_tree indent moves best).
Proof.
  revert best. induction moves as [| move rest IH]; intros best; cbn [max_loop].
  - apply framed_ret.
  - repeat first [ apply framed_bind; [| intros ?] | apply framed_setitem
                 | apply framed_print_if | exact rec_framed | apply IH ].
Qed.

Lemma framed_min_loop (moves : list nat) (best : score) :
  framed (min_loop rec symbol print_tree indent moves best).
Proof.
  revert best. induction moves as [| move rest IH]; intros best; cbn [min_loop].
  - apply framed_ret.
  - repeat first [ apply framed_bind; [| intros ?] | apply framed_setitem
                 | apply framed_print_if | exact rec_framed | apply IH ].
Qed.

Lemma framed_choice_loop (moves : list nat) (best : score) (choice : option nat) :
  framed (choice_loop rec symbol moves best choice).
Proof.
  revert best choice. induction moves as [| move rest IH]; intros best choice;
    cbn [choice_loop].
  - apply framed_ret.
  - repeat first [ apply framed_bind; [| intros ?] | apply framed_setitem
                 | apply framed_print | exact rec_framed ].
    destruct (score_gt _ _); apply IH.
Qed.

End Loops_framed.

Lemma framed_minimax (fuel : nat) (depth : Z) (is_maximizing : bool)
    (ai_player hu_player : string) (print_tree : bool) :
  framed (minimax fuel depth is_maximizing ai_player hu_player print_tree).
Proof.
  revert depth is_maximizing. induction fuel as [| fuel IH]; intros depth is_maximizing.
  - apply framed_raise.
  - cbn [minimax]. apply framed_bind; [apply framed_lift | intros winner].
    repeat match goal with
           | |- framed (if ?c then _ else _) => destruct c
           | |- framed (bind _ _) => apply framed_bind; [| intros ?]
           | |- framed (print_if _ _) => apply framed_print_if
           | |- framed (ret _) => apply framed_ret
           | |- framed get_board => apply framed_get_board
           | |- framed (max_loop _ _ _ _ _ _) => apply framed_max_loop, IH
           | |- framed (min_loop _ _ _ _ _ _) => apply framed_min_loop, IH
           end.
Qed.

Lemma framed_print_board_state (P : bool) (depth : Z) (prefix : string) :
  framed (print_board_state P depth prefix).
Proof.
  unfold print_board_state. destruct P; cbn [negb]; [| apply framed_ret].
  apply framed_bind; [apply framed_get_board | intros b].
  apply framed_bind; [apply framed_print | intros _]. cbn [seq].
  repeat (apply framed_bind; [apply framed_print | intros _]).
  apply framed_ret.
Qed.

Lemma framed_best_move (P : bool) (fuel : nat) (ai_player hu_player : string) :
  framed (best_move P fuel ai_player hu_player).
Proof.
  unfold best_move.
  repeat match goal with
         | |- framed (bind _ _) => apply framed_bind; [| intros ?]
         | |- framed (print _) => apply framed_print
         | |- framed (ret _) => apply framed_ret
         | |- framed (raise _) => apply framed_raise
         | |- framed get_board => apply framed_get_board
         | |- framed (print_board_state _ _ _) => apply framed_print_board_state
         | |- framed (choice_loop _ _ _ _ _) => apply framed_choice_loop, framed_minimax
         | |- framed (match ?c with Some _ => _ | None => _ end) => destruct c
         end.
Qed.

(** X9. The trace only grows, and what it grows by does not depend on what
    was printed before: after [minimax] or [best_move], whatever the outcome,
    the standard output is the previous output followed by the lines the
    same call prints when it starts from an empty output. *)
Theorem trace_is_appended (P : bool) (fuel : nat) (depth : Z) (is_maximizing : bool)
    (ai_player hu_player : string) (print_tree : bool) (b : board) (out : list string) :
  stdout (snd (minimax fuel depth is_maximizing ai_player hu_player print_tree
                 (World b out)))
  = out ++ trace_of (minimax fuel depth is_maximizing ai_player hu_player print_tree) b
  /\ stdout (snd (best_move P fuel ai_player hu_player (World b out)))
     = out ++ trace_of (best_move P fuel ai_player hu_player) b.
Proof.
  split; apply framed_stdout; [apply framed_minimax | apply framed_best_move].
Qed.

Lemma silent_bind {A B : Type} (m : M A) (k : A -> M B) :
  silent m -> (forall a, silent (k a)) -> silent (bind m k).
Proof.
  intros Hm Hk w. unfold bind. specialize (Hm w).
  destruct (m w) as [[a | e] w1]; cbn [snd] in *; [| exact Hm].
  rewrite (Hk a w1). exact Hm.
Qed.

Lemma silent_ret {A : Type} (a : A) : silent (ret a).
Proof. intros w. reflexivity. Qed.

Lemma silent_setitem (i : nat) (v : string) : silent (setitem i v).
Proof. intros w. unfold setitem. destruct (Nat.ltb i (length (cells w))); reflexivity. Qed.

Section Loops_silent.

Variable rec : M score.
Hypothesis rec_silent : silent rec.
Variables (symbol indent : string).

Lemma silent_max_loop (moves : list nat) (best : score) :
  silent (max_loop rec symbol false indent moves best).
Proof.
  revert best. induction moves as [| move rest IH]; intros best; cbn [max_loop].
  - apply silent_ret.
  - repeat first [ apply silent_bind; [| intros ?] | apply silent_setitem
                 | apply (silent_ret tt) | exact rec_silent | apply IH ].
Qed.

Lemma silent_min_loop (moves : list nat) (best : score) :
  silent (min_loop rec symbol false indent moves best).
Proof.
  revert best. induction moves as [| move rest IH]; intros best; cbn [min_loop].
  - apply silent_ret.
  - repeat first [ apply silent_bind; [| intros ?] | apply silent_setitem
                 | apply (silent_ret tt) | exact rec_silent | apply IH ].
Qed.

End Loops_silent.

(** X10. With [print_tree] false [minimax] prints nothing, whatever the
    board, the depth of the search and its outcome, exception included. *)
Theorem minimax_silent (fuel : nat) (depth : Z) (is_maximizing : bool)
    (ai_player hu_player : string) (w : world) :
  stdout (snd (minimax fuel depth is_maximizing ai_player hu_player false w)) = stdout w.
Proof.
  revert depth is_maximizing w.
  induction fuel as [| fuel IH]; intros depth is_maximizing; [intros w; reflexivity |].
  change (silent (minimax (S fuel) depth is_maximizing ai_player hu_player false)).
  cbn [minimax]. apply silent_bind; [intros w; reflexivity | intros winner].
  repeat match goal with
         | |- silent (if ?c then _ else _) => destruct c
         | |- silent (bind _ _) => apply silent_bind; [| intros ?]
         | |- silent (print_if false _) => apply (silent_ret tt)
         | |- silent (ret _) => apply silent_ret
         | |- silent get_board => intros w; reflexivity
         | |- silent (max_loop _ _ _ _ _ _) => apply silent_max_loop; intros w; apply IH
         | |- silent (min_loop _ _ _ _ _ _) => apply silent_min_loop; intros w; apply IH
         end.
Qed.

Section Choice_trace.

Variable rec : M score.
Variable value : board -> result score.
Hypothesis rec_computes : computes rec value.
Hypothesis rec_framed : framed rec.
Variables (symbol : string) (b : board).

Lemma choice_loop_trace (moves : list nat) (best : score) (choice : option nat)
    (out : list string) (r : score * option nat) :
  (forall m, m ∈ moves -> b !! m = Some " ") ->
  choice_value value symbol b moves best choice = Ok r ->
  choice_loop rec symbol moves best choice (World b out)
  = (Ok r, World b (out ++ concat (map (turn rec value symbol b) moves))).
Proof.
  revert best choice out. induction moves as [| move rest IH];
    intros best choice out Hm; cbn [choice_loop choice_value map concat].
  - intros [= <-]. rewrite app_nil_r. reflexivity.
  - assert (Hb : b !! move = Some " ") by (apply Hm; left).
    assert (Hlt : move < length b) by (eapply lookup_lt_Some; exact Hb).
    rewrite (bind_Ok _ _ _ _ _ (setitem_run b out move symbol Hlt)).
    skip_print.
    destruct (rec_computes (World (<[move:=symbol]> b) [])) as ([b1 t1] & E & R).
    cbn [cells] in E, R.
    assert (Et : trace_of rec (<[move:=symbol]> b) = t1)
      by (unfold trace_of, run; rewrite E; reflexivity).
    unfold turn at 1. rewrite Et.
    destruct (value (<[move:=symbol]> b)) as [s | e]; [| discriminate].
    specialize (R s eq_refl). subst b1. cbn [rbind]. intros Hv.
    match goal with |- context [bind rec ?k (World _ ?o)] =>
      rewrite (bind_Ok rec k _ (World (<[move:=symbol]> b) (o ++ t1)) s) end.
    2:{ rewrite rec_framed. unfold trace_of, run. rewrite E. reflexivity. }
    rewrite (bind_Ok _ _ _ _ _ (setitem_run _ _ move " "
               ltac:(rewrite length_insert; exact Hlt))).
    rewrite (undo_mark b move symbol Hb).
    skip_print.
    assert (Hrest : forall m, m ∈ rest -> b !! m = Some " ")
      by (intros m Hin; apply Hm; right; exact Hin).
    destruct (score_gt s best); rewrite (IH _ _ _ Hrest Hv);
      do 2 f_equal; rewrite <- !app_assoc; reflexivity.
Qed.

End Choice_trace.

(** X11. The trace of a call of [best_move] that returns: three header lines
    and the count of the candidates; the picture of the board, present only
    when [PRINT_TREE] is set; an empty line; then for each empty cell, in
    ascending order, its header, the whole trace of [minimax] on the board
    with the trial mark and the line with its score; then the separator, the
    decision with the index returned and its score, and the closing line.
    The tree itself is printed under either setting of [PRINT_TREE]. *)
Theorem best_move_trace (P : bool) (fuel : nat) (ai_player hu_player : string)
    (b : board) (out : list string) (m : nat) (w' : world) :
  best_move P fuel ai_player hu_player (World b out) = (Ok m, w') ->
  exists s,
    candidate_score fuel ai_player hu_player b m = Ok s
    /\ stdout w'
       = out
         ++ [ newline +:+ str_mul "=" 60;
              "ÁRBOL DE BÚSQUEDA MINIMAX";
              str_mul "=" 60;
              "Evaluando " +:+ str_of_nat (length (available_moves b))
                +:+ " movimientos posibles desde el estado actual:" ]
         ++ (if P then board_picture b else [])
         ++ [ "" ]
         ++ concat (map (candidate_trace fuel ai_player hu_player b) (available_moves b))
         ++ [ newline +:+ str_mul "=" 60;
              "DECISIÓN: Mejor movimiento = posición " +:+ str_of_nat (m + 1)
                +:+ ", score = " +:+ str_of_score s;
              str_mul "=" 60 +:+ newline ].
Proof.
  intros H.
  assert (Hv : best_move_value fuel ai_player hu_player b = Ok m).
  { pose proof (fst_best_move P fuel ai_player hu_player (World b out)) as E.
    rewrite H in E. symmetry. exact E. }
  unfold best_move_value in Hv.
  destruct (best_choice fuel ai_player hu_player b) as [[s c] | e] eqn:Ec;
    [| discriminate].
  cbn [rbind snd] in Hv. destruct c as [m' |]; [| discriminate]. injection Hv as ->.
  exists s. split.
  { rewrite candidate_score_value. apply (best_choice_score _ _ _ _ _ _ Ec). }
  revert H. unfold best_move.
  do 3 skip_print.
  rewrite (bind_Ok get_board _ (World b _) (World b _) b eq_refl).
  skip_print.
  assert (Epic : forall o, print_board_state P 0 "" (World b o)
                           = (Ok tt, World b (o ++ if P then board_picture b else []))).
  { intros o. rewrite framed_print_board_state.
    destruct (print_board_state_run P 0 "" b []) as [t Et].
    unfold trace_of, run. rewrite Et. cbn [fst snd cells stdout].
    unfold board_picture, trace_of, run. destruct P.
    - rewrite Et. reflexivity.
    - injection Et as <-. reflexivity. }
  rewrite (bind_Ok _ _ _ _ _ (Epic _)).
  skip_print.
  unfold best_choice in Ec.
  rewrite (bind_Ok _ _ _ _ _
             (choice_loop_trace _ _ (minimax_run fuel 0 false ai_player hu_player true)
                (framed_minimax fuel 0 false ai_player hu_player true)
                ai_player b _ _ _ _ _ (available_blank b) Ec)).
  cbn [snd fst]. do 3 skip_print.
  intros [= <-]. cbn [stdout].
  rewrite (map_ext _ (candidate_trace fuel ai_player hu_player b)).
  2:{ intros move. unfold candidate_trace. rewrite candidate_score_value. reflexivity. }
  rewrite <- !app_assoc. reflexivity.
Qed.

Lemma best_move_trace_witness :
  exists s,
    candidate_score 1 "O" "X" last_cell_board 8 = Ok s
    /\ stdout (snd (run (best_move false 1 "O" "X") last_cell_board))
       = [] ++ [ newline +:+ str_mul "=" 60;
                 "ÁRBOL DE BÚSQUEDA MINIMAX";
                 str_mul "=" 60;
                 "Evaluando " +:+ str_of_nat (length (available_moves last_cell_board))
                   +:+ " movimientos posibles desde el estado actual:" ]
            ++ []
            ++ [ "" ]
            ++ concat (map (candidate_trace 1 "O" "X" last_cell_board)
                         (available_moves last_cell_board))
            ++ [ newline +:+ str_mul "=" 60;
                 "DECISIÓN: Mejor movimiento = posición " +:+ str_of_nat (8 + 1)
                   +:+ ", score = " +:+ str_of_score s;
                 str_mul "=" 60 +:+ newline ].
Proof.
  apply (best_move_trace false 1 "O" "X" last_cell_board [] 8
           (snd (run (best_move false 1 "O" "X") last_cell_board))).
  vm_compute. reflexivity.
Defined.

(** ** A threat is answered *)

Lemma known_lines_sym (ai_player hu_player : string) (b : board) :
  known_lines ai_player hu_player b -> known_lines hu_player ai_player b.
Proof. unfold known_lines. tauto. Qed.

(** At a node that is not a win of the human the score is at least
    [depth - 9]: the bound of [minimax_value_bounds] for the players
    exchanged. *)
Lemma minimax_value_lower (fuel : nat) (depth : Z) (is_maximizing : bool)
    (ai_player hu_player : string) (b : board) (z : Z) :
  ai_player <> " " -> hu_player <> " " -> ai_player <> hu_player ->
  9 <= length b -> known_lines ai_player hu_player b ->
  (0 <= depth <= 9)%Z -> (depth + Z.of_nat (blanks b) <= 10)%Z ->
  winner_is (outcome_of b) hu_player = false ->
  minimax_value fuel depth is_maximizing ai_player hu_player b = Ok (Fin z) ->
  (depth - 9 <= z)%Z.
Proof.
  intros Hai Hhu Hne Hlen Hk Hd Hsum Hw Hv.
  pose proof (minimax_value_swap fuel depth is_maximizing ai_player hu_player b Hne) as E.
  rewrite Hv in E. cbn [rmap neg_score] in E.
  destruct (minimax_value_bounds hu_player ai_player Hhu Hai fuel depth
              (negb is_maximizing) b _ Hlen (known_lines_sym _ _ _ Hk)
              ltac:(lia) Hsum E) as (z' & Hz' & _ & Hup).
  injection Hz' as <-. specialize (Hup Hw ltac:(lia)). lia.
Qed.

(** X12. On a board of nine cells in progress on which the AI has no win in
    one move while the human would complete a line on the empty cell [c]:
    every candidate other than [c] scores -9, and [best_move] returns [c]
    unless [c] scores no better.  (Distinct marks other than the empty cell,
    one stack frame per empty cell.) *)
Theorem best_move_blocks (P : bool) (fuel : nat) (ai_player hu_player : string)
    (b : board) (out : list string) (c : nat) :
  length b = 9 -> ai_player <> " " -> hu_player <> " " -> ai_player <> hu_player ->
  blanks b <= fuel -> check_winner b = Ok None ->
  (forall m, b !! m = Some " " ->
             check_winner (<[m:=ai_player]> b) <> Ok (Some ai_player)) ->
  b !! c = Some " " -> check_winner (<[c:=hu_player]> b) = Ok (Some hu_player) ->
  (forall m, b !! m = Some " " -> m <> c ->
             candidate_score fuel ai_player hu_player b m = Ok (Fin (-9)))
  /\ exists m out',
       best_move P fuel ai_player hu_player (World b out) = (Ok m, World b out')
       /\ (m = c
           \/ exists z, candidate_score fuel ai_player hu_player b c = Ok (Fin z)
                        /\ (z <= -9)%Z).
Proof.
  intros Hlen9 Hai Hhu Hne Hfuel Hcw Hnowin Hc Hthreat.
  assert (Hlen : 9 <= length b) by lia.
  rewrite (check_winner_in_range b Hlen) in Hcw. injection Hcw as Hout.
  apply outcome_of_None in Hout as [Hline _].
  pose proof (blanks_le_length b) as Hbl.
  assert (Hlenc : 9 <= length (<[c:=hu_player]> b))
    by (rewrite length_insert; exact Hlen).
  rewrite (check_winner_in_range _ Hlenc) in Hthreat. injection Hthreat as Hthreat.
  (* every candidate has an integer score *)
  assert (Hfin : forall m, b !! m = Some " " ->
            exists z, candidate_score fuel ai_player hu_player b m = Ok (Fin z)).
  { intros m Hm. rewrite candidate_score_value.
    pose proof (blanks_insert b m ai_player Hm Hai) as Hb.
    assert (Hlen' : 9 <= length (<[m:=ai_player]> b))
      by (rewrite length_insert; exact Hlen).
    destruct (minimax_value_total ai_player hu_player Hai Hhu fuel 0 false
                (<[m:=ai_player]> b) Hlen') as [s Hs]; [lia |].
    pose proof (minimax_value_finite ai_player hu_player fuel 0 false _ s Hlen'
                  (known_lines_mark ai_player hu_player b m ai_player Hm Hline
                     (or_introl eq_refl)) Hs) as F.
    destruct s as [| z |]; try destruct F. eauto. }
  (* a candidate other than [c] lets the human complete the line *)
  assert (Hother : forall m, b !! m = Some " " -> m <> c ->
            candidate_score fuel ai_player hu_player b m = Ok (Fin (-9))).
  { intros m Hm Hmc. destruct (Hfin m Hm) as [z Hz]. rewrite Hz. do 2 f_equal.
    rewrite candidate_score_value in Hz.
    pose proof (blanks_insert b m ai_player Hm Hai) as Hb.
    assert (Hlen' : 9 <= length (<[m:=ai_player]> b))
      by (rewrite length_insert; exact Hlen).
    assert (Hc' : <[m:=ai_player]> b !! c = Some " ")
      by (rewrite list_lookup_insert_ne; [exact Hc | exact Hmc]).
    pose proof (known_lines_mark ai_player hu_player b m ai_player Hm Hline
                  (or_introl eq_refl)) as Hk.
    assert (Hnone : first_line (<[m:=ai_player]> b) WIN_COMBINATIONS = None).
    { destruct (first_line (<[m:=ai_player]> b) WIN_COMBINATIONS) as [y |] eqn:E;
        [| reflexivity].
      destruct (first_line_mark b m ai_player Hm _ _ E) as [-> | E']; [| congruence].
      destruct (Hnowin m Hm). rewrite (check_winner_in_range _ Hlen').
      unfold outcome_of. rewrite E. reflexivity. }
    assert (Hblank : no_blank (<[m:=ai_player]> b) = false).
    { destruct (no_blank (<[m:=ai_player]> b)) eqn:E; [| reflexivity].
      apply no_blank_true in E. destruct E. apply list_elem_of_lookup. eauto. }
    assert (Hout : outcome_of (<[m:=ai_player]> b) = None)
      by (unfold outcome_of; rewrite Hnone, Hblank; reflexivity).
    assert (Hlow : (0 - 9 <= z)%Z).
    { apply (minimax_value_lower fuel 0 false ai_player hu_player
               (<[m:=ai_player]> b)); try assumption; try lia.
      rewrite Hout. reflexivity. }
    assert (Hup : (z <= -9)%Z); [| lia].
    destruct fuel as [| [| fuel]]; [discriminate Hz | |].
    { pose proof (blank_moves _ c Hc') as Hmv. unfold blanks in Hb, Hfuel.
      destruct (available_moves (<[m:=ai_player]> b)); [congruence |].
      cbn [length] in Hb. lia. }
    cbn [minimax_value] in Hz. rewrite (check_winner_in_range _ Hlen'), Hout in Hz.
    cbn [rbind winner_is] in Hz.
    apply min_value_among in Hz as (_ & _ & Hall).
    assert (Hchild : minimax_value (S fuel) (0 + 1) true ai_player hu_player
                       (<[c:=hu_player]> (<[m:=ai_player]> b)) = Ok (Fin (-9))).
    { cbn [minimax_value]. rewrite check_winner_in_range
        by (rewrite !length_insert; exact Hlen).
      assert (E : outcome_of (<[c:=hu_player]> (<[m:=ai_player]> b)) = Some hu_player).
      { unfold outcome_of.
        assert (Hm' : <[c:=hu_player]> b !! m = Some " ")
          by (rewrite list_lookup_insert_ne; [exact Hm | congruence]).
        pose proof (outcome_of_blank _ m _ Hm' Hthreat) as Hf.
        rewrite list_insert_insert_ne by congruence.
        destruct (first_line_mark_Some _ m ai_player Hm' _ _ Hf) as [E | E];
          rewrite E; [reflexivity |].
        rewrite list_insert_insert_ne in E by congruence.
        destruct (first_line_mark _ c hu_player Hc' _ _ E) as [E' | E']; congruence. }
      rewrite E. cbn [rbind winner_is].
      apply not_eq_sym, String.eqb_neq in Hne. rewrite Hne, String.eqb_refl.
      reflexivity. }
    specialize (Hall c (Fin (-9)) (proj2 (elem_of_available_moves _ c) Hc') Hchild).
    simpl in Hall. apply Z.ltb_ge in Hall. exact Hall. }
  split; [exact Hother |].
  destruct (best_choice_first fuel ai_player hu_player b (blank_moves b c Hc) Hfin)
    as (m & z & Hbest & Hm & Hz & Hmax).
  apply best_move_value_choice in Hbest.
  destruct (best_move_of_value P fuel ai_player hu_player b out _ Hbest) as [_ Hrun].
  destruct (Hrun m eq_refl) as [out' E].
  exists m, out'. split; [exact E |].
  destruct (decide (m = c)) as [-> | Hmc]; [left; reflexivity | right].
  rewrite (Hother m Hm Hmc) in Hz. injection Hz as <-.
  destruct (Hfin c Hc) as [zc Hzc]. exists zc. split; [exact Hzc |].
  apply (Hmax c zc Hc Hzc).
Qed.

(** O O . / X . . / . . X : the human (O) threatens cell 2, the AI (X) has no
    win in one move. *)
Lemma best_move_blocks_witness :
  exists m out',
    best_move true 9 "X" "O" (World ["O"; "O"; " "; "X"; " "; " "; " "; " "; "X"] [])
    = (Ok m, World ["O"; "O"; " "; "X"; " "; " "; " "; " "; "X"] out')
    /\ (m = 2
        \/ exists z, candidate_score 9 "X" "O"
                       ["O"; "O"; " "; "X"; " "; " "; " "; " "; "X"] 2 = Ok (Fin z)
                     /\ (z <= -9)%Z).
Proof.
  apply (best_move_blocks true 9 "X" "O"
           ["O"; "O"; " "; "X"; " "; " "; " "; " "; "X"] [] 2).
  - reflexivity.
  - discriminate.
  - discriminate.
  - discriminate.
  - vm_compute. lia.
  - reflexivity.
  - intros m Hm.
    do 9 (destruct m as [| m]; [try discriminate Hm; vm_compute; discriminate |]).
    destruct m; discriminate Hm.
  - reflexivity.
  - reflexivity.
Defined.

(** * Properties of the game *)

(** ** Counting marks *)

Lemma marks_cons (symbol c : string) (b : board) :
  marks symbol (c :: b) = ((if String.eqb symbol c then 1 else 0) + marks symbol b)%nat.
Proof. unfold marks. cbn [List.filter]. destruct (String.eqb symbol c); reflexivity. Qed.

Lemma marks_insert (b : board) (n : nat) (v symbol : string) :
  b !! n = Some " " -> symbol <> " " ->
  marks symbol (<[n:=v]> b)
  = ((if String.eqb symbol v then 1 else 0) + marks symbol b)%nat.
Proof.
  intros Hn Hs. revert n Hn. induction b as [| c b IH]; intros n Hn; [discriminate Hn |].
  destruct n as [| n]; cbn in Hn.
  - injection Hn as ->. change (<[0:=v]> (" " :: b)) with (v :: b).
    rewrite !marks_cons. apply String.eqb_neq in Hs. rewrite Hs. reflexivity.
  - change (<[S n:=v]> (c :: b)) with (c :: <[n:=v]> b).
    rewrite !marks_cons, (IH n Hn). lia.
Qed.

Lemma marks_replicate_blank (symbol : string) (n : nat) :
  symbol <> " " -> marks symbol (replicate n " ") = 0.
Proof.
  intros Hs. apply String.eqb_neq in Hs.
  induction n as [| n IH]; [reflexivity |]. cbn [replicate]. rewrite marks_cons, Hs. exact IH.
Qed.

(** A mark of the player to move on an empty cell gives a position again,
    with the other player to move. *)
Lemma position_mark (b : board) (n : nat) (v : string) :
  position b -> b !! n = Some " " -> v = to_move b ->
  position (<[n:=v]> b)
  /\ to_move (<[n:=v]> b) = (if String.eqb v "X" then "O" else "X").
Proof.
  intros (Hlen & Hcells & Hcount) Hn Hv. unfold position.
  rewrite length_insert.
  pose proof (marks_insert b n v "X" Hn ltac:(discriminate)) as HX.
  pose proof (marks_insert b n v "O" Hn ltac:(discriminate)) as HO.
  unfold to_move in Hv |- *. rewrite HX, HO. clear HX HO.
  destruct (Nat.eqb_spec (marks "X" b) (marks "O" b)) as [E | E]; subst v.
  - change (String.eqb "X" "X") with true. change (String.eqb "O" "X") with false.
    cbv iota. change (1 + marks "X" b)%nat with (S (marks "X" b)).
    change (0 + marks "O" b)%nat with (marks "O" b).
    split; [split; [exact Hlen | split; [| lia]] |].
    + apply Forall_insert; [exact Hcells | right; left; reflexivity].
    + destruct (Nat.eqb_spec (S (marks "X" b)) (marks "O" b)); [lia | reflexivity].
  - change (String.eqb "X" "O") with false. change (String.eqb "O" "O") with true.
    change (String.eqb "O" "X") with false.
    cbv iota. change (0 + marks "X" b)%nat with (marks "X" b).
    change (1 + marks "O" b)%nat with (S (marks "O" b)).
    split; [split; [exact Hlen | split; [| lia]] |].
    + apply Forall_insert; [exact Hcells | right; right; reflexivity].
    + destruct (Nat.eqb_spec (marks "X" b) (S (marks "O" b))); [reflexivity | lia].
Qed.

Lemma position_empty : position (replicate 9 " ") /\ to_move (replicate 9 " ") = "X".
Proof.
  unfold position, to_move.
  rewrite !marks_replicate_blank by discriminate. cbn.
  split; [| reflexivity]. split; [reflexivity |]. split; [| lia].
  repeat constructor.
Qed.

(** On a position the outcome is X, O, a tie or none. *)
Lemma position_outcome (b : board) (x : string) :
  Forall cell_ok b -> outcome_of b = Some x ->
  (x = "X" \/ x = "O" \/ x = "Tie") /\ TicTacToeGame.truthy (Some x) = true.
Proof.
  intros Hcells. unfold outcome_of.
  destruct (first_line b WIN_COMBINATIONS) as [y |] eqn:E.
  - intros [= <-]. apply first_line_Some in E as (l1 & t & l2 & _ & (H1 & _ & _ & Hy) & _).
    rewrite Forall_forall in Hcells.
    destruct (Hcells y) as [-> | [-> | ->]];
      [apply list_elem_of_lookup; eauto | congruence | |]; auto.
  - destruct (no_blank b); intros [= <-]. auto.
Qed.

(** ** The search on a position in progress *)

Lemma in_progress_best_move (P : bool) (fuel : nat) (ai_player hu_player : string)
    (b : board) (out : list string) :
  9 <= length b -> ai_player <> " " -> hu_player <> " " -> blanks b <= fuel ->
  check_winner b = Ok None ->
  exists m out',
    best_move P fuel ai_player hu_player (World b out) = (Ok m, World b out')
    /\ b !! m = Some " ".
Proof.
  intros Hlen Hai Hhu Hfuel Hcw.
  rewrite (check_winner_in_range b Hlen) in Hcw. injection Hcw as Hout.
  apply outcome_of_None in Hout as [Hline Hblank].
  destruct (no_blank_false b Hblank) as [m0 Hm0].
  assert (Hfin : forall m, b !! m = Some " " ->
            exists z, candidate_score fuel ai_player hu_player b m = Ok (Fin z)).
  { intros m Hm. rewrite candidate_score_value.
    pose proof (blanks_insert b m ai_player Hm Hai) as Hb.
    assert (Hlen' : 9 <= length (<[m:=ai_player]> b))
      by (rewrite length_insert; exact Hlen).
    destruct (minimax_value_total ai_player hu_player Hai Hhu fuel 0 false
                (<[m:=ai_player]> b) Hlen') as [s Hs]; [lia |].
    pose proof (minimax_value_finite ai_player hu_player fuel 0 false _ s Hlen'
                  (known_lines_mark ai_player hu_player b m ai_player Hm Hline
                     (or_introl eq_refl)) Hs) as F.
    destruct s as [| z |]; try destruct F. eauto. }
  destruct (best_choice_first fuel ai_player hu_player b (blank_moves b m0 Hm0) Hfin)
    as (m & z & Hc & Hm & _).
  apply best_move_value_choice in Hc.
  destruct (best_move_of_value P fuel ai_player hu_player b out _ Hc) as [_ Hrun].
  destruct (Hrun m eq_refl) as [out' E]. eauto.
Qed.

(** ** The index of a click *)

Lemma click_index (pos : Z * Z) :
  in_window pos ->
  (0 <= snd pos / TicTacToeGame.CELL_SIZE * TicTacToeGame.GRID_SIZE
        + fst pos / TicTacToeGame.CELL_SIZE < 9)%Z.
Proof.
  unfold in_window. change TicTacToeGame.WINDOW_SIZE with 600%Z.
  change TicTacToeGame.CELL_SIZE with 200%Z. change TicTacToeGame.GRID_SIZE with 3%Z.
  intros [Hx Hy]. Z.div_mod_to_equations. lia.
Qed.

Lemma py_index_inside (len : nat) (i : Z) :
  (0 <= i < Z.of_nat len)%Z -> TicTacToeGame.py_index len i = Some (Z.to_nat i).
Proof.
  intros H. unfold TicTacToeGame.py_index.
  destruct (Z.leb_spec 0 i), (Z.ltb_spec i (Z.of_nat len)); try lia. reflexivity.
Qed.

Lemma py_index_of_nat (len n : nat) :
  n < len -> TicTacToeGame.py_index len (Z.of_nat n) = Some n.
Proof. intros H. rewrite py_index_inside by lia. rewrite Nat2Z.id. reflexivity. Qed.

(** ** The sign of a score does not depend on the depth *)

Lemma sign_le (a b : score) : score_gt a b = false -> (sign a <= sign b)%Z.
Proof.
  destruct a as [| x |], b as [| y |]; cbn [score_gt sign]; try discriminate;
    try (pose proof (Z.sgn_spec x)); try (pose proof (Z.sgn_spec y)); try lia.
Qed.

Lemma sign_max (s best : score) :
  sign (if score_gt s best then s else best) = Z.max (sign s) (sign best).
Proof.
  destruct s as [| x |], best as [| y |]; cbn [score_gt sign];
    try (pose proof (Z.sgn_spec x)); try (pose proof (Z.sgn_spec y)); try lia.
  destruct (Z.ltb_spec y x); cbn [sign]; lia.
Qed.

Lemma sign_min (s best : score) :
  sign (if score_lt s best then s else best) = Z.min (sign s) (sign best).
Proof.
  unfold score_lt.
  destruct s as [| x |], best as [| y |]; cbn [score_gt sign];
    try (pose proof (Z.sgn_spec x)); try (pose proof (Z.sgn_spec y)); try lia.
  destruct (Z.ltb_spec x y); cbn [sign]; lia.
Qed.

Lemma sign_neg_score (s : score) : sign (neg_score s) = (- sign s)%Z.
Proof. destruct s; cbn [neg_score sign]; [reflexivity | apply Z.sgn_opp | reflexivity]. Qed.

Section Loops_sign.

Variables rec1 rec2 : board -> result score.
Variables (symbol : string) (b : board).

Lemma max_value_sign (moves : list nat) (best1 best2 : score) :
  (forall m, m ∈ moves ->
             rmap sign (rec1 (<[m:=symbol]> b)) = rmap sign (rec2 (<[m:=symbol]> b))) ->
  sign best1 = sign best2 ->
  rmap sign (max_value rec1 symbol b moves best1)
  = rmap sign (max_value rec2 symbol b moves best2).
Proof.
  revert best1 best2. induction moves as [| move rest IH]; intros best1 best2 H Hb;
    cbn [max_value].
  - cbn [rmap]. congruence.
  - pose proof (H move ltac:(left)) as Hm.
    destruct (rec1 (<[move:=symbol]> b)) as [s1 | e1],
             (rec2 (<[move:=symbol]> b)) as [s2 | e2];
      cbn [rmap] in Hm; try discriminate Hm; cbn [rbind]; [| exact Hm].
    injection Hm as Hm. apply IH; [intros m Hin; apply H; right; exact Hin |].
    rewrite !sign_max. congruence.
Qed.

Lemma min_value_sign (moves : list nat) (best1 best2 : score) :
  (forall m, m ∈ moves ->
             rmap sign (rec1 (<[m:=symbol]> b)) = rmap sign (rec2 (<[m:=symbol]> b))) ->
  sign best1 = sign best2 ->
  rmap sign (min_value rec1 symbol b moves best1)
  = rmap sign (min_value rec2 symbol b moves best2).
Proof.
  revert best1 best2. induction moves as [| move rest IH]; intros best1 best2 H Hb;
    cbn [min_value].
  - cbn [rmap]. congruence.
  - pose proof (H move ltac:(left)) as Hm.
    destruct (rec1 (<[move:=symbol]> b)) as [s1 | e1],
             (rec2 (<[move:=symbol]> b)) as [s2 | e2];
      cbn [rmap] in Hm; try discriminate Hm; cbn [rbind]; [| exact Hm].
    injection Hm as Hm. apply IH; [intros m Hin; apply H; right; exact Hin |].
    rewrite !sign_min. congruence.
Qed.

(** A loop that ends with a score has got a score from every child. *)
Lemma max_value_child (moves : list nat) (best s : score) (m : nat) :
  max_value rec1 symbol b moves best = Ok s -> m ∈ moves ->
  exists s', rec1 (<[m:=symbol]> b) = Ok s'.
Proof.
  revert best. induction moves as [| move rest IH]; intros best; cbn [max_value].
  - intros _ Hm. apply elem_of_nil in Hm. destruct Hm.
  - destruct (rec1 (<[move:=symbol]> b)) as [s1 | e] eqn:E; [| discriminate].
    cbn [rbind]. intros H Hm. apply elem_of_cons in Hm as [-> | Hm]; [eauto |].
    apply (IH _ H Hm).
Qed.

Lemma min_value_child (moves : list nat) (best s : score) (m : nat) :
  min_value rec1 symbol b moves best = Ok s -> m ∈ moves ->
  exists s', rec1 (<[m:=symbol]> b) = Ok s'.
Proof.
  revert best. induction moves as [| move rest IH]; intros best; cbn [min_value].
  - intros _ Hm. apply elem_of_nil in Hm. destruct Hm.
  - destruct (rec1 (<[move:=symbol]> b)) as [s1 | e] eqn:E; [| discriminate].
    cbn [rbind]. intros H Hm. apply elem_of_cons in Hm as [-> | Hm]; [eauto |].
    apply (IH _ H Hm).
Qed.

(** The score [best_move] keeps is the one a level MAX would return. *)
Lemma choice_value_max (moves : list nat) (best : score) (choice : option nat) :
  rmap fst (choice_value rec1 symbol b moves best choice)
  = max_value rec1 symbol b moves best.
Proof.
  revert best choice. induction moves as [| move rest IH]; intros best choice;
    cbn [choice_value max_value]; [reflexivity |].
  destruct (rec1 (<[move:=symbol]> b)) as [s1 | e]; [| reflexivity].
  cbn [rbind]. destruct (score_gt s1 best); apply IH.
Qed.

End Loops_sign.

Lemma best_choice_max_value (fuel : nat) (ai_player hu_player : string) (b : board) :
  rmap fst (best_choice fuel ai_player hu_player b)
  = max_value (minimax_value fuel 0 false ai_player hu_player) ai_player b
      (available_moves b) NegInf.
Proof. apply choice_value_max. Qed.

Lemma minimax_value_in_progress (fuel : nat) (depth : Z) (is_maximizing : bool)
    (ai_player hu_player : string) (b : board) :
  check_winner b = Ok None ->
  minimax_value (S fuel) depth is_maximizing ai_player hu_player b
  = if is_maximizing then
      max_value (minimax_value fuel (depth + 1) false ai_player hu_player)
        ai_player b (available_moves b) NegInf
    else
      min_value (minimax_value fuel (depth + 1) true ai_player hu_player)
        hu_player b (available_moves b) PosInf.
Proof. intros H. cbn [minimax_value]. rewrite H. reflexivity. Qed.

Section Unbeaten.

Variables ai_player hu_player : string.
Hypothesis ai_mark : ai_player <> " ".
Hypothesis hu_mark : hu_player <> " ".

(** Within the nine levels of a game a win scores more than 0 and a loss
    less, so the sign of a score is the same from whatever depth the search
    starts. *)
Lemma minimax_value_sign (fuel : nat) (d d' : Z) (is_maximizing : bool) (b : board) :
  (d + Z.of_nat (blanks b) < 10)%Z -> (d' + Z.of_nat (blanks b) < 10)%Z ->
  rmap sign (minimax_value fuel d is_maximizing ai_player hu_player b)
  = rmap sign (minimax_value fuel d' is_maximizing ai_player hu_player b).
Proof.
  revert d d' is_maximizing b.
  induction fuel as [| fuel IH]; intros d d' is_maximizing b Hd Hd'; [reflexivity |].
  cbn [minimax_value]. destruct (check_winner b) as [w | e]; [| reflexivity].
  cbn [rbind].
  destruct (winner_is w ai_player).
  { cbn [rmap sign]. rewrite !Z.sgn_pos by lia. reflexivity. }
  destruct (winner_is w hu_player).
  { cbn [rmap sign]. rewrite !Z.sgn_neg by lia. reflexivity. }
  destruct (winner_is w "Tie"); [reflexivity |].
  destruct is_maximizing.
  - apply max_value_sign; [| reflexivity]. intros m Hm. apply available_blank in Hm.
    pose proof (blanks_insert b m ai_player Hm ai_mark). apply IH; lia.
  - apply min_value_sign; [| reflexivity]. intros m Hm. apply available_blank in Hm.
    pose proof (blanks_insert b m hu_player Hm hu_mark). apply IH; lia.
Qed.

Lemma holds_out_of_depth (fuel : nat) (d : Z) (is_maximizing : bool) (b : board)
    (s : score) :
  (0 <= d)%Z -> (d + Z.of_nat (blanks b) < 10)%Z ->
  minimax_value fuel d is_maximizing ai_player hu_player b = Ok s -> (0 <= sign s)%Z ->
  holds_out ai_player hu_player is_maximizing b.
Proof.
  intros Hd Hb E Hs.
  assert (H : rmap sign (minimax_value fuel d is_maximizing ai_player hu_player b)
               = rmap sign (minimax_value fuel 0 is_maximizing ai_player hu_player b))
    by (apply minimax_value_sign; lia).
  rewrite E in H. cbn [rmap] in H.
  destruct (minimax_value fuel 0 is_maximizing ai_player hu_player b) as [s0 | e] eqn:E0;
    [| discriminate H].
  injection H as H. exists fuel, s0. split; [exact E0 | lia].
Qed.

Hypothesis distinct : ai_player <> hu_player.

(** A board the human has won scores less than 0. *)
Lemma not_lost (fuel : nat) (d : Z) (is_maximizing : bool) (b : board) (s : score)
    (x : string) :
  (d < 10)%Z -> minimax_value fuel d is_maximizing ai_player hu_player b = Ok s ->
  (0 <= sign s)%Z -> check_winner b = Ok (Some x) -> x <> hu_player.
Proof.
  intros Hd E Hs Hcw ->. destruct fuel as [| fuel]; [discriminate E |].
  cbn [minimax_value] in E. rewrite Hcw in E. cbn [rbind winner_is] in E.
  apply String.eqb_neq in distinct. rewrite String.eqb_sym in distinct.
  rewrite distinct, String.eqb_refl in E. injection E as <-.
  cbn [sign] in Hs. rewrite Z.sgn_neg in Hs by lia. lia.
Qed.

(** Whatever empty cell the human marks, the AI, to move, still holds out. *)
Lemma human_step (b : board) (n : nat) :
  holds_out ai_player hu_player false b -> check_winner b = Ok None ->
  b !! n = Some " " ->
  exists fuel s,
    minimax_value fuel 1 true ai_player hu_player (<[n:=hu_player]> b) = Ok s
    /\ (0 <= sign s)%Z.
Proof.
  intros (fuel & s & E & Hs) Hcw Hn. destruct fuel as [| fuel]; [discriminate E |].
  rewrite (minimax_value_in_progress _ _ _ _ _ _ Hcw) in E.
  apply elem_of_available_moves in Hn.
  destruct (min_value_child _ _ _ _ _ _ n E Hn) as [s' E'].
  apply min_value_among in E as (_ & _ & Hall).
  exists fuel, s'. split; [exact E' |].
  pose proof (sign_le _ _ (Hall n s' Hn E')). lia.
Qed.

(** The move [best_move] chooses keeps the AI from losing if any move does. *)
Lemma ai_step (limit : nat) (b : board) (m : nat) (sc : score) :
  holds_out ai_player hu_player true b -> check_winner b = Ok None ->
  blanks b <= 9 ->
  best_choice limit ai_player hu_player b = Ok (sc, Some m) ->
  minimax_value limit 0 false ai_player hu_player (<[m:=ai_player]> b) = Ok sc
  /\ (0 <= sign sc)%Z.
Proof.
  intros (fuel & s & E & Hs) Hcw Hb Hc. split; [apply (best_choice_score _ _ _ _ _ _ Hc) |].
  destruct fuel as [| fuel]; [discriminate E |].
  rewrite (minimax_value_in_progress _ _ _ _ _ _ Hcw) in E.
  apply max_value_among in E as ([-> | (c & Hin & Ec)] & _ & _);
    [cbn [sign] in Hs; lia |].
  pose proof (best_choice_max_value limit ai_player hu_player b) as Hmax.
  rewrite Hc in Hmax. cbn [rmap fst] in Hmax. symmetry in Hmax.
  destruct (max_value_child _ _ _ _ _ _ c Hmax Hin) as [sc' Ec'].
  apply max_value_among in Hmax as (_ & _ & Hall).
  pose proof (sign_le _ _ (Hall c sc' Hin Ec')) as Hle.
  apply (minimax_value_le _ (Nat.max fuel limit)) in Ec, Ec'; try lia.
  apply available_blank in Hin.
  pose proof (blanks_insert b c ai_player Hin ai_mark) as Hbl.
  assert (Hsign : rmap sign (minimax_value (Nat.max fuel limit) (0 + 1) false
                               ai_player hu_player (<[c:=ai_player]> b))
                  = rmap sign (minimax_value (Nat.max fuel limit) 0 false
                                 ai_player hu_player (<[c:=ai_player]> b)))
    by (apply minimax_value_sign; lia).
  rewrite Ec, Ec' in Hsign. injection Hsign as Hsign. lia.
Qed.

End Unbeaten.

(** On the empty board, X to move, the search finds a tie. *)
Lemma empty_board_tie :
  exists s, minimax_value 10 0 true "X" "O" empty_board = Ok s /\ sign s = 0%Z.
Proof.
  rewrite minimax_value_in_progress by reflexivity.
  assert (H : rmap sign (max_value (minimax_value 9 (0 + 1) false "X" "O") "X" empty_board
                           (available_moves empty_board) NegInf)
              = rmap sign (rmap fst (best_choice 9 "X" "O" empty_board))).
  { rewrite best_choice_max_value. apply max_value_sign; [| reflexivity].
    intros m Hm. apply available_blank in Hm.
    pose proof (blanks_insert empty_board m "X" Hm ltac:(discriminate)) as Hbl.
    change (blanks empty_board) with 9 in Hbl.
    apply minimax_value_sign; try discriminate; lia. }
  rewrite empty_board_choice in H. cbn [rmap fst sign Z.sgn] in H.
  destruct (max_value (minimax_value 9 (0 + 1) false "X" "O") "X" empty_board
              (available_moves empty_board) NegInf) as [s | e]; [| discriminate H].
  injection H as H. eauto.
Qed.

Lemma holds_out_empty_first : holds_out "X" "O" true (replicate 9 " ").
Proof.
  destruct empty_board_tie as (s & E & Hs). exists 10, s. split; [exact E | lia].
Qed.

Lemma holds_out_empty_second : holds_out "O" "X" false (replicate 9 " ").
Proof.
  destruct empty_board_tie as (s & E & Hs). exists 10, (neg_score s). split.
  - rewrite (minimax_value_swap 10 0 true "X" "O") by discriminate.
    change (replicate 9 " ") with empty_board. rewrite E. reflexivity.
  - rewrite sign_neg_score. lia.
Qed.

(** ** The methods one by one *)

Section Game_methods.

Import TicTacToeGame.

Variable collidepoint : rect -> Z * Z -> bool.
Variable rect_bool : rect -> bool.
Variable PRINT_TREE : bool.
Variable recursion_limit : nat.

Ltac gsimpl :=
  cbn [gbind gret get fail modify set_state set_board set_hu_player set_ai_player
       set_hu_turn set_winner set_button_rect gprint set_timer the_mark
       self console timer self_state self_board self_hu_player self_ai_player
       self_hu_turn self_winner self_button_rect board_getitem board_setitem
       call_check_winner negb].

Lemma gbind_Done {A B : Type} (m : G A) (k : A -> G B) (w w' : env) (a : A) :
  m w = (Done a, w') -> gbind m k w = k a w'.
Proof. unfold gbind. intros ->. reflexivity. Qed.

Lemma board_getitem_run (s : screen) (b : board) (hu ai : option string) (tn : bool)
    (w : option string) (r : option rect) (c : list string) (t : Z) (i : Z) (n : nat)
    (cell : string) :
  py_index (length b) i = Some n -> b !! n = Some cell ->
  board_getitem i (Env (Game s b hu ai tn w r) c t)
  = (Done cell, Env (Game s b hu ai tn w r) c t).
Proof. intros Hi Hn. unfold board_getitem. gsimpl. rewrite Hi, Hn. reflexivity. Qed.

Lemma board_setitem_run (s : screen) (b : board) (hu ai : option string) (tn : bool)
    (w : option string) (r : option rect) (c : list string) (t : Z) (i : Z) (n : nat)
    (v : string) :
  py_index (length b) i = Some n ->
  board_setitem i v (Env (Game s b hu ai tn w r) c t)
  = (Done tt, Env (Game s (<[n:=v]> b) hu ai tn w r) c t).
Proof. intros Hi. unfold board_setitem. gsimpl. rewrite Hi. reflexivity. Qed.

Lemma call_check_winner_run (s : screen) (b : board) (hu ai : option string) (tn : bool)
    (w : option string) (r : option rect) (c : list string) (t : Z)
    (winner : option string) :
  check_winner b = Ok winner ->
  call_check_winner (Env (Game s b hu ai tn w r) c t)
  = (Done winner, Env (Game s b hu ai tn w r) c t).
Proof. intros H. unfold call_check_winner. gsimpl. rewrite H. reflexivity. Qed.

(** A click whose index denotes the cell [n]. *)
Lemma handle_click_game_at (g : game) (c : list string) (t : Z) (pos : Z * Z)
    (hu : string) (n : nat) :
  self_hu_turn g = true -> length (self_board g) = 9 -> self_hu_player g = Some hu ->
  py_index 9 (snd pos / CELL_SIZE * GRID_SIZE + fst pos / CELL_SIZE) = Some n ->
  n < 9 ->
  exists line,
    handle_click_game pos (Env g c t)
    = if match self_board g !! n with
         | Some cell => String.eqb cell " "
         | None => false
         end
      then
        let b' := <[n:=hu]> (self_board g) in
        (Done tt, Env (after_move g b' false) (c ++ [line])
                    (if truthy (outcome_of b') then t else 500%Z))
      else (Done tt, Env g c t).
Proof.
  destruct g as [s b hu' ai tn w r]. cbn [self_hu_turn self_board self_hu_player].
  intros -> Hlen -> Hpy Hn. eexists. rewrite <- Hlen in Hpy.
  unfold handle_click_game. gsimpl. cbn zeta.
  destruct (b !! n) as [cell |] eqn:Ecell.
  2:{ apply lookup_ge_None in Ecell. lia. }
  rewrite (gbind_Done _ _ _ _ _
             (board_getitem_run _ _ _ _ _ _ _ c t _ _ _ Hpy Ecell)).
  destruct (String.eqb cell " "); [| reflexivity].
  gsimpl.
  rewrite (gbind_Done _ _ _ _ _
             (board_setitem_run _ _ _ _ _ _ _ c t _ _ hu Hpy)).
  gsimpl.
  rewrite (gbind_Done _ _ _ _ _
             (call_check_winner_run _ _ _ _ _ _ _ _ t _
                (check_winner_in_range (<[n:=hu]> b)
                   ltac:(rewrite length_insert; lia)))).
  unfold after_move. gsimpl.
  destruct (truthy (outcome_of (<[n:=hu]> b))); reflexivity.
Qed.

Lemma handle_click_game_spec (g : game) (c : list string) (t : Z) (pos : Z * Z)
    (hu : string) :
  self_hu_turn g = true -> length (self_board g) = 9 -> self_hu_player g = Some hu ->
  in_window pos ->
  cell_of pos < 9
  /\ exists line,
       handle_click_game pos (Env g c t)
       = if match self_board g !! cell_of pos with
            | Some cell => String.eqb cell " "
            | None => false
            end
         then
           let b' := <[cell_of pos:=hu]> (self_board g) in
           (Done tt, Env (after_move g b' false) (c ++ [line])
                       (if truthy (outcome_of b') then t else 500%Z))
         else (Done tt, Env g c t).
Proof.
  intros Hturn Hlen Hhu Hpos. pose proof (click_index pos Hpos) as Hidx.
  assert (Hn : cell_of pos < 9) by (unfold cell_of; lia).
  split; [exact Hn |].
  apply handle_click_game_at; try assumption.
  apply py_index_inside. lia.
Qed.

(** A click whose index is outside the board. *)
Lemma handle_click_game_outside (g : game) (c : list string) (t : Z) (pos : Z * Z) :
  self_hu_turn g = true ->
  py_index (length (self_board g))
    (snd pos / CELL_SIZE * GRID_SIZE + fst pos / CELL_SIZE) = None ->
  handle_click_game pos (Env g c t) = (Failed IndexError, Env g c t).
Proof.
  destruct g as [s b hu ai tn w r]. cbn [self_hu_turn self_board]. intros -> Hpy.
  unfold handle_click_game, board_getitem. gsimpl. cbn zeta. unfold gbind at 1.
  gsimpl. rewrite Hpy. reflexivity.
Qed.

Lemma handle_click_game_waiting (g : game) (c : list string) (t : Z) (pos : Z * Z) :
  self_hu_turn g = false -> handle_click_game pos (Env g c t) = (Done tt, Env g c t).
Proof.
  destruct g as [s b hu ai tn w r]. cbn [self_hu_turn]. intros ->. reflexivity.
Qed.

Lemma ai_move_full (g : game) (c : list string) (t : Z) :
  available_moves (self_board g) = [] ->
  ai_move PRINT_TREE recursion_limit (Env g c t) = (Done tt, Env g c t).
Proof. intros H. unfold ai_move. gsimpl. rewrite H. reflexivity. Qed.

Lemma call_best_move_run (s : screen) (b : board) (hu' ai' : option string) (tn : bool)
    (w : option string) (r : option rect) (c c' : list string) (t : Z) (ai hu : string)
    (m : nat) :
  best_move PRINT_TREE recursion_limit ai hu (World b c) = (Ok m, World b c') ->
  call_best_move PRINT_TREE recursion_limit ai hu (Env (Game s b hu' ai' tn w r) c t)
  = (Done m, Env (Game s b hu' ai' tn w r) c' t).
Proof. intros E. unfold call_best_move. gsimpl. rewrite E. reflexivity. Qed.

Lemma ai_move_spec (g : game) (c : list string) (t : Z) (ai hu : string) :
  length (self_board g) = 9 -> blanks (self_board g) <= recursion_limit ->
  check_winner (self_board g) = Ok None ->
  self_ai_player g = Some ai -> self_hu_player g = Some hu ->
  ai <> " " -> hu <> " " ->
  exists m c',
    self_board g !! m = Some " "
    /\ best_move PRINT_TREE recursion_limit ai hu (World (self_board g) c)
       = (Ok m, World (self_board g) c')
    /\ exists line,
         ai_move PRINT_TREE recursion_limit (Env g c t)
         = (Done tt, Env (after_move g (<[m:=ai]> (self_board g)) true)
                       (c' ++ [line]) t).
Proof.
  destruct g as [s b hu' ai' tn w r].
  cbn [self_board self_ai_player self_hu_player].
  intros Hlen Hfuel Hcw -> -> Hai Hhu.
  destruct (in_progress_best_move PRINT_TREE recursion_limit ai hu b c
              ltac:(lia) Hai Hhu Hfuel Hcw) as (m & c' & E & Hm).
  exists m, c'. split; [exact Hm |]. split; [exact E |]. eexists.
  unfold ai_move. gsimpl.
  destruct (available_moves b) as [| m0 rest] eqn:Emoves;
    [destruct (blank_moves b m Hm Emoves) |].
  gsimpl.
  rewrite (gbind_Done _ _ _ _ _
             (call_best_move_run _ _ _ _ _ _ _ c c' t ai hu m E)).
  rewrite (gbind_Done _ _ _ _ _
             (board_setitem_run _ _ _ _ _ _ _ c' t _ m ai
                (py_index_of_nat _ m ltac:(apply lookup_lt_Some in Hm; exact Hm)))).
  gsimpl.
  rewrite (gbind_Done _ _ _ _ _
             (call_check_winner_run _ _ _ _ _ _ _ _ t _
                (check_winner_in_range (<[m:=ai]> b)
                   ltac:(rewrite length_insert; lia)))).
  unfold after_move. gsimpl.
  destruct (truthy (outcome_of (<[m:=ai]> b))); reflexivity.
Qed.

Lemma start_game_spec (g : game) (c : list string) (t : Z) :
  exists c',
    start_game PRINT_TREE recursion_limit (Env g c t)
    = let g' := Game playing (replicate 9 " ") (self_hu_player g) (self_ai_player g)
                  (self_hu_turn g) None (self_button_rect g) in
      if self_hu_turn g then (Done tt, Env g' c' t)
      else ai_move PRINT_TREE recursion_limit (Env g' c' t).
Proof.
  destruct g as [s b hu ai tn w r]. eexists. unfold start_game. gsimpl.
  destruct tn; reflexivity.
Qed.

Lemma handle_click_menu_spec (g : game) (c : list string) (t : Z) (pos : Z * Z) :
  handle_click_menu collidepoint PRINT_TREE recursion_limit pos (Env g c t)
  = if collidepoint (Rect 150 280 120 120) pos then
      start_game PRINT_TREE recursion_limit
        (Env (Game (self_state g) (self_board g) (Some "X") (Some "O") true
                (self_winner g) (self_button_rect g)) c t)
    else if collidepoint (Rect 330 280 120 120) pos then
      start_game PRINT_TREE recursion_limit
        (Env (Game (self_state g) (self_board g) (Some "O") (Some "X") false
                (self_winner g) (self_button_rect g)) c t)
    else (Done tt, Env g c t).
Proof.
  destruct g as [s b hu ai tn w r]. unfold handle_click_menu. cbn zeta.
  destruct (collidepoint (Rect 150 280 120 120) pos); [reflexivity |].
  destruct (collidepoint (Rect 330 280 120 120) pos); reflexivity.
Qed.

(** *** What the methods keep *)

Hypothesis enough_stack : 9 <= recursion_limit.

Lemma players_marks (g : game) :
  players g ->
  exists hu ai, self_hu_player g = Some hu /\ self_ai_player g = Some ai
                /\ hu <> " " /\ ai <> " "
                /\ ((hu = "X" /\ ai = "O") \/ (hu = "O" /\ ai = "X")).
Proof.
  intros [[-> ->] | [-> ->]]; do 2 eexists; repeat split; try discriminate; auto.
Qed.

(** The game after a mark of the player to move on an empty cell. *)
Lemma after_move_consistent (g : game) (n : nat) (v : string) (next : bool)
    (c : list string) (t : Z) :
  players g -> position (self_board g) -> self_state g = playing ->
  self_winner g = None ->
  self_board g !! n = Some " " -> v = to_move (self_board g) ->
  (if next then self_hu_player g else self_ai_player g)
  = Some (if String.eqb v "X" then "O" else "X") ->
  (next = false -> truthy (outcome_of (<[n:=v]> (self_board g))) = false -> t = 500%Z) ->
  (forall ai hu, self_ai_player g = Some ai -> self_hu_player g = Some hu ->
     exists fuel d s,
       (0 <= d)%Z /\ (d + Z.of_nat (blanks (<[n:=v]> (self_board g))) < 10)%Z
       /\ minimax_value fuel d (negb next) ai hu (<[n:=v]> (self_board g)) = Ok s
       /\ (0 <= sign s)%Z) ->
  consistent (Env (after_move g (<[n:=v]> (self_board g)) next) c t).
Proof.
  intros Hp. destruct (players_marks g Hp) as (h & a & Eh & Ea & Hh & Ha & Hxo).
  assert (Hne : a <> h) by (destruct Hxo as [[-> ->] | [-> ->]]; discriminate).
  clear Hxo. revert Hp Eh Ea. destruct g as [s b hu ai tn w r].
  cbn [self_board self_state self_winner self_hu_player self_ai_player].
  intros Hp -> -> Hpos -> -> Hn Hv Hnext Ht Hout.
  destruct (Hout a h eq_refl eq_refl) as (fuel & d & sc & Hd & Hbl & Esc & Hsc).
  destruct (position_mark b n v Hpos Hn Hv) as [Hpos' Hto].
  assert (Hlen' : 9 <= length (<[n:=v]> b)) by (destruct Hpos' as [-> _]; lia).
  unfold consistent, after_move.
  destruct (outcome_of (<[n:=v]> b)) as [x |] eqn:Eo.
  - destruct (position_outcome _ x (proj1 (proj2 Hpos')) Eo) as [Hx ->].
    cbn [self self_board self_state self_winner self_hu_player].
    split; [exact Hpos' |]. split; [exact Hp |]. exists x.
    assert (Hcw : check_winner (<[n:=v]> b) = Ok (Some x))
      by (rewrite (check_winner_in_range _ Hlen'), Eo; reflexivity).
    split; [exact Hcw |]. split; [reflexivity |]. split; [exact Hx |].
    assert (Hxh : x <> h).
    { apply (not_lost a h Hne fuel d (negb next) (<[n:=v]> b) sc x);
        [lia | exact Esc | exact Hsc | exact Hcw]. }
    intros [= E]. exact (Hxh E).
  - cbn [truthy self self_board self_state self_winner self_hu_turn timer
         self_hu_player self_ai_player].
    split; [exact Hpos' |]. split; [exact Hp |].
    rewrite (check_winner_in_range _ Hlen'), Eo.
    split; [reflexivity |]. split; [reflexivity |]. split; [| split].
    + unfold mover. cbn [self_hu_turn self_hu_player self_ai_player].
      rewrite Hto. exact Hnext.
    + intros ->. apply Ht; [reflexivity |]. first [rewrite Eo; reflexivity | reflexivity].
    + intros ai' hu' [= <-] [= <-].
      apply (holds_out_of_depth a h Ha Hh fuel d (negb next) (<[n:=v]> b) sc);
        assumption.
Qed.

Lemma position_blanks (b : board) : position b -> blanks b <= recursion_limit.
Proof. intros (Hlen & _). pose proof (blanks_le_length b). lia. Qed.

(** [ai_move] when the AI is to move. *)
Lemma ai_move_consistent (g : game) (c : list string) (t : Z) :
  players g -> position (self_board g) -> self_state g = playing ->
  self_winner g = None -> check_winner (self_board g) = Ok None ->
  self_hu_turn g = false -> mover g = Some (to_move (self_board g)) ->
  (forall ai hu, self_ai_player g = Some ai -> self_hu_player g = Some hu ->
                 holds_out ai hu true (self_board g)) ->
  exists w', ai_move PRINT_TREE recursion_limit (Env g c t) = (Done tt, w')
             /\ consistent w'.
Proof.
  intros Hp Hpos Hs Hw Hcw Hturn Hmover Hout.
  destruct (players_marks g Hp) as (hu & ai & Ehu & Eai & Hhu & Hai & Hxo).
  destruct (ai_move_spec g c t ai hu (proj1 Hpos) (position_blanks _ Hpos) Hcw Eai Ehu
              Hai Hhu) as (m & c' & Hm & Ebm & line & ->).
  eexists. split; [reflexivity |].
  unfold mover in Hmover. rewrite Hturn, Eai in Hmover. injection Hmover as Hv.
  apply after_move_consistent; try assumption.
  - rewrite Ehu. clear Hv. destruct Hxo as [[-> ->] | [-> ->]]; reflexivity.
  - discriminate.
  - intros ai' hu' E1 E2. rewrite Eai in E1. rewrite Ehu in E2.
    injection E1 as <-. injection E2 as <-.
    pose proof (fst_best_move PRINT_TREE recursion_limit ai hu (World (self_board g) c))
      as Hbm.
    rewrite Ebm in Hbm. cbn [fst cells] in Hbm. unfold best_move_value in Hbm.
    destruct (best_choice recursion_limit ai hu (self_board g)) as [[sc [m' |]] | e]
      eqn:Ec; cbn [rbind snd] in Hbm; try discriminate Hbm.
    injection Hbm as <-.
    pose proof (blanks_le_length (self_board g)) as Hle. rewrite (proj1 Hpos) in Hle.
    destruct (ai_step ai hu Hai Hhu recursion_limit (self_board g) m sc
                (Hout ai hu Eai Ehu) Hcw Hle Ec) as [Esc Hsc].
    pose proof (blanks_insert (self_board g) m ai Hm Hai) as Hbl.
    exists recursion_limit, 0%Z, sc. repeat split; try assumption; lia.
Qed.

(** [handle_click_game] while a game is going on. *)
Lemma handle_click_game_consistent (w : env) (pos : Z * Z) :
  consistent w -> self_state (self w) = playing -> in_window pos ->
  exists w', handle_click_game pos w = (Done tt, w') /\ consistent w'.
Proof.
  destruct w as [g c t]. intros Hc Hs Hpos. pose proof Hc as Hc'.
  unfold consistent in Hc'. cbn [self timer] in Hc', Hs. rewrite Hs in Hc'.
  destruct Hc' as (Hposn & Hp & Hcw & Hw & Hmover & Htimer & Hout).
  destruct (self_hu_turn g) eqn:Hturn.
  2:{ rewrite (handle_click_game_waiting g c t pos Hturn). eauto. }
  destruct (players_marks g Hp) as (hu & ai & Ehu & Eai & Hhu & Hai & Hxo).
  destruct (handle_click_game_spec g c t pos hu Hturn (proj1 Hposn) Ehu Hpos)
    as (Hn & line & ->).
  destruct (self_board g !! cell_of pos) as [cell |] eqn:Ecell; [| eauto].
  destruct (String.eqb_spec cell " ") as [-> | _]; [| eauto].
  cbn zeta. eexists. split; [reflexivity |].
  unfold mover in Hmover. rewrite Hturn, Ehu in Hmover. injection Hmover as Hv.
  apply after_move_consistent; try assumption.
  - rewrite Eai. clear Hv. destruct Hxo as [[-> ->] | [-> ->]]; reflexivity.
  - intros _ ->. reflexivity.
  - intros ai' hu' E1 E2. rewrite Eai in E1. rewrite Ehu in E2.
    injection E1 as <-. injection E2 as <-.
    destruct (human_step ai hu (self_board g) (cell_of pos) (Hout ai hu Eai Ehu) Hcw
                Ecell) as (fuel & s' & E' & Hs').
    pose proof (blanks_insert (self_board g) (cell_of pos) hu Ecell Hhu) as Hbl.
    pose proof (blanks_le_length (self_board g)) as Hle. rewrite (proj1 Hposn) in Hle.
    exists fuel, 1%Z, s'. repeat split; try assumption; lia.
Qed.

Lemma start_game_consistent (g : game) (c : list string) (t : Z) :
  (self_hu_player g = Some "X" /\ self_ai_player g = Some "O" /\ self_hu_turn g = true)
  \/ (self_hu_player g = Some "O" /\ self_ai_player g = Some "X"
      /\ self_hu_turn g = false) ->
  exists w', start_game PRINT_TREE recursion_limit (Env g c t) = (Done tt, w')
             /\ consistent w'.
Proof.
  intros H. destruct (start_game_spec g c t) as [c' ->]. cbn zeta.
  destruct position_empty as [Hpos Hto].
  assert (Hcw : check_winner (replicate 9 " ") = Ok None) by reflexivity.
  destruct H as [(Ehu & Eai & ->) | (Ehu & Eai & ->)].
  - eexists. split; [reflexivity |]. unfold consistent.
    cbn [self self_board self_state self_winner timer self_hu_turn].
    split; [exact Hpos |]. split; [left; auto |]. split; [exact Hcw |].
    split; [reflexivity |]. split; [| split; [discriminate |]].
    + unfold mover. cbn [self_hu_turn self_hu_player self_board]. rewrite Hto. exact Ehu.
    + cbn [self_ai_player self_hu_player]. rewrite Eai, Ehu. intros ai hu [= <-] [= <-].
      exact holds_out_empty_second.
  - apply ai_move_consistent;
      cbn [self_board self_state self_winner self_hu_turn self_ai_player self_hu_player];
      try assumption; try reflexivity;
      try (right; split; assumption);
      try (unfold mover; cbn [self_hu_turn self_ai_player self_board];
           rewrite Hto; exact Eai).
    rewrite Eai, Ehu. intros ai hu [= <-] [= <-]. exact holds_out_empty_first.
Qed.

Lemma consistent_menu (g : game) (c c' : list string) (t t' : Z) (r : option rect) :
  consistent (Env g c t) ->
  consistent (Env (Game menu (self_board g) (self_hu_player g) (self_ai_player g)
                     (self_hu_turn g) (self_winner g) r) c' t').
Proof. unfold consistent. cbn [self self_board self_state]. tauto. Qed.

Lemma handle_click_menu_consistent (w : env) (pos : Z * Z) :
  consistent w ->
  exists w', handle_click_menu collidepoint PRINT_TREE recursion_limit pos w
             = (Done tt, w')
             /\ consistent w'.
Proof.
  destruct w as [g c t]. intros Hc. rewrite handle_click_menu_spec.
  destruct (collidepoint (Rect 150 280 120 120) pos).
  { apply start_game_consistent. left. auto. }
  destruct (collidepoint (Rect 330 280 120 120) pos).
  { apply start_game_consistent. right. auto. }
  eauto.
Qed.

Lemma handle_click_game_over_consistent (w : env) (pos : Z * Z) :
  consistent w ->
  exists w', handle_click_game_over collidepoint rect_bool pos w = (Done tt, w')
             /\ consistent w'.
Proof.
  destruct w as [g c t]. intros Hc. unfold handle_click_game_over. gsimpl.
  destruct (self_button_rect g) as [r |]; [| eauto].
  destruct (rect_bool r && collidepoint r pos); [| eauto].
  eexists. split; [reflexivity |]. apply (consistent_menu g c c t t). exact Hc.
Qed.

(** *** The loop of [run] *)

Lemma consistent_timer (g : game) (c c' : list string) (t t' : Z) :
  consistent (Env g c t) ->
  (self_state g = playing -> self_hu_turn g = true) ->
  consistent (Env g c' t').
Proof.
  unfold consistent. cbn [self timer]. intros [Hpos H] Hturn. split; [exact Hpos |].
  destruct (self_state g); try exact H.
  destruct H as (Hp & Hcw & Hw & Hm & _ & Hout).
  split; [exact Hp |]. split; [exact Hcw |]. split; [exact Hw |]. split; [exact Hm |].
  split; [| exact Hout].
  intros E. rewrite Hturn in E by reflexivity. discriminate E.
Qed.

Lemma handle_event_consistent (ev : event) (running : bool) (w : env) :
  consistent w -> event_in_window ev ->
  exists r w',
    handle_event collidepoint rect_bool PRINT_TREE recursion_limit ev running w
    = (Done r, w')
    /\ consistent w'.
Proof.
  destruct w as [g c t]. intros Hc Hev. destruct ev as [| pos | |]; cbn [handle_event].
  - eauto.
  - gsimpl. destruct (self_state g) eqn:Hs.
    + destruct (handle_click_menu_consistent (Env g c t) pos Hc) as (w' & E & Hc').
      rewrite (gbind_Done _ _ _ _ _ E). eauto.
    + destruct (handle_click_game_consistent (Env g c t) pos Hc Hs Hev)
        as (w' & E & Hc').
      rewrite (gbind_Done _ _ _ _ _ E). eauto.
    + destruct (handle_click_game_over_consistent (Env g c t) pos Hc) as (w' & E & Hc').
      rewrite (gbind_Done _ _ _ _ _ E). eauto.
  - gsimpl. destruct (self_state g) eqn:Hs.
    + gsimpl. do 2 eexists. split; [reflexivity |].
      apply (consistent_timer g c c t 0 Hc). congruence.
    + destruct (self_hu_turn g) eqn:Hturn.
      * gsimpl. do 2 eexists. split; [reflexivity |].
        apply (consistent_timer g c c t 0 Hc). auto.
      * pose proof Hc as Hc'. unfold consistent in Hc'. cbn [self timer] in Hc'.
        rewrite Hs, Hturn in Hc'.
        destruct Hc' as (Hposn & Hp & Hcw & Hw & Hmover & _ & Hout).
        destruct (ai_move_consistent g c 0 Hp Hposn Hs Hw Hcw Hturn Hmover Hout)
          as (w' & E & Hc').
        rewrite (gbind_Done _ _ _ _ _ E). eauto.
    + gsimpl. do 2 eexists. split; [reflexivity |].
      apply (consistent_timer g c c t 0 Hc). congruence.
  - eauto.
Qed.

Lemma handle_events_consistent (events : list event) (running : bool) (w : env) :
  consistent w -> Forall event_in_window events ->
  exists r w',
    handle_events collidepoint rect_bool PRINT_TREE recursion_limit events running w
    = (Done r, w')
    /\ consistent w'.
Proof.
  revert running w. induction events as [| ev rest IH]; intros running w Hc Hall.
  - cbn [handle_events]. eauto.
  - apply Forall_cons in Hall as [Hev Hrest]. cbn [handle_events].
    destruct (handle_event_consistent ev running w Hc Hev) as (r & w1 & E & Hc1).
    rewrite (gbind_Done _ _ _ _ _ E). apply IH; assumption.
Qed.

Lemma draw_consistent (w : env) :
  consistent w ->
  exists w', draw w = (Done tt, w') /\ consistent w'.
Proof.
  destruct w as [g c t]. intros Hc. unfold draw, draw_game_over. gsimpl.
  destruct (self_state g) eqn:Hs; gsimpl; eexists; (split; [reflexivity |]);
    exact Hc.
Qed.

Lemma run_consistent (frames : list (list event)) (w : env) :
  consistent w -> Forall (Forall event_in_window) frames ->
  exists r w',
    TicTacToeGame.run collidepoint rect_bool PRINT_TREE recursion_limit frames w
    = (Done r, w')
    /\ consistent w'.
Proof.
  revert w. induction frames as [| events rest IH]; intros w Hc Hall.
  - cbn [TicTacToeGame.run]. eauto.
  - apply Forall_cons in Hall as [Hev Hrest]. cbn [TicTacToeGame.run].
    destruct (handle_events_consistent events true w Hc Hev) as (r & w1 & E & Hc1).
    rewrite (gbind_Done _ _ _ _ _ E).
    destruct (draw_consistent w1 Hc1) as (w2 & E2 & Hc2).
    rewrite (gbind_Done _ _ _ _ _ E2).
    destruct r; [apply IH; assumption | eauto].
Qed.

Lemma consistent_init : consistent (Env init [] 0).
Proof.
  unfold consistent, init. cbn [self self_board self_state].
  split; [apply position_empty | exact I].
Qed.

End Game_methods.

(** ** The game, as its player sees it *)

(** X13. A click inside the window of 600 by 600, on a board of nine cells,
    once the human has a symbol: the index computed from the click is that of
    the cell under the pointer, inside the board, and the method raises
    nothing.  While the AI is to move, or on a cell that is not empty, nothing
    at all changes.  On an empty cell when the human is to move, that cell
    and no other receives the human's symbol; then, if [check_winner] gives
    [None], the turn passes to the AI and the timer of [USEREVENT] is set to
    500 ms; if it gives a winner or a tie, the state is ['game_over'] with
    that winner recorded. *)
Theorem handle_click_game_in_window (g : TicTacToeGame.game) (c : list string) (t : Z)
    (pos : Z * Z) (hu : string) :
  length (TicTacToeGame.self_board g) = 9 ->
  TicTacToeGame.self_hu_player g = Some hu -> in_window pos ->
  let b := TicTacToeGame.self_board g in
  let b' := <[cell_of pos:=hu]> b in
  cell_of pos < 9
  /\ exists w',
       TicTacToeGame.handle_click_game pos (TicTacToeGame.Env g c t)
       = (TicTacToeGame.Done tt, w')
       /\ (TicTacToeGame.self_hu_turn g = false \/ b !! cell_of pos <> Some " " ->
           w' = TicTacToeGame.Env g c t)
       /\ (TicTacToeGame.self_hu_turn g = true -> b !! cell_of pos = Some " " ->
           TicTacToeGame.self_board (TicTacToeGame.self w') = b'
           /\ (check_winner b' = Ok None ->
               TicTacToeGame.self_hu_turn (TicTacToeGame.self w') = false
               /\ TicTacToeGame.timer w' = 500%Z
               /\ TicTacToeGame.self_state (TicTacToeGame.self w')
                  = TicTacToeGame.self_state g)
           /\ (forall x, check_winner b' = Ok (Some x) -> x <> "" ->
               TicTacToeGame.self_state (TicTacToeGame.self w') = TicTacToeGame.game_over
               /\ TicTacToeGame.self_winner (TicTacToeGame.self w') = Some x)).
Proof.
  intros Hlen Hhu Hpos b b'. pose proof (click_index pos Hpos) as Hidx.
  assert (Hn : cell_of pos < 9) by (unfold cell_of; lia).
  split; [exact Hn |].
  destruct (TicTacToeGame.self_hu_turn g) eqn:Hturn.
  2:{ rewrite (handle_click_game_waiting g c t pos Hturn). eexists.
      split; [reflexivity |]. split; [reflexivity | discriminate]. }
  destruct (handle_click_game_spec g c t pos hu Hturn Hlen Hhu Hpos) as (_ & line & ->).
  fold b. destruct (b !! cell_of pos) as [cell |] eqn:Ecell.
  2:{ eexists. split; [reflexivity |]. split; [reflexivity | discriminate]. }
  destruct (String.eqb_spec cell " ") as [-> | Hcell].
  2:{ eexists. split; [reflexivity |]. split; [reflexivity |].
      intros _ [= E]. destruct (Hcell E). }
  cbn zeta. fold b'. eexists. split; [reflexivity |].
  split; [intros [E | E]; [discriminate E | destruct E; reflexivity] |].
  intros _ _.
  assert (Hcw : check_winner b' = Ok (outcome_of b'))
    by (apply check_winner_in_range; unfold b'; rewrite length_insert; unfold b; lia).
  rewrite Hcw. unfold after_move.
  destruct (outcome_of b') as [x |]; cbn [TicTacToeGame.truthy].
  - destruct (String.eqb_spec x "") as [-> | Hx]; cbn [negb TicTacToeGame.self
      TicTacToeGame.self_board TicTacToeGame.self_state TicTacToeGame.self_winner].
    + split; [reflexivity |]. split; [discriminate |].
      intros x [= <-] Hx. destruct Hx. reflexivity.
    + split; [reflexivity |]. split; [discriminate |].
      intros x' [= <-] _. split; reflexivity.
  - cbn [TicTacToeGame.self TicTacToeGame.self_board TicTacToeGame.self_state
         TicTacToeGame.self_hu_turn TicTacToeGame.timer].
    split; [reflexivity |]. split; [intros _; repeat split | discriminate].
Qed.

Lemma handle_click_game_in_window_witness :
  cell_of (450, 250)%Z < 9
  /\ exists w',
       TicTacToeGame.handle_click_game (450, 250)%Z
         (TicTacToeGame.Env
            (TicTacToeGame.Game TicTacToeGame.playing row_board (Some "O") (Some "X")
               true None None) [] 0)
       = (TicTacToeGame.Done tt, w')
       /\ TicTacToeGame.self_board (TicTacToeGame.self w') = <[5:="O"]> row_board
       /\ TicTacToeGame.self_state (TicTacToeGame.self w') = TicTacToeGame.game_over
       /\ TicTacToeGame.self_winner (TicTacToeGame.self w') = Some "O".
Proof.
  destruct (handle_click_game_in_window
              (TicTacToeGame.Game TicTacToeGame.playing row_board (Some "O") (Some "X")
                 true None None) [] 0 (450, 250)%Z "O")
    as (Hn & w' & E & _ & H).
  - reflexivity.
  - reflexivity.
  - unfold in_window. change TicTacToeGame.WINDOW_SIZE with 600%Z. cbn [fst snd]. lia.
  - split; [exact Hn |]. exists w'. split; [exact E |].
    destruct (H eq_refl eq_refl) as (Hb & _ & Hover).
    split; [exact Hb |]. apply (Hover "O"); [reflexivity | discriminate].
Defined.

(** X14. [handle_click_game] checks no bound: when the human is to move and
    the index [row * 3 + col] computed from the position is 9 or more, or
    less than -9, the method raises [IndexError] and changes nothing; an
    index from -9 to -1 counts cells from the end of the board, so that a
    position one cell left of the top row (index -1) reaches cell 8. *)
Theorem handle_click_game_out_of_window (g : TicTacToeGame.game) (c : list string)
    (t : Z) (pos : Z * Z) (hu : string) :
  TicTacToeGame.self_hu_turn g = true -> length (TicTacToeGame.self_board g) = 9 ->
  TicTacToeGame.self_hu_player g = Some hu ->
  let idx := (snd pos / TicTacToeGame.CELL_SIZE * TicTacToeGame.GRID_SIZE
              + fst pos / TicTacToeGame.CELL_SIZE)%Z in
  ((9 <= idx \/ idx < -9)%Z ->
   TicTacToeGame.handle_click_game pos (TicTacToeGame.Env g c t)
   = (TicTacToeGame.Failed IndexError, TicTacToeGame.Env g c t))
  /\ ((-9 <= idx < 0)%Z ->
      TicTacToeGame.self_board g !! Z.to_nat (idx + 9) = Some " " ->
      exists w',
        TicTacToeGame.handle_click_game pos (TicTacToeGame.Env g c t)
        = (TicTacToeGame.Done tt, w')
        /\ TicTacToeGame.self_board (TicTacToeGame.self w')
           = <[Z.to_nat (idx + 9):=hu]> (TicTacToeGame.self_board g)).
Proof.
  intros Hturn Hlen Hhu idx. split.
  - intros Hidx. apply (handle_click_game_outside g c t pos Hturn).
    rewrite Hlen. fold idx. unfold TicTacToeGame.py_index.
    destruct (Z.leb_spec 0 idx), (Z.ltb_spec idx (Z.of_nat 9)),
      (Z.leb_spec (- Z.of_nat 9) idx), (Z.ltb_spec idx 0); cbn [andb]; try reflexivity; lia.
  - intros Hidx Hcell.
    assert (Hpy : TicTacToeGame.py_index 9 idx = Some (Z.to_nat (idx + 9))).
    { unfold TicTacToeGame.py_index.
      destruct (Z.leb_spec 0 idx), (Z.ltb_spec idx (Z.of_nat 9)),
        (Z.leb_spec (- Z.of_nat 9) idx), (Z.ltb_spec idx 0); cbn [andb];
        try reflexivity; lia. }
    destruct (handle_click_game_at g c t pos hu _ Hturn Hlen Hhu Hpy ltac:(lia))
      as (line & ->).
    rewrite Hcell. cbn zeta. change (String.eqb " " " ") with true. cbv iota.
    eexists. split; [reflexivity |]. unfold after_move.
    destruct (TicTacToeGame.truthy _); reflexivity.
Qed.

Lemma handle_click_game_out_of_window_witness :
  TicTacToeGame.handle_click_game (0, 600)%Z
    (TicTacToeGame.Env
       (TicTacToeGame.Game TicTacToeGame.playing row_board (Some "O") (Some "X")
          true None None) [] 0)
  = (TicTacToeGame.Failed IndexError,
     TicTacToeGame.Env
       (TicTacToeGame.Game TicTacToeGame.playing row_board (Some "O") (Some "X")
          true None None) [] 0)
  /\ exists w',
       TicTacToeGame.handle_click_game (-1, 0)%Z
         (TicTacToeGame.Env
            (TicTacToeGame.Game TicTacToeGame.playing row_board (Some "O") (Some "X")
               true None None) [] 0)
       = (TicTacToeGame.Done tt, w')
       /\ TicTacToeGame.self_board (TicTacToeGame.self w') = <[8:="O"]> row_board.
Proof.
  split.
  - destruct (handle_click_game_out_of_window
                (TicTacToeGame.Game TicTacToeGame.playing row_board (Some "O") (Some "X")
                   true None None) [] 0 (0, 600)%Z "O" eq_refl eq_refl eq_refl)
      as [Hout _].
    apply Hout. left. vm_compute. discriminate.
  - destruct (handle_click_game_out_of_window
                (TicTacToeGame.Game TicTacToeGame.playing row_board (Some "O") (Some "X")
                   true None None) [] 0 (-1, 0)%Z "O" eq_refl eq_refl eq_refl)
      as [_ Hwrap].
    apply Hwrap; [vm_compute; split; [discriminate | reflexivity] | reflexivity].
Defined.

Lemma after_move_fields (g : TicTacToeGame.game) (b' : board) (next : bool) :
  9 <= length b' ->
  TicTacToeGame.self_board (after_move g b' next) = b'
  /\ (check_winner b' = Ok None ->
      TicTacToeGame.self_hu_turn (after_move g b' next) = next
      /\ TicTacToeGame.self_state (after_move g b' next) = TicTacToeGame.self_state g
      /\ TicTacToeGame.self_winner (after_move g b' next) = TicTacToeGame.self_winner g)
  /\ (forall x, check_winner b' = Ok (Some x) -> x <> "" ->
      TicTacToeGame.self_state (after_move g b' next) = TicTacToeGame.game_over
      /\ TicTacToeGame.self_winner (after_move g b' next) = Some x).
Proof.
  intros Hlen. rewrite (check_winner_in_range b' Hlen). unfold after_move.
  destruct (outcome_of b') as [x |]; cbn [TicTacToeGame.truthy].
  - destruct (String.eqb_spec x "") as [-> | Hx]; cbn [negb];
      (split; [reflexivity |]); (split; [discriminate |]); intros x' [= <-] Hx'.
    + destruct Hx'. reflexivity.
    + split; reflexivity.
  - split; [reflexivity |]. split; [intros _; repeat split | discriminate].
Qed.

(** X15. [ai_move] on a board of nine cells in progress, with both symbols
    chosen and one frame of call stack per empty cell: the method raises
    nothing; it marks with the AI's symbol the empty cell that [best_move]
    returns on that board, and no other cell; the timer is left alone.  If
    [check_winner] then gives [None] the turn goes to the human and state and
    winner stay as they were; if it gives a winner or a tie, the state is
    ['game_over'] with that winner recorded. *)
Theorem ai_move_plays_best_move (P : bool) (limit : nat) (g : TicTacToeGame.game)
    (c : list string) (t : Z) (ai hu : string) :
  length (TicTacToeGame.self_board g) = 9 ->
  blanks (TicTacToeGame.self_board g) <= limit ->
  check_winner (TicTacToeGame.self_board g) = Ok None ->
  TicTacToeGame.self_ai_player g = Some ai -> TicTacToeGame.self_hu_player g = Some hu ->
  ai <> " " -> hu <> " " ->
  let b := TicTacToeGame.self_board g in
  exists m c' w',
    best_move P limit ai hu (World b c) = (Ok m, World b c')
    /\ b !! m = Some " "
    /\ TicTacToeGame.ai_move P limit (TicTacToeGame.Env g c t) = (TicTacToeGame.Done tt, w')
    /\ TicTacToeGame.self_board (TicTacToeGame.self w') = <[m:=ai]> b
    /\ TicTacToeGame.timer w' = t
    /\ (check_winner (<[m:=ai]> b) = Ok None ->
        TicTacToeGame.self_hu_turn (TicTacToeGame.self w') = true
        /\ TicTacToeGame.self_state (TicTacToeGame.self w') = TicTacToeGame.self_state g
        /\ TicTacToeGame.self_winner (TicTacToeGame.self w')
           = TicTacToeGame.self_winner g)
    /\ (forall x, check_winner (<[m:=ai]> b) = Ok (Some x) -> x <> "" ->
        TicTacToeGame.self_state (TicTacToeGame.self w') = TicTacToeGame.game_over
        /\ TicTacToeGame.self_winner (TicTacToeGame.self w') = Some x).
Proof.
  intros Hlen Hfuel Hcw Eai Ehu Hai Hhu b.
  destruct (ai_move_spec P limit g c t ai hu Hlen Hfuel Hcw Eai Ehu Hai Hhu)
    as (m & c' & Hm & Ebm & line & E).
  exists m, c'. eexists. split; [exact Ebm |]. split; [exact Hm |].
  split; [exact E |]. cbn [TicTacToeGame.self TicTacToeGame.timer].
  destruct (after_move_fields g (<[m:=ai]> b) true
              ltac:(rewrite length_insert; unfold b; rewrite Hlen; apply le_n))
    as (Hb & Hnone & Hsome).
  split; [exact Hb |]. split; [reflexivity |]. split; [exact Hnone | exact Hsome].
Qed.

Lemma ai_move_plays_best_move_witness :
  exists m c' w',
    best_move false 5 "X" "O" (World row_board []) = (Ok m, World row_board c')
    /\ row_board !! m = Some " "
    /\ TicTacToeGame.ai_move false 5
         (TicTacToeGame.Env
            (TicTacToeGame.Game TicTacToeGame.playing row_board (Some "O") (Some "X")
               false None None) [] 0)
       = (TicTacToeGame.Done tt, w')
    /\ TicTacToeGame.self_board (TicTacToeGame.self w') = <[m:="X"]> row_board.
Proof.
  destruct (ai_move_plays_best_move false 5
              (TicTacToeGame.Game TicTacToeGame.playing row_board (Some "O") (Some "X")
                 false None None) [] 0 "X" "O")
    as (m & c' & w' & Ebm & Hm & E & Hb & _).
  - reflexivity.
  - vm_compute. lia.
  - reflexivity.
  - reflexivity.
  - reflexivity.
  - discriminate.
  - discriminate.
  - exists m, c', w'. split; [exact Ebm |]. split; [exact Hm |].
    split; [exact E | exact Hb].
Defined.

(** X16. [handle_click_menu], with a call stack of nine frames or more,
    raises nothing and leaves the timer and [self.button_rect] alone.  A
    click on the button X starts a game on an empty board, the human has X
    and is to move.  A click on the button O (and not on X) starts a game in
    which the AI has X and has already played: the board holds one X, in
    cell 0, and the human, with O, is to move.  A click on neither button
    changes nothing. *)
Theorem handle_click_menu_starts_game (collidepoint : TicTacToeGame.rect -> Z * Z -> bool)
    (P : bool) (limit : nat) (g : TicTacToeGame.game) (c : list string) (t : Z)
    (pos : Z * Z) :
  9 <= limit ->
  let x_button := TicTacToeGame.Rect 150 280 120 120 in
  let o_button := TicTacToeGame.Rect 330 280 120 120 in
  exists w',
    TicTacToeGame.handle_click_menu collidepoint P limit pos (TicTacToeGame.Env g c t)
    = (TicTacToeGame.Done tt, w')
    /\ TicTacToeGame.timer w' = t
    /\ (collidepoint x_button pos = true ->
        TicTacToeGame.self w'
        = TicTacToeGame.Game TicTacToeGame.playing (replicate 9 " ") (Some "X") (Some "O")
            true None (TicTacToeGame.self_button_rect g))
    /\ (collidepoint x_button pos = false -> collidepoint o_button pos = true ->
        TicTacToeGame.self w'
        = TicTacToeGame.Game TicTacToeGame.playing (<[0:="X"]> (replicate 9 " "))
            (Some "O") (Some "X") true None (TicTacToeGame.self_button_rect g))
    /\ (collidepoint x_button pos = false -> collidepoint o_button pos = false ->
        w' = TicTacToeGame.Env g c t).
Proof.
  intros Hle x_button o_button. rewrite handle_click_menu_spec. fold x_button o_button.
  destruct (collidepoint x_button pos).
  { destruct (start_game_spec P limit
                (TicTacToeGame.Game (TicTacToeGame.self_state g)
                   (TicTacToeGame.self_board g) (Some "X") (Some "O") true
                   (TicTacToeGame.self_winner g) (TicTacToeGame.self_button_rect g)) c t)
      as [c' ->].
    eexists. split; [reflexivity |]. split; [reflexivity |].
    split; [reflexivity |]. split; discriminate. }
  destruct (collidepoint o_button pos).
  2:{ eexists. split; [reflexivity |]. split; [reflexivity |].
      split; [discriminate |]. split; [discriminate | reflexivity]. }
  destruct (start_game_spec P limit
              (TicTacToeGame.Game (TicTacToeGame.self_state g)
                 (TicTacToeGame.self_board g) (Some "O") (Some "X") false
                 (TicTacToeGame.self_winner g) (TicTacToeGame.self_button_rect g)) c t)
    as [c' ->].
  cbn [TicTacToeGame.self_hu_turn TicTacToeGame.self_hu_player
       TicTacToeGame.self_ai_player TicTacToeGame.self_button_rect].
  cbv zeta. cbv iota.
  destruct (ai_move_spec P limit
              (TicTacToeGame.Game TicTacToeGame.playing (replicate 9 " ") (Some "O")
                 (Some "X") false None (TicTacToeGame.self_button_rect g)) c' t "X" "O")
    as (m & c'' & _ & Ebm & line & ->);
    try reflexivity; try discriminate.
  { cbn [TicTacToeGame.self_board]. change (blanks (replicate 9 " ")) with 9. exact Hle. }
  cbn [TicTacToeGame.self_board] in Ebm |- *.
  destruct (best_move_from_choice P 9 limit "X" "O" empty_board c' _ _
              empty_board_choice Hle) as [out' E0].
  unfold empty_board in E0. rewrite E0 in Ebm. injection Ebm as <- _.
  assert (Ho : outcome_of (<[0:="X"]> (replicate 9 " ")) = None) by reflexivity.
  unfold after_move. rewrite Ho. cbn [TicTacToeGame.truthy].
  eexists. split; [reflexivity |]. split; [reflexivity |].
  split; [discriminate |]. split; [reflexivity | discriminate].
Qed.

Lemma handle_click_menu_starts_game_witness :
  exists w',
    TicTacToeGame.handle_click_menu TicTacToeGame.inside false 9 (400, 300)%Z
      (TicTacToeGame.Env TicTacToeGame.init [] 0)
    = (TicTacToeGame.Done tt, w')
    /\ TicTacToeGame.self w'
       = TicTacToeGame.Game TicTacToeGame.playing (<[0:="X"]> (replicate 9 " "))
           (Some "O") (Some "X") true None None.
Proof.
  destruct (handle_click_menu_starts_game TicTacToeGame.inside false 9
              TicTacToeGame.init [] 0 (400, 300)%Z (le_n 9))
    as (w' & E & _ & _ & Ho & _).
  exists w'. split; [exact E |]. apply Ho; reflexivity.
Defined.

(** X17. [run], started on the object [__init__] builds, with a call stack of
    nine frames or more, fed any events of which the clicks fall inside the
    window: no event raises an exception and no cell ever receives [None];
    after every turn of the loop the board is a position of tic-tac-toe (nine
    cells holding X, O or nothing, as many X as O or one more).  While the
    state is ['playing'] the two players hold X and O, one each, nobody has
    won and a cell is empty, [self.winner] is [None], [self.hu_turn]
    designates the symbol whose turn it is by the count of marks, and when it
    is the AI's turn the timer of 500 ms is running.  When the state is
    ['game_over'], [self.winner] is what [check_winner] returns on the board:
    X, O or a tie. *)
Theorem run_keeps_game_legal (collidepoint : TicTacToeGame.rect -> Z * Z -> bool)
    (rect_bool : TicTacToeGame.rect -> bool) (P : bool) (limit : nat)
    (frames : list (list TicTacToeGame.event)) :
  9 <= limit -> Forall (Forall event_in_window) frames ->
  exists r w',
    TicTacToeGame.run collidepoint rect_bool P limit frames
      (TicTacToeGame.Env TicTacToeGame.init [] 0)
    = (TicTacToeGame.Done r, w')
    /\ let g := TicTacToeGame.self w' in
       let b := TicTacToeGame.self_board g in
       position b
       /\ (TicTacToeGame.self_state g = TicTacToeGame.playing ->
           players g /\ check_winner b = Ok None /\ (exists m, b !! m = Some " ")
           /\ TicTacToeGame.self_winner g = None
           /\ mover g = Some (to_move b)
           /\ (TicTacToeGame.self_hu_turn g = false -> TicTacToeGame.timer w' = 500%Z))
       /\ (TicTacToeGame.self_state g = TicTacToeGame.game_over ->
           players g
           /\ exists x, check_winner b = Ok (Some x)
                        /\ TicTacToeGame.self_winner g = Some x
                        /\ (x = "X" \/ x = "O" \/ x = "Tie")).
Proof.
  intros Hle Hall.
  destruct (run_consistent collidepoint rect_bool P limit Hle frames
              (TicTacToeGame.Env TicTacToeGame.init [] 0) consistent_init Hall)
    as (r & w' & E & Hpos & Hc).
  exists r, w'. split; [exact E |]. cbv zeta. split; [exact Hpos |].
  destruct (TicTacToeGame.self_state (TicTacToeGame.self w')).
  - split; discriminate.
  - split; [| discriminate]. intros _.
    destruct Hc as (Hp & Hcw & Hw & Hm & Ht & _).
    split; [exact Hp |]. split; [exact Hcw |]. split; [| auto].
    rewrite (check_winner_in_range _ ltac:(rewrite (proj1 Hpos); apply le_n)) in Hcw.
    injection Hcw as Hcw. apply outcome_of_None in Hcw as [_ Hblank].
    apply no_blank_false. exact Hblank.
  - split; [discriminate |]. intros _. destruct Hc as (Hp & x & Hcw & Hw & Hx & _).
    split; [exact Hp |]. exists x. auto.
Qed.

Lemma run_keeps_game_legal_witness :
  exists r w',
    TicTacToeGame.run TicTacToeGame.inside TicTacToeGame.nonempty false 9
      [[TicTacToeGame.MOUSEBUTTONDOWN (200, 300)%Z];
       [TicTacToeGame.MOUSEBUTTONDOWN (300, 300)%Z; TicTacToeGame.OTHER];
       [TicTacToeGame.USEREVENT]; [TicTacToeGame.QUIT]]
      (TicTacToeGame.Env TicTacToeGame.init [] 0)
    = (TicTacToeGame.Done r, w')
    /\ position (TicTacToeGame.self_board (TicTacToeGame.self w')).
Proof.
  destruct (run_keeps_game_legal TicTacToeGame.inside TicTacToeGame.nonempty false 9
              [[TicTacToeGame.MOUSEBUTTONDOWN (200, 300)%Z];
               [TicTacToeGame.MOUSEBUTTONDOWN (300, 300)%Z; TicTacToeGame.OTHER];
               [TicTacToeGame.USEREVENT]; [TicTacToeGame.QUIT]] (le_n 9))
    as (r & w' & E & Hpos & _).
  - repeat constructor; cbn; lia.
  - exists r, w'. split; [exact E | exact Hpos].
Defined.

(** X18. The human never wins.  [run], started on the object [__init__]
    builds, with a call stack of nine frames or more, fed any events of which
    the clicks fall inside the window: whenever the state is ['game_over'],
    the winner recorded, the one [draw_game_over] announces, is a tie or the
    symbol of the AI, never the symbol of the human. *)
Theorem human_never_wins (collidepoint : TicTacToeGame.rect -> Z * Z -> bool)
    (rect_bool : TicTacToeGame.rect -> bool) (P : bool) (limit : nat)
    (frames : list (list TicTacToeGame.event)) :
  9 <= limit -> Forall (Forall event_in_window) frames ->
  exists r w',
    TicTacToeGame.run collidepoint rect_bool P limit frames
      (TicTacToeGame.Env TicTacToeGame.init [] 0)
    = (TicTacToeGame.Done r, w')
    /\ (TicTacToeGame.self_state (TicTacToeGame.self w') = TicTacToeGame.game_over ->
        exists x,
          TicTacToeGame.self_winner (TicTacToeGame.self w') = Some x
          /\ (x = "Tie" \/ TicTacToeGame.self_ai_player (TicTacToeGame.self w') = Some x)
          /\ TicTacToeGame.self_hu_player (TicTacToeGame.self w') <> Some x).
Proof.
  intros Hle Hall.
  destruct (run_consistent collidepoint rect_bool P limit Hle frames
              (TicTacToeGame.Env TicTacToeGame.init [] 0) consistent_init Hall)
    as (r & w' & E & Hpos & Hc).
  exists r, w'. split; [exact E |]. intros Hs. rewrite Hs in Hc.
  destruct Hc as (Hp & x & _ & Hw & Hx & Hne).
  exists x. split; [exact Hw |]. split; [| congruence].
  destruct Hp as [[Ehu Eai] | [Ehu Eai]]; rewrite Ehu in Hne; rewrite Eai;
    destruct Hx as [-> | [-> | ->]]; auto; destruct Hne; reflexivity.
Qed.

Lemma human_never_wins_witness :
  exists r w',
    TicTacToeGame.run TicTacToeGame.inside TicTacToeGame.nonempty false 9
      [[TicTacToeGame.MOUSEBUTTONDOWN (200, 300)%Z];
       [TicTacToeGame.MOUSEBUTTONDOWN (300, 300)%Z];
       [TicTacToeGame.USEREVENT]; [TicTacToeGame.MOUSEBUTTONDOWN (100, 500)%Z]]
      (TicTacToeGame.Env TicTacToeGame.init [] 0)
    = (TicTacToeGame.Done r, w')
    /\ (TicTacToeGame.self_state (TicTacToeGame.self w') = TicTacToeGame.game_over ->
        TicTacToeGame.self_winner (TicTacToeGame.self w')
        <> TicTacToeGame.self_hu_player (TicTacToeGame.self w')).
Proof.
  destruct (human_never_wins TicTacToeGame.inside TicTacToeGame.nonempty false 9
              [[TicTacToeGame.MOUSEBUTTONDOWN (200, 300)%Z];
               [TicTacToeGame.MOUSEBUTTONDOWN (300, 300)%Z];
               [TicTacToeGame.USEREVENT]; [TicTacToeGame.MOUSEBUTTONDOWN (100, 500)%Z]]
              (le_n 9))
    as (r & w' & E & H).
  - repeat constructor; cbn; lia.
  - exists r, w'. split; [exact E |]. intros Hs. destruct (H Hs) as (x & Hw & _ & Hne).
    rewrite Hw. congruence.
Defined.

(** X19. The sign of the score does not depend on the depth.  With marks that
    are not the empty cell, from two depths that leave a win above 0 and a
    loss below it on every level the board can still reach (depth plus the
    number of empty cells under 10), [minimax] raises the same exception, or
    returns two scores of the same sign: both positive, both 0 or both
    negative. *)
Theorem minimax_sign_depth (fuel : nat) (d d' : Z) (is_maximizing : bool)
    (ai_player hu_player : string) (pt pt' : bool) (b : board) (out out' : list string) :
  ai_player <> " " -> hu_player <> " " ->
  (d + Z.of_nat (blanks b) < 10)%Z -> (d' + Z.of_nat (blanks b) < 10)%Z ->
  rmap sign (fst (minimax fuel d is_maximizing ai_player hu_player pt (World b out)))
  = rmap sign (fst (minimax fuel d' is_maximizing ai_player hu_player pt' (World b out'))).
Proof.
  intros Hai Hhu Hd Hd'. rewrite !fst_minimax. cbn [cells].
  apply minimax_value_sign; assumption.
Qed.

Lemma minimax_sign_depth_witness :
  rmap sign (fst (minimax 6 0 false "X" "O" true (World row_board [])))
  = rmap sign (fst (minimax 6 4 false "X" "O" false (World row_board []))).
Proof.
  apply (minimax_sign_depth 6 0 4 false "X" "O" true false row_board [] []);
    try discriminate; vm_compute; reflexivity.
Defined.
